(** * Smart-rewards reconciliation and claim-argument assembly

    A shallow embedding of [src/core/calculations.ts] ([RewardCalculator]),
    of [prepareClaimArgs] of the on-chain claim client, of the two
    pagination loops of [src/clients/smart-rewards-client.ts] and of
    [getUserClaimableCampaigns] of the orchestrating client.

    Conventions of the embedding.
    - A JavaScript string is the list of its code units; the model covers
      the code units below 256 (type [ascii]).  String literals are written
      with the coercion [list_ascii_of_string].
    - A JavaScript [BigInt] is a [Z].
    - A JavaScript [number] that the code uses as a count of digits or as an
      identifier ([decimals], [campaignId], [chainId]) is the integer [Z] it
      denotes; a [number] produced by [parseFloat] or [Number] is a binary64
      value, [SpecFloat.spec_float] with precision 53 and [emax] 1024,
      obtained by rounding the decimal literal to nearest, ties to even.
    - A function that can throw returns [result]: [Ok v] or [Err e] with [e]
      the class of the exception (messages are not modelled).
    - [await] is sequential evaluation.  A [while] loop over remote pages
      takes fuel and returns [None] when the fuel runs out. *)

From Stdlib Require Import ZArith Lia List Bool Ascii String.
From Stdlib Require Import Sorting.Sorted Sorting.Permutation.
From Stdlib Require Import Floats.SpecFloat.
Import ListNotations.

Open Scope string_scope.
Open Scope list_scope.
Open Scope Z_scope.

(** ** Strings *)

Definition jsstring := list ascii.

Coercion list_ascii_of_string : string >-> list.

Definition code (c : ascii) : Z := Z.of_N (N_of_ascii c).

Definition len (s : jsstring) : Z := Z.of_nat (List.length s).

Definition isDigit (c : ascii) : bool := (48 <=? code c) && (code c <=? 57).

Definition digitVal (c : ascii) : Z := code c - 48.

Definition digitChar (d : Z) : ascii := ascii_of_N (Z.to_N (d + 48)).

(** [/^\d+$/.test(s)] *)
Definition allDigits (s : jsstring) : bool :=
  match s with
  | [] => false
  | _ => forallb isDigit s
  end.

Definition str_eqb (a b : jsstring) : bool :=
  if list_eq_dec ascii_dec a b then true else false.

(** WhiteSpace and LineTerminator code units below 256: TAB, LF, VT, FF, CR,
    SP and NBSP. *)
Definition isWhiteSpace (c : ascii) : bool :=
  let n := code c in
  ((9 <=? n) && (n <=? 13)) || (n =? 32) || (n =? 160).

Fixpoint trimStart (s : jsstring) : jsstring :=
  match s with
  | c :: s' => if isWhiteSpace c then trimStart s' else s
  | [] => []
  end.

Definition trimEnd (s : jsstring) : jsstring := rev (trimStart (rev s)).

Definition trim (s : jsstring) : jsstring := trimEnd (trimStart s).

(** [String.prototype.toLowerCase] on code units below 256. *)
Definition lowerChar (c : ascii) : ascii :=
  let n := code c in
  if ((65 <=? n) && (n <=? 90))
     || ((192 <=? n) && (n <=? 222) && negb (n =? 215))
  then ascii_of_N (Z.to_N (n + 32))
  else c.

Definition toLowerCase (s : jsstring) : jsstring := map lowerChar s.

(** [s.padEnd(n, '0')] and [s.padStart(n, '0')] *)
Definition zeros (n : Z) : jsstring := repeat "0"%char (Z.to_nat n).

Definition padEnd0 (s : jsstring) (n : Z) : jsstring := s ++ zeros (n - len s).

Definition padStart0 (s : jsstring) (n : Z) : jsstring := zeros (n - len s) ++ s.

(** [s.slice(0, n)] and [s.slice(n)] for [0 <= n] *)
Definition sliceTo (s : jsstring) (n : Z) : jsstring := firstn (Z.to_nat n) s.

Definition sliceFrom (s : jsstring) (n : Z) : jsstring := skipn (Z.to_nat n) s.

(** [s.replace(/^0+/, '')] *)
Fixpoint stripLeadingZeros (s : jsstring) : jsstring :=
  match s with
  | c :: s' => if Ascii.eqb c "0" then stripLeadingZeros s' else s
  | [] => []
  end.

(** [s.replace(/0+$/, '')] *)
Definition stripTrailingZeros (s : jsstring) : jsstring :=
  rev (stripLeadingZeros (rev s)).

(** [s.split('.')]: the segments between the dots, at least one. *)
Fixpoint splitDot (s : jsstring) : list jsstring :=
  match s with
  | [] => [[]]
  | c :: s' =>
      if Ascii.eqb c "."
      then [] :: splitDot s'
      else match splitDot s' with
           | seg :: segs => (c :: seg) :: segs
           | [] => [[c]]
           end
  end.

(** [x || d] on strings: the empty string is falsy. *)
Definition orElse (x d : jsstring) : jsstring :=
  match x with [] => d | _ => x end.

(** ** Exceptions *)

Inductive exn : Type :=
  | SmartRewardsError
  | ClaimError
  | SyntaxError
  | PlainError.

Inductive result (A : Type) : Type :=
  | Ok (a : A)
  | Err (e : exn).
Arguments Ok {A} a.
Arguments Err {A} e.

Definition bind {A B} (r : result A) (k : A -> result B) : result B :=
  match r with
  | Ok a => k a
  | Err e => Err e
  end.

Notation "x <- r ;; k" := (bind r (fun x => k))
  (at level 61, r at next level, right associativity).

(** [try { body } catch (error) { throw new E(...) }] *)
Definition rethrowAs {A} (e : exn) (body : result A) : result A :=
  match body with
  | Ok a => Ok a
  | Err _ => Err e
  end.

(** ** BigInt *)

(** Value of a digit of a literal in radix 2, 8, 10 or 16. *)
Definition radixDigit (radix : Z) (c : ascii) : option Z :=
  let n := code c in
  let v := if (48 <=? n) && (n <=? 57) then n - 48
           else if (97 <=? n) && (n <=? 102) then n - 87
           else if (65 <=? n) && (n <=? 70) then n - 55
           else radix in
  if v <? radix then Some v else None.

Fixpoint parseRadixAcc (radix : Z) (acc : Z) (s : jsstring) : option Z :=
  match s with
  | [] => Some acc
  | c :: s' =>
      match radixDigit radix c with
      | Some v => parseRadixAcc radix (acc * radix + v) s'
      | None => None
      end
  end.

(** One or more digits of the radix. *)
Definition parseRadix (radix : Z) (s : jsstring) : option Z :=
  match s with
  | [] => None
  | _ => parseRadixAcc radix 0 s
  end.

(** Radix announced by the second character of a 0x, 0o or 0b literal. *)
Definition radixOfPrefix (p : ascii) : option Z :=
  if (Ascii.eqb p "x" || Ascii.eqb p "X")%bool then Some 16
  else if (Ascii.eqb p "o" || Ascii.eqb p "O")%bool then Some 8
  else if (Ascii.eqb p "b" || Ascii.eqb p "B")%bool then Some 2
  else None.

(** NonDecimalIntegerLiteral: prefix 0x, 0o or 0b and one or more digits. *)
Definition parseNonDecimalLiteral (s : jsstring) : option Z :=
  match s with
  | "0"%char :: p :: digits =>
      match radixOfPrefix p with
      | Some radix => parseRadix radix digits
      | None => None
      end
  | _ => None
  end.

Definition hasRadixPrefix (s : jsstring) : bool :=
  match s with
  | "0"%char :: p :: _ =>
      match radixOfPrefix p with Some _ => true | None => false end
  | _ => false
  end.

(** StrIntegerLiteral: a signed decimal integer, or an unsigned literal with
    prefix 0x, 0o or 0b. *)
Definition parseIntegerLiteral (s : jsstring) : option Z :=
  if hasRadixPrefix s then parseNonDecimalLiteral s
  else match s with
       | "+"%char :: digits => parseRadix 10 digits
       | "-"%char :: digits => option_map Z.opp (parseRadix 10 digits)
       | _ => parseRadix 10 s
       end.

(** [BigInt(s)] for a string [s] (StringToBigInt): surrounding white space is
    dropped, the empty literal is [0n], anything else that is not an integer
    literal throws a SyntaxError. *)
Definition BigInt (s : jsstring) : result Z :=
  match trim s with
  | [] => Ok 0
  | t => match parseIntegerLiteral t with
         | Some v => Ok v
         | None => Err SyntaxError
         end
  end.

(** Decimal digits of [n], most significant first, in front of [acc];
    [fuel] bounds the number of digits. *)
Fixpoint digitsOf (fuel : nat) (n : Z) (acc : jsstring) : jsstring :=
  match fuel with
  | O => digitChar (n mod 10) :: acc
  | S fuel' =>
      if n <? 10 then digitChar n :: acc
      else digitsOf fuel' (n / 10) (digitChar (n mod 10) :: acc)
  end.

(** [BigInt.prototype.toString()] *)
Definition toString (n : Z) : jsstring :=
  let digits a := digitsOf (Z.to_nat (Z.log2 a)) a [] in
  if n <? 0 then "-"%char :: digits (- n) else digits n.

(** ** Base-unit arithmetic ([RewardCalculator]) *)

Definition addBaseUnits (amount1 amount2 : jsstring) : result jsstring :=
  rethrowAs SmartRewardsError
    (num1 <- BigInt amount1 ;;
     num2 <- BigInt amount2 ;;
     Ok (toString (num1 + num2))).

Definition subtractBaseUnits (amount1 amount2 : jsstring) : result jsstring :=
  rethrowAs SmartRewardsError
    (num1 <- BigInt amount1 ;;
     num2 <- BigInt amount2 ;;
     let result := num1 - num2 in
     Ok (if result <? 0 then ("0" : jsstring) else toString result)).

Definition compareBaseUnits (amount1 amount2 : jsstring) : result Z :=
  rethrowAs SmartRewardsError
    (num1 <- BigInt amount1 ;;
     num2 <- BigInt amount2 ;;
     Ok (if num1 <? num2 then -1 else if num1 >? num2 then 1 else 0)).

Definition MAX_UINT256_literal : jsstring :=
  "0xffffffffffffffffffffffffffffffffffffffffffffffffffffffffffffffff".

Definition MAX_UINT256 : Z := 2 ^ 256 - 1.

(** The loop of [validateAmountsForOnChain]; [Err] is an exception of
    [BigInt(amount)] that leaves the loop. *)
Fixpoint validateAmountsLoop (amounts : list jsstring) : result bool :=
  match amounts with
  | [] => Ok true
  | amount :: rest =>
      value <- BigInt amount ;;
      if (value <? 0) || (value >? MAX_UINT256) then Ok false
      else validateAmountsLoop rest
  end.

Definition validateAmountsForOnChain (amounts : list jsstring) : bool :=
  match validateAmountsLoop amounts with
  | Ok b => b
  | Err _ => false
  end.

(** ** Vocabulary of the properties *)

(** The integer denoted by a string of decimal digits. *)
Definition decValue (s : jsstring) : Z :=
  fold_left (fun acc c => acc * 10 + digitVal c) s 0.

(** A base-unit string: digits only, no superfluous leading zero. *)
Definition isBaseUnit (s : jsstring) : bool :=
  allDigits s &&
  match s with
  | c :: _ :: _ => negb (Ascii.eqb c "0")
  | _ => true
  end.

(** An amount that [BigInt] parses to an unsigned 256-bit integer. *)
Definition onChainSafe (amount : jsstring) : Prop :=
  exists v, BigInt amount = Ok v /\ 0 <= v <= MAX_UINT256.

Definition two_pow_256_literal : jsstring :=
  "115792089237316195423570985008687907853269984665640564039457584007913129639936".

(** ** Numbers (binary64) *)

Definition number := spec_float.

Definition prec : Z := 53.
Definition emax : Z := 1024.

Definition NaN : number := S754_nan.

Definition isNaN (x : number) : bool :=
  match x with S754_nan => true | _ => false end.

(** The Number value of an integer. *)
Definition numberOfZ (n : Z) : number := binary_normalize prec emax n 0 false.

(** The Number value of [m * 10 ^ e] with sign [neg], for [0 <= m]: the
    nearest binary64 value, ties to even. *)
Definition numberOfDecimal (neg : bool) (m e : Z) : number :=
  match m with
  | Zpos p =>
      if 0 <=? e
      then binary_normalize prec emax (cond_Zopp neg (m * 10 ^ e)) 0 false
      else SFdiv prec emax (S754_finite neg p 0)
                 (S754_finite false (Z.to_pos (10 ^ (- e))) 0)
  | _ => S754_zero neg
  end.

(** A number above zero. *)
Definition isPositive (x : number) : bool :=
  match x with
  | S754_finite false _ _ | S754_infinity false => true
  | _ => false
  end.

(** [x === y], [x <= y], [x < y] and [x - y] on numbers. *)
Definition numEq (x y : number) : bool := SFeqb x y.
Definition numLe (x y : number) : bool := SFleb x y.
Definition numLt (x y : number) : bool := SFltb x y.
Definition numSub (x y : number) : number := SFsub prec emax x y.

(** *** Decimal literals of strings *)

(** The longest run of decimal digits at the front of [s], and the rest. *)
Fixpoint spanDigits (s : jsstring) : jsstring * jsstring :=
  match s with
  | c :: s' =>
      if isDigit c
      then let (ds, rest) := spanDigits s' in (c :: ds, rest)
      else ([], s)
  | [] => ([], [])
  end.

(** ExponentPart, when present at the front of [s]: its value and the rest;
    otherwise exponent 0 and [s]. *)
Definition scanExponent (s : jsstring) : Z * jsstring :=
  match s with
  | e :: s1 =>
      if (Ascii.eqb e "e" || Ascii.eqb e "E")%bool
      then
        let (neg, s2) :=
          match s1 with
          | "+"%char :: t => (false, t)
          | "-"%char :: t => (true, t)
          | _ => (false, s1)
          end in
        match spanDigits s2 with
        | ([], _) => (0, s)
        | (ds, rest) => (if neg then - decValue ds else decValue ds, rest)
        end
      else (0, s)
  | [] => (0, s)
  end.

Inductive literal : Type :=
  | LitInfinity
  | LitDecimal (mantissa exp10 : Z).

Fixpoint stripPrefix (p s : jsstring) : option jsstring :=
  match p, s with
  | [], _ => Some s
  | a :: p', b :: s' => if Ascii.eqb a b then stripPrefix p' s' else None
  | _ :: _, [] => None
  end.

(** The longest prefix of [s] that is a StrUnsignedDecimalLiteral, as the
    literal it denotes, and the rest of [s]. *)
Definition scanUnsignedDecimal (s : jsstring) : option (literal * jsstring) :=
  match stripPrefix "Infinity" s with
  | Some rest => Some (LitInfinity, rest)
  | None =>
      let (ip, s1) := spanDigits s in
      match ip, s1 with
      | _ :: _, "."%char :: s2 =>
          let (fp, s3) := spanDigits s2 in
          let (e, s4) := scanExponent s3 in
          Some (LitDecimal (decValue (ip ++ fp)) (e - len fp), s4)
      | _ :: _, _ =>
          let (e, s4) := scanExponent s1 in
          Some (LitDecimal (decValue ip) e, s4)
      | [], "."%char :: s2 =>
          match spanDigits s2 with
          | ([], _) => None
          | (fp, s3) =>
              let (e, s4) := scanExponent s3 in
              Some (LitDecimal (decValue fp) (e - len fp), s4)
          end
      | [], _ => None
      end
  end.

(** The longest prefix that is a StrDecimalLiteral: sign, literal, rest. *)
Definition scanDecimal (s : jsstring) : option (bool * literal * jsstring) :=
  let (neg, body) :=
    match s with
    | "+"%char :: t => (false, t)
    | "-"%char :: t => (true, t)
    | _ => (false, s)
    end in
  match scanUnsignedDecimal body with
  | Some (lit, rest) => Some (neg, lit, rest)
  | None => None
  end.

Definition literalValue (neg : bool) (lit : literal) : number :=
  match lit with
  | LitInfinity => S754_infinity neg
  | LitDecimal m e => numberOfDecimal neg m e
  end.

(** [parseFloat(s)]: leading white space is skipped and the longest prefix
    that is a decimal literal is converted; [NaN] when there is none. *)
Definition parseFloat (s : jsstring) : number :=
  match scanDecimal (trimStart s) with
  | Some (neg, lit, _) => literalValue neg lit
  | None => NaN
  end.

(** [Number(s)] (StringToNumber): the whole string, white space trimmed,
    must be a literal; the empty literal is [+0]. *)
Definition Number (s : jsstring) : number :=
  match trim s with
  | [] => S754_zero false
  | t =>
      match parseNonDecimalLiteral t with
      | Some v => numberOfZ v
      | None =>
          match scanDecimal t with
          | Some (neg, lit, []) => literalValue neg lit
          | _ => NaN
          end
      end
  end.

(** ** Unit conversion ([RewardCalculator]) *)

(** [!s] on a string and [a.length === 0] on an array *)
Definition isEmpty {A} (s : list A) : bool :=
  match s with [] => true | _ => false end.

Definition toBaseUnits (decimalAmount : jsstring) (decimals : Z) : result jsstring :=
  if isEmpty decimalAmount || isNaN (parseFloat decimalAmount)
  then Err SmartRewardsError
  else if (decimals <? 0) || (decimals >? 77)
  then Err SmartRewardsError
  else
    rethrowAs SmartRewardsError
      (let parts := splitDot decimalAmount in
       let whole := nth 0 parts [] in
       let fractional := nth 1 parts [] in
       let paddedFractional := sliceTo (padEnd0 fractional decimals) decimals in
       let baseUnits := whole ++ paddedFractional in
       let result := orElse (stripLeadingZeros baseUnits) "0" in
       if negb (allDigits result) then Err PlainError
       else Ok result).

Definition fromBaseUnits (baseUnits : jsstring) (decimals : Z) : result jsstring :=
  if isEmpty baseUnits || negb (allDigits baseUnits)
  then Err SmartRewardsError
  else if (decimals <? 0) || (decimals >? 77)
  then Err SmartRewardsError
  else
    rethrowAs SmartRewardsError
      (if decimals =? 0 then Ok baseUnits
       else
         let paddedBaseUnits := padStart0 baseUnits (decimals + 1) in
         let wholePartLength := len paddedBaseUnits - decimals in
         let wholePart := orElse (sliceTo paddedBaseUnits wholePartLength) "0" in
         let fractionalPart := sliceFrom paddedBaseUnits wholePartLength in
         let trimmedFractional := stripTrailingZeros fractionalPart in
         if isEmpty trimmedFractional then Ok wholePart
         else Ok (wholePart ++ "."%char :: trimmedFractional)).

(** The canonical form of the decimal string with whole part [whole] and
    fractional part [frac]: superfluous leading zeros of the whole part and
    trailing zeros of the fractional part removed, and no dot when no
    fractional digit is left. *)
Definition canonicalForm (whole frac : jsstring) : jsstring :=
  let w := orElse (stripLeadingZeros whole) "0" in
  match stripTrailingZeros frac with
  | [] => w
  | f => w ++ "."%char :: f
  end.

(** ** Records *)

Module ClaimProof.
Record t : Type := mk {
  chainId : Z;
  lastBlockUpdatedTo : Z;
  user : jsstring;
  campaignId : Z;
  amount : jsstring;
  proof : list jsstring
}.
End ClaimProof.

Module ClaimReward.
Record t : Type := mk {
  id : jsstring;
  user : jsstring;
  amount : jsstring;
  campaign : jsstring;
  chainId : Z;
  timestamp : Z
}.
End ClaimReward.

Record ClaimCalculations : Type := {
  totalEligible : jsstring;
  totalClaimed : jsstring;
  remaining : jsstring;
  canClaim : bool
}.

(** ** Reconciliation ([RewardCalculator]) *)

(** The loop shared by [calculateTotalEligible] and [calculateTotalClaimed]:
    [total] is updated with the base units of each amount in turn. *)
Fixpoint addAmounts (amounts : list jsstring) (decimals : Z) (total : jsstring)
  : result jsstring :=
  match amounts with
  | [] => Ok total
  | amount :: rest =>
      baseUnits <- toBaseUnits amount decimals ;;
      total' <- addBaseUnits total baseUnits ;;
      addAmounts rest decimals total'
  end.

Definition calculateTotalEligible (proofs : list ClaimProof.t) (decimals : Z)
  : result jsstring :=
  rethrowAs SmartRewardsError
    (addAmounts (map ClaimProof.amount proofs) decimals "0").

(** [Number(claim.campaign) === campaignId] *)
Definition isCampaignClaim (campaignId : Z) (claim : ClaimReward.t) : bool :=
  numEq (Number (ClaimReward.campaign claim)) (numberOfZ campaignId).

Definition calculateTotalClaimed (claims : list ClaimReward.t) (campaignId decimals : Z)
  : result jsstring :=
  rethrowAs SmartRewardsError
    (let campaignClaims := filter (isCampaignClaim campaignId) claims in
     addAmounts (map ClaimReward.amount campaignClaims) decimals "0").

Definition calculateRemaining (totalEligible totalClaimed : jsstring) : result jsstring :=
  subtractBaseUnits totalEligible totalClaimed.

Definition performCalculations
  (proofs : list ClaimProof.t) (claims : list ClaimReward.t) (campaignId decimals : Z)
  : result ClaimCalculations :=
  rethrowAs SmartRewardsError
    (totalEligible <- calculateTotalEligible proofs decimals ;;
     totalClaimed <- calculateTotalClaimed claims campaignId decimals ;;
     remaining <- calculateRemaining totalEligible totalClaimed ;;
     cmp <- compareBaseUnits remaining "0" ;;
     let canClaim := cmp >? 0 in
     Ok {| totalEligible := totalEligible;
           totalClaimed := totalClaimed;
           remaining := remaining;
           canClaim := canClaim |}).

Definition formatCalculations (calculations : ClaimCalculations) (decimals : Z)
  : result ClaimCalculations :=
  totalEligible' <- fromBaseUnits (totalEligible calculations) decimals ;;
  totalClaimed' <- fromBaseUnits (totalClaimed calculations) decimals ;;
  remaining' <- fromBaseUnits (remaining calculations) decimals ;;
  Ok {| totalEligible := totalEligible';
        totalClaimed := totalClaimed';
        remaining := remaining';
        canClaim := canClaim calculations |}.

(** The sum, as an integer, of the base units of the amounts; an amount
    that [toBaseUnits] refuses makes the sum fail. *)
Fixpoint sumOfBaseUnits (amounts : list jsstring) (decimals : Z) : result Z :=
  match amounts with
  | [] => Ok 0
  | amount :: rest =>
      baseUnits <- toBaseUnits amount decimals ;;
      sum <- sumOfBaseUnits rest decimals ;;
      Ok (decValue baseUnits + sum)
  end.

(** The sum of the integers denoted by base-unit strings. *)
Definition sumValues (baseUnits : list jsstring) : Z :=
  fold_right (fun b sum => decValue b + sum) 0 baseUnits.

(** What the reconciliation is to return: totals as sums, the remainder
    floored at zero, and [canClaim] when something remains. *)
Definition reconciliation
  (proofs : list ClaimProof.t) (claims : list ClaimReward.t) (campaignId decimals : Z)
  : result ClaimCalculations :=
  eligible <- sumOfBaseUnits (map ClaimProof.amount proofs) decimals ;;
  claimed <- sumOfBaseUnits
               (map ClaimReward.amount (filter (isCampaignClaim campaignId) claims))
               decimals ;;
  Ok {| totalEligible := toString eligible;
        totalClaimed := toString claimed;
        remaining := toString (Z.max 0 (eligible - claimed));
        canClaim := 0 <? eligible - claimed |}.

(** ** Record validation ([RewardCalculator]) *)

(** The checks of [validateClaimProofs] on one record: [true] when one of
    the four [if]s throws. *)
Definition proofIsRefused (expectedUser : jsstring) (expectedCampaignId : Z)
  (proof : ClaimProof.t) : bool :=
  negb (str_eqb (toLowerCase (ClaimProof.user proof)) (toLowerCase expectedUser))
  || negb (ClaimProof.campaignId proof =? expectedCampaignId)
  || isEmpty (ClaimProof.proof proof)
  || (isEmpty (ClaimProof.amount proof)
      || numLe (parseFloat (ClaimProof.amount proof)) (S754_zero false)).

Fixpoint validateClaimProofs (proofs : list ClaimProof.t)
  (expectedUser : jsstring) (expectedCampaignId : Z) : result unit :=
  match proofs with
  | [] => Ok tt
  | proof :: rest =>
      if negb (str_eqb (toLowerCase (ClaimProof.user proof))
                       (toLowerCase expectedUser))
      then Err SmartRewardsError
      else if negb (ClaimProof.campaignId proof =? expectedCampaignId)
      then Err SmartRewardsError
      else if isEmpty (ClaimProof.proof proof)
      then Err SmartRewardsError
      else if isEmpty (ClaimProof.amount proof)
              || numLe (parseFloat (ClaimProof.amount proof)) (S754_zero false)
      then Err SmartRewardsError
      else validateClaimProofs rest expectedUser expectedCampaignId
  end.

(** ** Claim arguments ([OnChainClaimClient]) *)

Record SmartRewarderClaimArgs : Type := {
  users : list jsstring;
  campaignIds : list Z;
  amounts : list jsstring;
  proofs : list (list jsstring)
}.

(** The [for] loop of [prepareClaimArgs]: the four arrays grow by one
    element per record; a record without user or without proof throws. *)
Fixpoint pushClaimArgs (records : list ClaimProof.t) (acc : SmartRewarderClaimArgs)
  : result SmartRewarderClaimArgs :=
  match records with
  | [] => Ok acc
  | proof :: rest =>
      if isEmpty (ClaimProof.user proof)
         || isEmpty (ClaimProof.proof proof)
      then Err ClaimError
      else
        pushClaimArgs rest
          {| users := users acc ++ [ClaimProof.user proof];
             campaignIds := campaignIds acc ++ [ClaimProof.campaignId proof];
             amounts := amounts acc ++ [ClaimProof.amount proof];
             proofs := proofs acc ++ [ClaimProof.proof proof] |}
  end.

Definition prepareClaimArgs (records : list ClaimProof.t)
  : result SmartRewarderClaimArgs :=
  if (List.length records =? 0)%nat then Err ClaimError
  else
    rethrowAs ClaimError
      (args <- pushClaimArgs records
                 {| users := []; campaignIds := []; amounts := []; proofs := [] |} ;;
       if negb (List.length (users args) =? List.length (campaignIds args))%nat
          || negb (List.length (users args) =? List.length (amounts args))%nat
          || negb (List.length (users args) =? List.length (proofs args))%nat
       then Err ClaimError
       else if negb (validateAmountsForOnChain (amounts args))
       then Err ClaimError
       else Ok args).

(** [claimBatch]: the arguments are prepared, then submitted.  The
    submission [executeClaim] is the contract call; it acts on the state
    [World] of the chain. *)
Section Submission.
Variable World : Type.
Variable Receipt : Type.
Variable executeClaim :
  Z -> SmartRewarderClaimArgs -> World -> result Receipt * World.

Definition claimBatch (chainId : Z) (records : list ClaimProof.t) (w : World)
  : result Receipt * World :=
  if (List.length records =? 0)%nat then (Err ClaimError, w)
  else
    match prepareClaimArgs records with
    | Err e => (Err e, w)
    | Ok claimArgs => executeClaim chainId claimArgs w
    end.

Definition claimSingle (chainId : Z) (proof : ClaimProof.t) (w : World)
  : result Receipt * World :=
  match prepareClaimArgs [proof] with
  | Err e => (Err e, w)
  | Ok claimArgs => executeClaim chainId claimArgs w
  end.
End Submission.

(** A record that the loop of [prepareClaimArgs] accepts. *)
Definition hasUserAndProof (proof : ClaimProof.t) : bool :=
  negb (isEmpty (ClaimProof.user proof))
  && negb (isEmpty (ClaimProof.proof proof)).

(** ** Pagination ([SmartRewardsGraphQLClient]) *)

Record PageInfo : Type := {
  hasNextPage : bool;
  endCursor : option jsstring  (* [None] is [null] *)
}.

Record Edge (A : Type) : Type := {
  cursor : jsstring;
  node : A
}.
Arguments cursor {A} _.
Arguments node {A} _.

(** [response.claimProofs] and [response.claimRewards] *)
Record Connection (A : Type) : Type := {
  totalCount : Z;
  edges : list (Edge A);
  pageInfo : PageInfo
}.
Arguments totalCount {A} _.
Arguments edges {A} _.
Arguments pageInfo {A} _.

Record ClaimProofQueryVariables : Type := {
  cpq_user : jsstring;
  cpq_chainId : Z;
  cpq_campaignId : Z;
  cpq_after : option jsstring
}.

Record ClaimRewardQueryVariables : Type := {
  crq_pool : jsstring;
  crq_chainId : Z;
  crq_user : jsstring;
  crq_after : option jsstring
}.

(** [!cursor]: [null] and the empty string are falsy. *)
Definition noCursor (cursor : option jsstring) : bool :=
  match cursor with
  | None => true
  | Some c => isEmpty c
  end.

(** The [while (hasNextPage)] loop of [fetchAllClaimProofs] and of
    [fetchAllHistoricalClaims].  [fetchPage n cursor] is the outcome of the
    request that follows [n] earlier ones; [fuel] bounds the number of
    iterations and [None] means that it ran out.  The result comes with
    the number of requests made. *)
Section Pagination.
Variable A : Type.
Variable fetchPage : nat -> option jsstring -> result (Connection A).

Fixpoint paginate (fuel n : nat) (cursor : option jsstring) (all : list A)
  : option (result (list A) * nat) :=
  match fuel with
  | O => None
  | S fuel' =>
      match fetchPage n cursor with
      | Err _ => Some (Err SmartRewardsError, S n)
      | Ok response =>
          let all' := all ++ map node (edges response) in
          let hasNextPage' := hasNextPage (pageInfo response) in
          let cursor' := endCursor (pageInfo response) in
          if noCursor cursor' && hasNextPage' then Some (Ok all', S n)
          else if hasNextPage' then paginate fuel' (S n) cursor' all'
          else Some (Ok all', S n)
      end
  end.

(** The requests of a run, from the [n]-th on and starting with [cursor],
    are answered by [pages] and then by [last]. *)
Fixpoint serves (n : nat) (cursor : option jsstring)
  (pages : list (Connection A)) (last : Connection A) : Prop :=
  match pages with
  | [] => fetchPage n cursor = Ok last
  | page :: rest =>
      fetchPage n cursor = Ok page /\
      serves (S n) (endCursor (pageInfo page)) rest last
  end.
(** The first [fuel] requests of a run are all answered by a page that
    announces a next page and gives its cursor. *)
Fixpoint keepsGoing (fuel n : nat) (cursor : option jsstring) : bool :=
  match fuel with
  | O => true
  | S fuel' =>
      match fetchPage n cursor with
      | Err _ => false
      | Ok response =>
          hasNextPage (pageInfo response)
          && negb (noCursor (endCursor (pageInfo response)))
          && keepsGoing fuel' (S n) (endCursor (pageInfo response))
      end
  end.
End Pagination.
Arguments paginate {A} fetchPage fuel n cursor all.
Arguments serves {A} fetchPage n cursor pages last.
Arguments keepsGoing {A} fetchPage fuel n cursor.

(** A page that announces a next page and gives its cursor. *)
Definition continues {A} (page : Connection A) : bool :=
  hasNextPage (pageInfo page) && negb (noCursor (endCursor (pageInfo page))).

(** A page that announces a next page without a cursor. *)
Definition inconsistent {A} (page : Connection A) : bool :=
  hasNextPage (pageInfo page) && noCursor (endCursor (pageInfo page)).

Definition nodesOf {A} (pages : list (Connection A)) : list A :=
  flat_map (fun page => map node (edges page)) pages.

Section Fetching.
(** The transport: the [data] of the response to a request, or an
    exception; the first argument counts the requests already made. *)
Variable requestClaimProofs :
  nat -> ClaimProofQueryVariables -> result (option (Connection ClaimProof.t)).
Variable requestClaimRewards :
  nat -> ClaimRewardQueryVariables -> result (option (Connection ClaimReward.t)).

Definition fetchClaimProofs (user : jsstring) (chainId campaignId : Z)
  (n : nat) (cursor : option jsstring) : result (Connection ClaimProof.t) :=
  rethrowAs SmartRewardsError
    (response <- requestClaimProofs n
                   {| cpq_user := user; cpq_chainId := chainId;
                      cpq_campaignId := campaignId; cpq_after := cursor |} ;;
     match response with
     | None => Err SmartRewardsError
     | Some data => Ok data
     end).

Definition fetchAllClaimProofs (fuel : nat) (user : jsstring) (chainId campaignId : Z)
  : option (result (list ClaimProof.t) * nat) :=
  paginate (fetchClaimProofs user chainId campaignId) fuel 0 None [].

Definition fetchHistoricalClaims (pool : jsstring) (chainId : Z) (user : jsstring)
  (n : nat) (cursor : option jsstring) : result (Connection ClaimReward.t) :=
  rethrowAs SmartRewardsError
    (response <- requestClaimRewards n
                   {| crq_pool := toLowerCase pool; crq_chainId := chainId;
                      crq_user := user; crq_after := cursor |} ;;
     match response with
     | None => Err SmartRewardsError
     | Some data => Ok data
     end).

Definition fetchAllHistoricalClaims (fuel : nat) (pool : jsstring) (chainId : Z)
  (user : jsstring) : option (result (list ClaimReward.t) * nat) :=
  paginate (fetchHistoricalClaims pool chainId user) fuel 0 None [].
End Fetching.

(** Sample pages used to exercise the loops. *)
Definition sampleProof (campaign : Z) (amount : jsstring) : ClaimProof.t :=
  ClaimProof.mk 146 100 "0x00000000000000000000000000000000000000aa"
                campaign amount ["0x01" : jsstring].

Definition sampleClaim (campaign amount : jsstring) : ClaimReward.t :=
  ClaimReward.mk "claim-1" "0x00000000000000000000000000000000000000aa"
                 amount campaign 146 1700000000.

Definition pageOf {A} (item : A) (more : bool) (next : option jsstring)
  : Connection A :=
  {| totalCount := 2;
     edges := [{| cursor := "e"; node := item |}];
     pageInfo := {| hasNextPage := more; endCursor := next |} |}.

Definition sampleProofPages (n : nat) (_ : ClaimProofQueryVariables)
  : result (option (Connection ClaimProof.t)) :=
  match n with
  | O => Ok (Some (pageOf (sampleProof 1 "10") true (Some ("c1" : jsstring))))
  | _ => Ok (Some (pageOf (sampleProof 1 "5") true None))
  end.

Definition sampleClaimPages (n : nat) (_ : ClaimRewardQueryVariables)
  : result (option (Connection ClaimReward.t)) :=
  match n with
  | O => Ok (Some (pageOf (sampleClaim "1" "3") true (Some ("c1" : jsstring))))
  | _ => Ok (Some (pageOf (sampleClaim "1" "4") true (Some ("" : jsstring))))
  end.

(** ** Multi-campaign aggregation ([SmartRewardsClient]) *)

Module Token.
Record t : Type := mk {
  id : jsstring;
  name : jsstring;
  symbol : jsstring;
  decimals : Z
}.
End Token.

(** The fields of a campaign that the modelled code reads. *)
Module Campaign.
Record t : Type := mk {
  id : jsstring;
  chainId : Z;
  rewardToken : Token.t;
  campaignId : Z;
  liquidityPool : jsstring
}.
End Campaign.

(** The element type of the result of [getUserClaimableCampaigns]. *)
Module ClaimableCampaign.
Record t : Type := mk {
  campaign : Campaign.t;
  canClaim : bool;
  remaining : jsstring;
  calculations : ClaimCalculations
}.
End ClaimableCampaign.

(** The answers of the remote services: the campaign directory, and the
    two record streams as the paginated fetches return them.  An answer
    depends on the request only: the remote data does not change while
    the campaigns are aggregated. *)
Record Remote : Type := {
  fetchCampaignsByChainId : Z -> result (list Campaign.t);
  allClaimProofs : jsstring -> Z -> Z -> result (list ClaimProof.t);
  allHistoricalClaims : jsstring -> Z -> jsstring -> result (list ClaimReward.t)
}.

Definition isHexDigit (c : ascii) : bool :=
  let n := code c in
  ((48 <=? n) && (n <=? 57)) || ((97 <=? n) && (n <=? 102))
  || ((65 <=? n) && (n <=? 70)).

(** [/^0x[a-fA-F0-9]{40}$/.test(s)] *)
Definition isAddress (s : jsstring) : bool :=
  match s with
  | "0"%char :: "x"%char :: digits =>
      (List.length digits =? 40)%nat && forallb isHexDigit digits
  | _ => false
  end.

Definition validateUserAddress (user : jsstring) : result unit :=
  if isEmpty user || negb (isAddress user) then Err SmartRewardsError else Ok tt.

Definition validatePoolAddress (pool : jsstring) : result unit :=
  if isEmpty pool || negb (isAddress pool) then Err SmartRewardsError else Ok tt.

Definition validateChainId (chainId : Z) : result unit :=
  if (chainId =? 0) || (chainId <=? 0) then Err SmartRewardsError else Ok tt.

Definition validateCampaignId (campaignId : Z) : result unit :=
  if (campaignId =? 0) || (campaignId <=? 0) then Err SmartRewardsError else Ok tt.

Section Aggregation.
Variable remote : Remote.

Definition fetchClaimProofsValidated (user : jsstring) (chainId campaignId : Z)
  : result (list ClaimProof.t) :=
  _ <- validateUserAddress user ;;
  _ <- validateChainId chainId ;;
  _ <- validateCampaignId campaignId ;;
  allClaimProofs remote user chainId campaignId.

Definition fetchHistoricalClaimsForCampaign
  (pool : jsstring) (chainId : Z) (user : jsstring) (campaignId : Z)
  : result (list ClaimReward.t) :=
  rethrowAs SmartRewardsError
    (allClaims <- allHistoricalClaims remote pool chainId user ;;
     Ok (filter (isCampaignClaim campaignId) allClaims)).

Definition fetchHistoricalClaimsValidated
  (pool : jsstring) (chainId : Z) (user : jsstring) (campaignId : option Z)
  : result (list ClaimReward.t) :=
  _ <- validatePoolAddress pool ;;
  _ <- validateChainId chainId ;;
  _ <- validateUserAddress user ;;
  match campaignId with
  | Some id =>
      _ <- validateCampaignId id ;;
      fetchHistoricalClaimsForCampaign pool chainId user id
  | None => allHistoricalClaims remote pool chainId user
  end.

(** [null] is [None]. *)
Definition getCampaignById (chainId campaignId : Z) : result (option Campaign.t) :=
  rethrowAs SmartRewardsError
    (campaigns <- fetchCampaignsByChainId remote chainId ;;
     Ok (find (fun c => Campaign.campaignId c =? campaignId) campaigns)).

Definition getClaimProofs (user : jsstring) (chainId campaignId : Z)
  : result (list ClaimProof.t) :=
  fetchClaimProofsValidated user chainId campaignId.

Definition getHistoricalClaims
  (pool : jsstring) (chainId : Z) (user : jsstring) (campaignId : option Z)
  : result (list ClaimReward.t) :=
  fetchHistoricalClaimsValidated pool chainId user campaignId.

Record Rewards : Type := {
  rw_proofs : list ClaimProof.t;
  rw_claims : list ClaimReward.t;
  rw_calculations : ClaimCalculations;
  rw_rewardTokenDecimals : Z
}.

Definition calculateRewards (user : jsstring) (chainId campaignId : Z)
  : result Rewards :=
  found <- getCampaignById chainId campaignId ;;
  match found with
  | None => Err SmartRewardsError
  | Some campaign =>
      proofs <- getClaimProofs user chainId campaignId ;;
      claims <- getHistoricalClaims (Campaign.liquidityPool campaign) chainId user
                  (Some campaignId) ;;
      calculations <- performCalculations proofs claims campaignId
                        (Token.decimals (Campaign.rewardToken campaign)) ;;
      Ok {| rw_proofs := proofs;
            rw_claims := claims;
            rw_calculations := calculations;
            rw_rewardTokenDecimals :=
              Token.decimals (Campaign.rewardToken campaign) |}
  end.

(** The body of the inner [try] of [getUserClaimableCampaigns]: the element
    pushed for one campaign, or the exception that makes it skipped. *)
Definition reconcileCampaign (user : jsstring) (chainId : Z) (campaign : Campaign.t)
  : result ClaimableCampaign.t :=
  rewards <- calculateRewards user chainId (Campaign.campaignId campaign) ;;
  let calculations := rw_calculations rewards in
  formatted <- formatCalculations calculations
                 (Token.decimals (Campaign.rewardToken campaign)) ;;
  Ok (ClaimableCampaign.mk campaign (canClaim calculations)
        (remaining formatted) calculations).

Fixpoint collectResults (user : jsstring) (chainId : Z) (campaigns : list Campaign.t)
  (results : list ClaimableCampaign.t) : list ClaimableCampaign.t :=
  match campaigns with
  | [] => results
  | campaign :: rest =>
      match reconcileCampaign user chainId campaign with
      | Ok entry => collectResults user chainId rest (results ++ [entry])
      | Err _ => collectResults user chainId rest results
      end
  end.
End Aggregation.

(** The comparator passed to [sort]. *)
Definition compareClaimable (a b : ClaimableCampaign.t) : number :=
  if negb (Bool.eqb (ClaimableCampaign.canClaim a) (ClaimableCampaign.canClaim b))
  then if ClaimableCampaign.canClaim a then numberOfZ (-1) else numberOfZ 1
  else numSub (parseFloat (ClaimableCampaign.remaining b))
              (parseFloat (ClaimableCampaign.remaining a)).

(** [Array.prototype.sort(comparefn)]: the sort is stable, and two elements
    are exchanged only when [comparefn] is positive on them ([NaN] counts
    as zero).  It is modelled by the stable insertion sort. *)
Section ArraySort.
Variable A : Type.
Variable comparefn : A -> A -> number.

Definition sortsAfter (x y : A) : bool :=
  numLt (S754_zero false) (comparefn x y).

Fixpoint sortInsert (x : A) (sorted : list A) : list A :=
  match sorted with
  | [] => [x]
  | y :: rest =>
      if sortsAfter x y then y :: sortInsert x rest else x :: y :: rest
  end.

Definition arraySort (l : list A) : list A := fold_right sortInsert [] l.
End ArraySort.
Arguments sortsAfter {A} comparefn x y.
Arguments sortInsert {A} comparefn x sorted.
Arguments arraySort {A} comparefn l.

Definition getUserClaimableCampaigns (remote : Remote)
  (user : jsstring) (chainId : Z) (campaigns : list Campaign.t)
  : result (list ClaimableCampaign.t) :=
  rethrowAs SmartRewardsError
    (let results := collectResults remote user chainId campaigns [] in
     Ok (arraySort compareClaimable results)).

(** The elements of the campaigns that reconcile, in the order of the
    campaigns. *)
Definition reconciled (remote : Remote) (user : jsstring) (chainId : Z)
  (campaigns : list Campaign.t) : list ClaimableCampaign.t :=
  flat_map (fun campaign =>
              match reconcileCampaign remote user chainId campaign with
              | Ok entry => [entry]
              | Err _ => []
              end) campaigns.

(** [entry] may stand just before [next] in the sorted result: a claimable
    one is never behind one that is not, and between two of the same kind
    the difference of the parsed remaining amounts, next minus previous,
    is not positive. *)
Definition inSortOrder (entry next : ClaimableCampaign.t) : Prop :=
  (ClaimableCampaign.canClaim next = true -> ClaimableCampaign.canClaim entry = true) /\
  (ClaimableCampaign.canClaim entry = ClaimableCampaign.canClaim next ->
   numLt (S754_zero false)
         (numSub (parseFloat (ClaimableCampaign.remaining next))
                 (parseFloat (ClaimableCampaign.remaining entry))) = false).

(** The order of the claim as written: strictly decreasing remaining
    amounts between two claimable elements. *)
Definition strictlyDescending (entry next : ClaimableCampaign.t) : Prop :=
  ClaimableCampaign.canClaim entry = true ->
  ClaimableCampaign.canClaim next = true ->
  numLt (parseFloat (ClaimableCampaign.remaining next))
        (parseFloat (ClaimableCampaign.remaining entry)) = true.

(** A sample directory of two campaigns with precision 0 and one eligibility
    record of amount 5 for each; campaign 3 is not in the directory. *)
Definition sampleUser : jsstring := "0x00000000000000000000000000000000000000aa".

Definition samplePool : jsstring := "0x00000000000000000000000000000000000000bb".

Definition sampleCampaign (campaignId : Z) : Campaign.t :=
  Campaign.mk "campaign" 146 (Token.mk "0xtoken" "Token" "TKN" 0)
              campaignId samplePool.

Definition sampleRemote : Remote :=
  {| fetchCampaignsByChainId := fun _ => Ok [sampleCampaign 1; sampleCampaign 2];
     allClaimProofs := fun _ _ campaignId => Ok [sampleProof campaignId "5"];
     allHistoricalClaims := fun _ _ _ => Ok [] |}.

(** ** Further functions of the cited files *)

(** An amount that [validateAmountsForOnChain] lets pass, as a test. *)
Definition onChainSafeb (amount : jsstring) : bool :=
  match BigInt amount with
  | Ok v => (0 <=? v) && (v <=? MAX_UINT256)
  | Err _ => false
  end.

(** The sign, as [compareBaseUnits] returns it, of a comparison. *)
Definition signOf (c : comparison) : Z :=
  match c with Lt => -1 | Eq => 0 | Gt => 1 end.

(** [validateHistoricalClaims] of [RewardCalculator]; [refusesClaim] is
    [true] when one of the three [if]s throws on the record. *)
Definition refusesClaim (expectedUser : jsstring) (claim : ClaimReward.t) : bool :=
  negb (str_eqb (toLowerCase (ClaimReward.user claim)) (toLowerCase expectedUser))
  || (isEmpty (ClaimReward.amount claim)
      || numLe (parseFloat (ClaimReward.amount claim)) (S754_zero false))
  || (isEmpty (ClaimReward.campaign claim)
      || isNaN (Number (ClaimReward.campaign claim))).

Fixpoint validateHistoricalClaims (claims : list ClaimReward.t)
  (expectedUser : jsstring) : result unit :=
  match claims with
  | [] => Ok tt
  | claim :: rest =>
      if negb (str_eqb (toLowerCase (ClaimReward.user claim))
                       (toLowerCase expectedUser))
      then Err SmartRewardsError
      else if isEmpty (ClaimReward.amount claim)
              || numLe (parseFloat (ClaimReward.amount claim)) (S754_zero false)
      then Err SmartRewardsError
      else if isEmpty (ClaimReward.campaign claim)
              || isNaN (Number (ClaimReward.campaign claim))
      then Err SmartRewardsError
      else validateHistoricalClaims rest expectedUser
  end.

(** [validateProofForClaim] of [OnChainClaimClient] *)
Definition validateProofForClaim (proof : ClaimProof.t) (expectedUser : jsstring)
  : result unit :=
  if negb (str_eqb (toLowerCase (ClaimProof.user proof)) (toLowerCase expectedUser))
  then Err ClaimError
  else if isEmpty (ClaimProof.proof proof)
  then Err ClaimError
  else if isEmpty (ClaimProof.amount proof)
          || numLe (parseFloat (ClaimProof.amount proof)) (S754_zero false)
  then Err ClaimError
  else if ClaimProof.campaignId proof <=? 0
  then Err ClaimError
  else Ok tt.

(** [SmartRewarderConfig]: the contract address of each configured chain;
    a chain that is not a key of the object is [None]. *)
Definition SmartRewarderConfig := Z -> option jsstring.

(** [getContractAddress] of [OnChainClaimClient]: [!address] holds for a
    missing key and for the empty string. *)
Definition getContractAddress (smartRewarderConfig : SmartRewarderConfig)
  (chainId : Z) : result jsstring :=
  match smartRewarderConfig chainId with
  | None => Err SmartRewardsError
  | Some address => if isEmpty address then Err SmartRewardsError else Ok address
  end.

(** [updateConfig]: [{ ...this.smartRewarderConfig, ...config }] *)
Definition updateConfig (smartRewarderConfig config : SmartRewarderConfig)
  : SmartRewarderConfig :=
  fun chainId =>
    match config chainId with
    | Some address => Some address
    | None => smartRewarderConfig chainId
    end.

(** [executeClaim] of [SmartRewardsClient]: the single or the batch path
    of the on-chain client, by the number of proofs; [configured] tells
    whether the on-chain client is set up. *)
Section ClaimDispatch.
Variable World : Type.
Variable Receipt : Type.
Variable executeClaim :
  Z -> SmartRewarderClaimArgs -> World -> result Receipt * World.

Definition clientExecuteClaim (configured : bool) (chainId : Z)
  (records : list ClaimProof.t) (w : World) : result Receipt * World :=
  if negb configured then (Err SmartRewardsError, w)
  else
    match records with
    | [] => (Err SmartRewardsError, w)
    | [proof] => claimSingle World Receipt executeClaim chainId proof w
    | _ => claimBatch World Receipt executeClaim chainId records w
    end.
End ClaimDispatch.


(** [canUserClaim] of [SmartRewardsClient].  It reads the campaign
    directory twice, within [calculateRewards] and again for the symbol of
    the reward token: [remote] answers the reads of [calculateRewards] and
    [later] the second read of the directory, which may fail or differ. *)
Record ClaimStatus : Type := {
  st_canClaim : bool;
  st_remaining : jsstring;
  st_totalEligible : jsstring;
  st_totalClaimed : jsstring;
  st_rewardTokenSymbol : jsstring
}.

Definition canUserClaim (remote later : Remote)
  (user : jsstring) (chainId campaignId : Z) : result ClaimStatus :=
  rewards <- calculateRewards remote user chainId campaignId ;;
  let calculations := rw_calculations rewards in
  let rewardTokenDecimals := rw_rewardTokenDecimals rewards in
  campaign <- getCampaignById later chainId campaignId ;;
  let rewardTokenSymbol :=
    match campaign with
    | Some c => orElse (Token.symbol (Campaign.rewardToken c)) "Unknown"
    | None => "Unknown" : jsstring
    end in
  formatted <- formatCalculations calculations rewardTokenDecimals ;;
  Ok {| st_canClaim := canClaim calculations;
        st_remaining := remaining formatted;
        st_totalEligible := totalEligible formatted;
        st_totalClaimed := totalClaimed formatted;
        st_rewardTokenSymbol := rewardTokenSymbol |}.

(** The requests of a run of the pagination loop, from the [n]-th on and
    starting with [cursor], are answered by [pages], and the request after
    them fails. *)
Fixpoint servesThenFails {A}
  (fetchPage : nat -> option jsstring -> result (Connection A))
  (n : nat) (cursor : option jsstring) (pages : list (Connection A)) : Prop :=
  match pages with
  | [] => exists e, fetchPage n cursor = Err e
  | page :: rest =>
      fetchPage n cursor = Ok page /\
      servesThenFails fetchPage (S n) (endCursor (pageInfo page)) rest
  end.

(** A service that always announces a next page, and one that fails at
    its second request. *)
Definition endlessProofPages (_ : nat) (_ : ClaimProofQueryVariables)
  : result (option (Connection ClaimProof.t)) :=
  Ok (Some (pageOf (sampleProof 1 "10") true (Some ("c1" : jsstring)))).

Definition endlessClaimPages (_ : nat) (_ : ClaimRewardQueryVariables)
  : result (option (Connection ClaimReward.t)) :=
  Ok (Some (pageOf (sampleClaim "1" "3") true (Some ("c1" : jsstring)))).

Definition failingProofPages (n : nat) (_ : ClaimProofQueryVariables)
  : result (option (Connection ClaimProof.t)) :=
  match n with
  | O => Ok (Some (pageOf (sampleProof 1 "10") true (Some ("c1" : jsstring))))
  | _ => Err PlainError
  end.

Definition failingClaimPages (n : nat) (_ : ClaimRewardQueryVariables)
  : result (option (Connection ClaimReward.t)) :=
  match n with
  | O => Ok (Some (pageOf (sampleClaim "1" "3") true (Some ("c1" : jsstring))))
  | _ => Ok None
  end.

Definition finiteProofPages (n : nat) (_ : ClaimProofQueryVariables)
  : result (option (Connection ClaimProof.t)) :=
  match n with
  | O => Ok (Some (pageOf (sampleProof 1 "10") true (Some ("c1" : jsstring))))
  | _ => Ok (Some (pageOf (sampleProof 1 "5") false None))
  end.

Definition finiteClaimPages (n : nat) (_ : ClaimRewardQueryVariables)
  : result (option (Connection ClaimReward.t)) :=
  match n with
  | O => Ok (Some (pageOf (sampleClaim "1" "3") true (Some ("c1" : jsstring))))
  | _ => Ok (Some (pageOf (sampleClaim "1" "4") false (Some ("c2" : jsstring))))
  end.

(** ** Campaign pagination ([PaginationManager], [CampaignClient]) *)

Record CampaignsEdge : Type := { ce_node : Campaign.t }.

(** [response.campaigns] of a [CampaignsResponse] *)
Module CampaignsResponse.
Record t : Type := mk {
  edges : list CampaignsEdge;
  pageInfo : PageInfo;
  totalCount : Z
}.
End CampaignsResponse.

Module PaginationResult.
Record t : Type := mk {
  campaigns : list Campaign.t;
  pageInfo : PageInfo;
  totalCount : Z
}.
End PaginationResult.

Module FetchCampaignsResult.
Record t : Type := mk {
  chainId : Z;
  totalCount : Z;
  pageInfo : PageInfo;
  campaigns : list Campaign.t
}.
End FetchCampaignsResult.

(** The outcome of a call that returns or throws a [CampaignAPIError]. *)
Inductive campaignResult (A : Type) : Type :=
  | Returns (a : A)
  | CampaignAPIError.
Arguments Returns {A} a.
Arguments CampaignAPIError {A}.

(** [pageCount < maxPages] and [pageCount >= maxPages]; [None] is the
    default [Infinity]. *)
Definition belowLimit (pageCount : nat) (maxPages : option nat) : bool :=
  match maxPages with
  | None => true
  | Some limit => (pageCount <? limit)%nat
  end.

Definition atLimit (pageCount : nat) (maxPages : option nat) : bool :=
  match maxPages with
  | None => false
  | Some limit => (limit <=? pageCount)%nat
  end.

Module PaginationManager.
Section Manager.
(** [client.fetchCampaignsPage(chainId, pageSize, cursor)]: the answer to
    the request that follows [n] earlier ones. *)
Variable fetchCampaignsPage :
  nat -> Z -> Z -> option jsstring -> result CampaignsResponse.t.

(** The statements after the loop of [fetchAllCampaigns]. *)
Definition finish (maxPages : option nat) (hasMore : bool) (pageCount : nat)
  (allCampaigns : list Campaign.t) (finalPageInfo : PageInfo) (totalCount : Z)
  : PaginationResult.t :=
  let finalPageInfo' :=
    if atLimit pageCount maxPages && hasMore
    then {| hasNextPage := true; endCursor := endCursor finalPageInfo |}
    else finalPageInfo in
  PaginationResult.mk allCampaigns finalPageInfo' totalCount.

(** The [while (hasNextPage && pageCount < maxPages)] loop, [hasMore]
    being the variable [hasNextPage]; [fuel] bounds the number of
    iterations and [None] means that it ran out.  The result comes with
    the number of requests made. *)
Fixpoint fetchAllCampaignsLoop (fuel : nat) (chainId pageSize : Z)
  (maxPages : option nat) (hasMore : bool) (pageCount : nat)
  (cursor : option jsstring) (allCampaigns : list Campaign.t)
  (finalPageInfo : PageInfo) (totalCount : Z)
  : option (campaignResult PaginationResult.t * nat) :=
  if hasMore && belowLimit pageCount maxPages then
    match fuel with
    | O => None
    | S fuel' =>
        let pageCount' := S pageCount in
        match fetchCampaignsPage pageCount chainId pageSize cursor with
        | Err _ => Some (CampaignAPIError, pageCount')
        | Ok response =>
            let allCampaigns' :=
              allCampaigns ++ map ce_node (CampaignsResponse.edges response) in
            let finalPageInfo' := CampaignsResponse.pageInfo response in
            let totalCount' := CampaignsResponse.totalCount response in
            let hasNextPage' := hasNextPage finalPageInfo' in
            let cursor' := endCursor finalPageInfo' in
            if noCursor cursor' && hasNextPage'
            then Some (Returns (finish maxPages hasNextPage' pageCount'
                                  allCampaigns' finalPageInfo' totalCount'),
                       pageCount')
            else fetchAllCampaignsLoop fuel' chainId pageSize maxPages
                   hasNextPage' pageCount' cursor' allCampaigns'
                   finalPageInfo' totalCount'
        end
    end
  else Some (Returns (finish maxPages hasMore pageCount
                        allCampaigns finalPageInfo totalCount),
             pageCount).

Definition fetchAllCampaigns (fuel : nat) (chainId pageSize : Z)
  (maxPages : option nat) : option (campaignResult PaginationResult.t * nat) :=
  fetchAllCampaignsLoop fuel chainId pageSize maxPages true 0 None []
    {| hasNextPage := false; endCursor := Some ("" : jsstring) |} 0.
End Manager.
End PaginationManager.

Module CampaignClient.
Section Client.
Variable fetchCampaignsPage :
  nat -> Z -> Z -> option jsstring -> result CampaignsResponse.t.

(** [fetchCampaignsByChainId] without token enrichment, the default. *)
Definition fetchCampaignsByChainId (fuel : nat) (chainId pageSize : Z)
  : option (campaignResult FetchCampaignsResult.t * nat) :=
  if (chainId =? 0) || (chainId <=? 0) then Some (CampaignAPIError, O)
  else if (pageSize <=? 0) || (pageSize >? 1000) then Some (CampaignAPIError, O)
  else
    match PaginationManager.fetchAllCampaigns fetchCampaignsPage
            fuel chainId pageSize None with
    | None => None
    | Some (CampaignAPIError, requests) => Some (CampaignAPIError, requests)
    | Some (Returns paginationResult, requests) =>
        Some (Returns
                (FetchCampaignsResult.mk chainId
                   (PaginationResult.totalCount paginationResult)
                   (PaginationResult.pageInfo paginationResult)
                   (PaginationResult.campaigns paginationResult)),
              requests)
    end.
End Client.
End CampaignClient.

(** A page of campaigns that announces a next page and gives its cursor. *)
Definition continuesCampaigns (page : CampaignsResponse.t) : bool :=
  hasNextPage (CampaignsResponse.pageInfo page)
  && negb (noCursor (endCursor (CampaignsResponse.pageInfo page))).

(** The requests for the campaigns of [chainId], from the [n]-th on and
    starting with [cursor], are answered by [pages] and then by [last]. *)
Fixpoint servesCampaigns
  (fetchCampaignsPage : nat -> Z -> Z -> option jsstring -> result CampaignsResponse.t)
  (chainId pageSize : Z) (n : nat) (cursor : option jsstring)
  (pages : list CampaignsResponse.t) (last : CampaignsResponse.t) : Prop :=
  match pages with
  | [] => fetchCampaignsPage n chainId pageSize cursor = Ok last
  | page :: rest =>
      fetchCampaignsPage n chainId pageSize cursor = Ok page /\
      servesCampaigns fetchCampaignsPage chainId pageSize (S n)
        (endCursor (CampaignsResponse.pageInfo page)) rest last
  end.

Definition campaignsOf (pages : list CampaignsResponse.t) : list Campaign.t :=
  flat_map (fun page => map ce_node (CampaignsResponse.edges page)) pages.

Definition campaignPage (campaignId : Z) (more : bool) (next : option jsstring)
  : CampaignsResponse.t :=
  CampaignsResponse.mk [{| ce_node := sampleCampaign campaignId |}]
    {| hasNextPage := more; endCursor := next |} 3.

Definition endlessCampaignPages (n : nat) (_ _ : Z) (_ : option jsstring)
  : result CampaignsResponse.t :=
  Ok (campaignPage (Z.of_nat n) true (Some ("c" : jsstring))).

Definition finiteCampaignPages (n : nat) (_ _ : Z) (_ : option jsstring)
  : result CampaignsResponse.t :=
  match n with
  | O => Ok (campaignPage 1 true (Some ("c1" : jsstring)))
  | _ => Ok (campaignPage 2 false (Some ("c2" : jsstring)))
  end.

(** The element that the sample directory gives for campaign 1. *)
Definition sampleEntry : ClaimableCampaign.t :=
  ClaimableCampaign.mk (sampleCampaign 1) true "5"
    {| totalEligible := "5"; totalClaimed := "0";
       remaining := "5"; canClaim := true |}.

(** What [calculateRewards] returns for campaign 1 of the sample directory. *)
Definition sampleRewards : Rewards :=
  {| rw_proofs := [sampleProof 1 "5"];
     rw_claims := [];
     rw_calculations :=
       {| totalEligible := "5"; totalClaimed := "0";
          remaining := "5"; canClaim := true |};
     rw_rewardTokenDecimals := 0 |}.

(** A directory of two campaigns with precision 0 whose eligibility
    records are 2^53 base units for campaign 1 and one unit more for every
    other campaign. *)
Definition largeRemote : Remote :=
  {| fetchCampaignsByChainId := fun _ => Ok [sampleCampaign 1; sampleCampaign 2];
     allClaimProofs :=
       fun _ _ campaignId =>
         Ok [sampleProof campaignId
               (if campaignId =? 1
                then "9007199254740992" : jsstring
                else "9007199254740993" : jsstring)];
     allHistoricalClaims := fun _ _ _ => Ok [] |}.

Definition largeEntry (campaignId : Z) (amount : jsstring) : ClaimableCampaign.t :=
  ClaimableCampaign.mk (sampleCampaign campaignId) true amount
    {| totalEligible := amount; totalClaimed := "0";
       remaining := amount; canClaim := true |}.

(** A directory that has become unreachable, and one that no longer lists
    any campaign. *)
Definition unreachableRemote : Remote :=
  {| fetchCampaignsByChainId := fun _ => Err PlainError;
     allClaimProofs := fun _ _ _ => Err PlainError;
     allHistoricalClaims := fun _ _ _ => Err PlainError |}.

Definition emptiedRemote : Remote :=
  {| fetchCampaignsByChainId := fun _ => Ok [];
     allClaimProofs := fun _ _ _ => Ok [];
     allHistoricalClaims := fun _ _ _ => Ok [] |}.
(** * Properties *)

Example toString_ex : toString 1203 = "1203" /\ toString 0 = "0" /\ toString (-45) = "-45".
Proof. repeat split. Qed.

Example BigInt_ex :
  BigInt "0x1F" = Ok 31 /\ BigInt " 12 " = Ok 12 /\ BigInt "" = Ok 0 /\
  BigInt "-7" = Ok (-7) /\ BigInt "1.5" = Err SyntaxError /\
  BigInt "-0x1" = Err SyntaxError /\ BigInt "+" = Err SyntaxError.
Proof. repeat split. Qed.

Example MAX_UINT256_ex : BigInt MAX_UINT256_literal = Ok MAX_UINT256.
Proof. reflexivity. Qed.

(** Values that JavaScript gives: 0.1 is 0x1.999999999999ap-4, the
    smallest number is 5e-324, and 2^53 + 1 rounds to 2^53. *)
Example parseFloat_ex :
  parseFloat "0.1" = S754_finite false 7205759403792794 (-56) /\
  parseFloat "5e-324" = S754_finite false 1 (-1074) /\
  parseFloat "1e-400" = S754_zero false /\
  parseFloat "1.7976931348623159e308" = S754_infinity false /\
  parseFloat "9007199254740993" = numberOfZ 9007199254740992 /\
  parseFloat "  -12.5abc" = S754_finite true 7036874417766400 (-49) /\
  parseFloat ".5" = S754_finite false 4503599627370496 (-53) /\
  parseFloat "abc" = NaN /\ parseFloat "" = NaN /\ parseFloat "." = NaN /\
  parseFloat "-0" = S754_zero true.
Proof. repeat split. Qed.

Example Number_ex :
  Number "0x10" = numberOfZ 16 /\ Number " 12 " = numberOfZ 12 /\
  Number "1.0" = numberOfZ 1 /\ Number "1e2" = numberOfZ 100 /\
  Number "" = S754_zero false /\ Number "12abc" = NaN /\
  Number "1.5.7" = NaN /\ Number "-Infinity" = S754_infinity true.
Proof. repeat split. Qed.

(** The examples of the documentation of [toBaseUnits] and
    [fromBaseUnits], and truncation without rounding. *)
Example toBaseUnits_ex :
  toBaseUnits "12.345" 18 = Ok ("12345000000000000000" : jsstring) /\
  fromBaseUnits "12345000000000000000" 18 = Ok ("12.345" : jsstring) /\
  toBaseUnits "1.23456789" 4 = toBaseUnits "1.2345" 4 /\
  toBaseUnits "1.2345" 4 = Ok ("12345" : jsstring) /\
  fromBaseUnits "5" 6 = Ok ("0.000005" : jsstring) /\
  fromBaseUnits "0" 6 = Ok ("0" : jsstring).
Proof. repeat split. Qed.

(** ** Characters and white space *)

Lemma digitChar_digitVal c : isDigit c = true -> digitChar (digitVal c) = c.
Proof.
  unfold isDigit, digitChar, digitVal, code. intros H.
  apply andb_true_iff in H. destruct H as [H1 H2].
  apply Z.leb_le in H1. apply Z.leb_le in H2.
  replace (Z.of_N (N_of_ascii c) - 48 + 48) with (Z.of_N (N_of_ascii c)) by lia.
  rewrite N2Z.id. apply ascii_N_embedding.
Qed.

Lemma digitVal_digitChar d : 0 <= d < 10 -> digitVal (digitChar d) = d.
Proof.
  intros H. assert (d = 0 \/ d = 1 \/ d = 2 \/ d = 3 \/ d = 4 \/ d = 5 \/
                    d = 6 \/ d = 7 \/ d = 8 \/ d = 9) as C by lia.
  repeat (destruct C as [-> | C]; [reflexivity |]). subst. reflexivity.
Qed.

Lemma isDigit_digitChar d : 0 <= d < 10 -> isDigit (digitChar d) = true.
Proof.
  intros H. assert (d = 0 \/ d = 1 \/ d = 2 \/ d = 3 \/ d = 4 \/ d = 5 \/
                    d = 6 \/ d = 7 \/ d = 8 \/ d = 9) as C by lia.
  repeat (destruct C as [-> | C]; [reflexivity |]). subst. reflexivity.
Qed.

Lemma isDigit_range c : isDigit c = true <-> 48 <= code c <= 57.
Proof.
  unfold isDigit. rewrite andb_true_iff, !Z.leb_le. tauto.
Qed.

Lemma digit_not_space c : isDigit c = true -> isWhiteSpace c = false.
Proof.
  rewrite isDigit_range. unfold isWhiteSpace. intros H.
  replace (code c <=? 13) with false by (symmetry; apply Z.leb_gt; lia).
  replace (code c =? 32) with false by (symmetry; apply Z.eqb_neq; lia).
  replace (code c =? 160) with false by (symmetry; apply Z.eqb_neq; lia).
  now rewrite andb_false_r.
Qed.

Lemma trimEnd_snoc s c : isWhiteSpace c = false -> trimEnd (s ++ [c]) = s ++ [c].
Proof.
  intros H. unfold trimEnd. rewrite rev_app_distr. simpl. rewrite H.
  simpl. now rewrite rev_involutive.
Qed.

Lemma trim_id s :
  (forall c, hd_error s = Some c -> isWhiteSpace c = false) ->
  (forall c, hd_error (rev s) = Some c -> isWhiteSpace c = false) ->
  trim s = s.
Proof.
  intros Hh Hl. unfold trim. destruct s as [| c s]; [reflexivity |].
  simpl. rewrite (Hh c eq_refl).
  destruct (rev (c :: s)) as [| z r] eqn:E.
  - apply (f_equal (@List.length _)) in E. rewrite length_rev in E. discriminate.
  - apply (f_equal (@rev _)) in E. rewrite rev_involutive in E. simpl in E.
    rewrite E. apply trimEnd_snoc. apply Hl. reflexivity.
Qed.

(** ** Decimal digits and [BigInt] *)

Lemma radixDigit_digit c : isDigit c = true -> radixDigit 10 c = Some (digitVal c).
Proof.
  intros H. unfold radixDigit. fold (isDigit c). rewrite H.
  apply isDigit_range in H. unfold digitVal.
  destruct (Z.ltb_spec (code c - 48) 10); [reflexivity | lia].
Qed.

Lemma parseRadixAcc_digits s acc :
  forallb isDigit s = true ->
  parseRadixAcc 10 acc s = Some (fold_left (fun a c => a * 10 + digitVal c) s acc).
Proof.
  revert acc. induction s as [| c s IH]; intros acc H; [reflexivity |].
  simpl in H. apply andb_true_iff in H. destruct H as [Hc Hs].
  simpl. rewrite (radixDigit_digit c Hc). now apply IH.
Qed.

Lemma fold_digits_ge s acc :
  forallb isDigit s = true -> 0 <= acc ->
  acc <= fold_left (fun a c => a * 10 + digitVal c) s acc.
Proof.
  revert acc. induction s as [| c s IH]; intros acc H Ha; simpl; [lia |].
  simpl in H. apply andb_true_iff in H. destruct H as [Hc Hs].
  apply isDigit_range in Hc.
  assert (0 <= digitVal c) as Hd by (unfold digitVal; lia).
  specialize (IH (acc * 10 + digitVal c) Hs). lia.
Qed.

Lemma decValue_nonneg s : forallb isDigit s = true -> 0 <= decValue s.
Proof. intros H. unfold decValue. apply (fold_digits_ge s 0 H). lia. Qed.

Lemma decValue_snoc s c : decValue (s ++ [c]) = decValue s * 10 + digitVal c.
Proof. unfold decValue. now rewrite fold_left_app. Qed.

Lemma allDigits_forallb s : allDigits s = true -> forallb isDigit s = true.
Proof. destruct s; [discriminate | auto]. Qed.

Lemma allDigits_iff s : allDigits s = true <-> s <> [] /\ forallb isDigit s = true.
Proof.
  destruct s as [| c s]; simpl.
  - split; [discriminate | intros [H _]; congruence].
  - split; [intros H; split; [discriminate | exact H] | intros [_ H]; exact H].
Qed.

Lemma forallb_last {A} (f : A -> bool) s c :
  forallb f s = true -> hd_error (rev s) = Some c -> f c = true.
Proof.
  intros H E. rewrite forallb_forall in H. apply H. apply in_rev.
  destruct (rev s); inversion E. now left.
Qed.

Lemma trim_digits s : forallb isDigit s = true -> trim s = s.
Proof.
  intros H. apply trim_id; intros c E; apply digit_not_space.
  - destruct s; inversion E; subst. simpl in H. now apply andb_true_iff in H.
  - eapply forallb_last; eauto.
Qed.

Lemma radixOfPrefix_digit p : isDigit p = true -> radixOfPrefix p = None.
Proof.
  intros H. destruct p as [[] [] [] [] [] [] [] []]; try reflexivity;
    vm_compute in H; discriminate H.
Qed.

Lemma hasRadixPrefix_digits s : forallb isDigit s = true -> hasRadixPrefix s = false.
Proof.
  intros H. destruct s as [| c [| p s]]; try reflexivity;
    try (destruct c as [[] [] [] [] [] [] [] []]; reflexivity).
  simpl in H. apply andb_true_iff in H. destruct H as [_ H].
  apply andb_true_iff in H. destruct H as [Hp _].
  unfold hasRadixPrefix. rewrite (radixOfPrefix_digit p Hp).
  destruct c as [[] [] [] [] [] [] [] []]; reflexivity.
Qed.

Lemma parseIntegerLiteral_digits s :
  allDigits s = true -> parseIntegerLiteral s = Some (decValue s).
Proof.
  intros H. apply allDigits_iff in H. destruct H as [Hne H].
  assert (parseRadix 10 s = Some (decValue s)) as P.
  { destruct s; [congruence |]. unfold parseRadix. now apply parseRadixAcc_digits. }
  unfold parseIntegerLiteral. rewrite (hasRadixPrefix_digits s H).
  destruct s as [| c s]; [congruence |].
  simpl in H. apply andb_true_iff in H. destruct H as [Hc Hs].
  destruct c as [[] [] [] [] [] [] [] []]; try exact P;
    vm_compute in Hc; discriminate Hc.
Qed.

Lemma BigInt_digits s : allDigits s = true -> BigInt s = Ok (decValue s).
Proof.
  intros H. unfold BigInt. rewrite (trim_digits s (allDigits_forallb s H)).
  pose proof (parseIntegerLiteral_digits s H) as P.
  destruct s; [discriminate |]. now rewrite P.
Qed.

(** ** [toString] *)

Lemma digitsOf_acc fuel n acc : digitsOf fuel n acc = digitsOf fuel n [] ++ acc.
Proof.
  revert n acc. induction fuel as [| f IH]; intros n acc; simpl; [reflexivity |].
  destruct (n <? 10); [reflexivity |].
  rewrite (IH _ (_ :: acc)), (IH _ [_]). now rewrite <- app_assoc.
Qed.

Lemma digitsOf_fuel f1 f2 n acc :
  0 <= n < 10 ^ (Z.of_nat f1 + 1) -> n < 10 ^ (Z.of_nat f2 + 1) ->
  digitsOf f1 n acc = digitsOf f2 n acc.
Proof.
  revert f2 n acc. induction f1 as [| f1 IH]; intros f2 n acc H1 H2.
  - simpl in H1. change (10 ^ 1) with 10 in H1.
    destruct f2; simpl; [reflexivity |].
    destruct (Z.ltb_spec n 10); [| lia]. now rewrite Z.mod_small by lia.
  - simpl digitsOf at 1. destruct (Z.ltb_spec n 10) as [L | L].
    + destruct f2; simpl.
      * now rewrite Z.mod_small by lia.
      * destruct (Z.ltb_spec n 10); [reflexivity | lia].
    + destruct f2 as [| f2].
      * simpl in H2. change (10 ^ 1) with 10 in H2. lia.
      * simpl digitsOf at 2. destruct (Z.ltb_spec n 10); [lia |].
        apply IH.
        -- split; [apply Z.div_pos; lia |].
           apply Z.div_lt_upper_bound; [lia |].
           rewrite <- Z.pow_succ_r by lia.
           replace (Z.succ (Z.of_nat f1 + 1)) with (Z.of_nat (S f1) + 1) by lia.
           lia.
        -- apply Z.div_lt_upper_bound; [lia |].
           rewrite <- Z.pow_succ_r by lia.
           replace (Z.succ (Z.of_nat f2 + 1)) with (Z.of_nat (S f2) + 1) by lia.
           lia.
Qed.

Lemma log2_fuel n : 0 <= n -> n < 10 ^ (Z.of_nat (Z.to_nat (Z.log2 n)) + 1).
Proof.
  intros H. rewrite Z2Nat.id by apply Z.log2_nonneg.
  destruct (Z.eq_dec n 0) as [-> | N]; [reflexivity |].
  pose proof (Z.log2_spec n ltac:(lia)) as [_ U].
  eapply Z.lt_le_trans; [exact U |].
  rewrite <- Z.add_1_r.
  apply Z.pow_le_mono_l. pose proof (Z.log2_nonneg n). lia.
Qed.

Lemma digitsOf_value f n :
  0 <= n < 10 ^ (Z.of_nat f + 1) ->
  forallb isDigit (digitsOf f n []) = true /\ decValue (digitsOf f n []) = n /\
  digitsOf f n [] <> [].
Proof.
  revert n. induction f as [| f IH]; intros n H.
  - simpl in *. change (10 ^ 1) with 10 in H. rewrite Z.mod_small by lia.
    rewrite isDigit_digitChar by lia. unfold decValue. simpl.
    rewrite digitVal_digitChar by lia. repeat split; discriminate.
  - simpl. destruct (Z.ltb_spec n 10) as [L | L].
    + simpl. rewrite isDigit_digitChar by lia. unfold decValue. simpl.
      rewrite digitVal_digitChar by lia. repeat split; discriminate.
    + rewrite digitsOf_acc.
      assert (0 <= n / 10 < 10 ^ (Z.of_nat f + 1)) as B.
      { split; [apply Z.div_pos; lia |].
        apply Z.div_lt_upper_bound; [lia |].
        rewrite <- Z.pow_succ_r by lia.
        replace (Z.succ (Z.of_nat f + 1)) with (Z.of_nat (S f) + 1) by lia. lia. }
      destruct (IH _ B) as (D & V & NE).
      pose proof (Z.mod_pos_bound n 10 ltac:(lia)) as M.
      rewrite forallb_app, D. simpl. rewrite isDigit_digitChar by lia.
      rewrite decValue_snoc, V, digitVal_digitChar by lia.
      repeat split.
      * pose proof (Z.div_mod n 10 ltac:(lia)). lia.
      * intros E. apply app_eq_nil in E. destruct E. discriminate.
Qed.

Lemma toString_nonneg n :
  0 <= n -> allDigits (toString n) = true /\ decValue (toString n) = n.
Proof.
  intros H. unfold toString. destruct (Z.ltb_spec n 0); [lia |].
  destruct (digitsOf_value (Z.to_nat (Z.log2 n)) n) as (D & V & NE).
  { split; [lia | now apply log2_fuel]. }
  split; [| exact V]. apply allDigits_iff. now split.
Qed.

Lemma BigInt_toString n : 0 <= n -> BigInt (toString n) = Ok n.
Proof.
  intros H. destruct (toString_nonneg n H) as [D V].
  now rewrite (BigInt_digits _ D), V.
Qed.

Lemma code_zero c : code c = 48 -> c = "0"%char.
Proof.
  unfold code. intros H. rewrite <- (ascii_N_embedding c).
  replace (N_of_ascii c) with 48%N by lia. reflexivity.
Qed.

Lemma nonzero_digit c :
  isDigit c = true -> Ascii.eqb c "0" = false -> 1 <= digitVal c.
Proof.
  intros D N. apply isDigit_range in D. unfold digitVal.
  destruct (Z.eq_dec (code c) 48) as [E | E]; [| lia].
  apply code_zero in E. subst. discriminate.
Qed.

Lemma digits_small d :
  0 <= d < 10 -> digitsOf (Z.to_nat (Z.log2 d)) d [] = [digitChar d].
Proof.
  intros H. rewrite (digitsOf_fuel _ 0 d []).
  - simpl. now rewrite Z.mod_small.
  - split; [lia | apply log2_fuel; lia].
  - simpl. change (10 ^ 1) with 10. lia.
Qed.

Lemma digits_step v d :
  1 <= v -> 0 <= d < 10 ->
  digitsOf (Z.to_nat (Z.log2 (v * 10 + d))) (v * 10 + d) [] =
  digitsOf (Z.to_nat (Z.log2 v)) v [] ++ [digitChar d].
Proof.
  intros Hv Hd.
  pose proof (log2_fuel v ltac:(lia)) as F.
  rewrite (digitsOf_fuel _ (S (Z.to_nat (Z.log2 v))) (v * 10 + d) []).
  - simpl digitsOf. destruct (Z.ltb_spec (v * 10 + d) 10); [lia |].
    replace ((v * 10 + d) / 10) with v
      by (apply Z.div_unique with d; lia).
    replace ((v * 10 + d) mod 10) with d
      by (apply Z.mod_unique with v; lia).
    apply digitsOf_acc.
  - split; [lia | apply log2_fuel; lia].
  - replace (Z.of_nat (S (Z.to_nat (Z.log2 v))) + 1)
      with (Z.succ (Z.of_nat (Z.to_nat (Z.log2 v)) + 1)) by lia.
    rewrite Z.pow_succ_r by lia. lia.
Qed.

Lemma toString_decValue s : isBaseUnit s = true -> toString (decValue s) = s.
Proof.
  unfold isBaseUnit. rewrite andb_true_iff, allDigits_iff.
  intros [[NE D] L].
  pose proof (decValue_nonneg s D) as P.
  unfold toString. destruct (Z.ltb_spec (decValue s) 0); [lia |]. clear P H.
  induction s as [| c s' IH] using rev_ind; [congruence |].
  rewrite forallb_app in D. apply andb_true_iff in D. destruct D as [D' Dc].
  simpl in Dc. rewrite andb_true_r in Dc.
  pose proof (proj1 (isDigit_range c) Dc) as Rc.
  rewrite decValue_snoc.
  destruct s' as [| h t].
  - unfold decValue. simpl. rewrite digits_small by (unfold digitVal; lia).
    now rewrite digitChar_digitVal.
  - assert (Ascii.eqb h "0" = false) as Hh.
    { simpl in L. destruct (t ++ [c]) eqn:E.
      - apply app_eq_nil in E. destruct E. discriminate.
      - now apply negb_true_iff. }
    assert (1 <= decValue (h :: t)) as V.
    { simpl in D'. apply andb_true_iff in D'. destruct D' as [Dh Dt].
      pose proof (nonzero_digit h Dh Hh). unfold decValue. simpl.
      pose proof (fold_digits_ge t (digitVal h) Dt ltac:(lia)). lia. }
    rewrite digits_step by (unfold digitVal; lia).
    rewrite IH; [now rewrite digitChar_digitVal | discriminate | exact D' |].
    destruct t; [reflexivity | now rewrite Hh].
Qed.

(** ** Base-unit arithmetic *)

Lemma addBaseUnits_digits a b :
  allDigits a = true -> allDigits b = true ->
  addBaseUnits a b = Ok (toString (decValue a + decValue b)).
Proof.
  intros Ha Hb. unfold addBaseUnits.
  now rewrite (BigInt_digits a Ha), (BigInt_digits b Hb).
Qed.

Lemma subtractBaseUnits_digits a b :
  allDigits a = true -> allDigits b = true ->
  subtractBaseUnits a b =
  Ok (if decValue a - decValue b <? 0 then ("0" : jsstring)
      else toString (decValue a - decValue b)).
Proof.
  intros Ha Hb. unfold subtractBaseUnits.
  now rewrite (BigInt_digits a Ha), (BigInt_digits b Hb).
Qed.

Lemma subtractBaseUnits_floor a b va vb :
  BigInt a = Ok va -> BigInt b = Ok vb -> va < vb ->
  subtractBaseUnits a b = Ok ("0" : jsstring).
Proof.
  intros Ha Hb L. unfold subtractBaseUnits. rewrite Ha, Hb. simpl.
  destruct (Z.ltb_spec (va - vb) 0); [reflexivity | lia].
Qed.

Lemma subtractBaseUnits_never_negative a b r :
  subtractBaseUnits a b = Ok r -> allDigits r = true.
Proof.
  unfold subtractBaseUnits.
  destruct (BigInt a) as [va |]; [| discriminate].
  destruct (BigInt b) as [vb |]; [| discriminate]. simpl.
  destruct (Z.ltb_spec (va - vb) 0); intros E; inversion E; subst.
  - reflexivity.
  - now apply toString_nonneg.
Qed.

Lemma isBaseUnit_allDigits s : isBaseUnit s = true -> allDigits s = true.
Proof. unfold isBaseUnit. now intros H%andb_true_iff. Qed.

(** C7: for base-unit strings [a] and [b] (digits only, no superfluous
    leading zero), subtracting [b] from the sum of [a] and [b] gives back
    [a]; when the value of [b] exceeds that of [a] the difference is the
    string "0"; and the difference is always a string of digits, never a
    negative numeral. *)
Theorem subtract_add_inverse (a b : jsstring) :
  isBaseUnit a = true -> isBaseUnit b = true ->
  (sum <- addBaseUnits a b ;; subtractBaseUnits sum b) = Ok a /\
  (decValue a < decValue b -> subtractBaseUnits a b = Ok ("0" : jsstring)) /\
  (exists r, subtractBaseUnits a b = Ok r /\ allDigits r = true).
Proof.
  intros Ha Hb.
  pose proof (isBaseUnit_allDigits a Ha) as Da.
  pose proof (isBaseUnit_allDigits b Hb) as Db.
  pose proof (decValue_nonneg a (allDigits_forallb a Da)) as Pa.
  pose proof (decValue_nonneg b (allDigits_forallb b Db)) as Pb.
  repeat split.
  - rewrite (addBaseUnits_digits a b Da Db). simpl.
    destruct (toString_nonneg (decValue a + decValue b) ltac:(lia)) as [Ds Vs].
    rewrite (subtractBaseUnits_digits _ b Ds Db), Vs.
    destruct (Z.ltb_spec (decValue a + decValue b - decValue b) 0); [lia |].
    replace (decValue a + decValue b - decValue b) with (decValue a) by lia.
    now rewrite toString_decValue.
  - intros L. eapply subtractBaseUnits_floor; eauto using BigInt_digits.
  - rewrite (subtractBaseUnits_digits a b Da Db). eexists. split; [reflexivity |].
    destruct (Z.ltb_spec (decValue a - decValue b) 0); [reflexivity |].
    now apply toString_nonneg.
Qed.

Lemma subtract_add_inverse_witness :
  (sum <- addBaseUnits "1200" "345" ;; subtractBaseUnits sum "345")
  = Ok ("1200" : jsstring) /\
  (decValue "1200" < decValue "345" ->
   subtractBaseUnits "1200" "345" = Ok ("0" : jsstring)) /\
  (exists r, subtractBaseUnits "1200" "345" = Ok r /\ allDigits r = true).
Proof.
  apply (subtract_add_inverse "1200" "345"); reflexivity.
Defined.

(** ** On-chain bound *)

Lemma validateAmountsLoop_true amounts :
  validateAmountsLoop amounts = Ok true <-> Forall onChainSafe amounts.
Proof.
  induction amounts as [| a rest IH]; simpl.
  - split; [constructor | reflexivity].
  - split.
    + destruct (BigInt a) as [v |] eqn:E; [| discriminate]. simpl.
      destruct (Z.ltb_spec v 0); simpl; [discriminate |].
      destruct (Z.gtb_spec v MAX_UINT256); simpl; [discriminate |].
      intros T. constructor; [| now apply IH].
      exists v. split; [exact E | lia].
    + intros F. inversion F as [| ? ? (v & E & R) T]; subst.
      rewrite E. simpl.
      destruct (Z.ltb_spec v 0); [lia |].
      destruct (Z.gtb_spec v MAX_UINT256); [lia |]. simpl. now apply IH.
Qed.

(** C6: [validateAmountsForOnChain] answers [true] exactly when every
    amount parses (as [BigInt] parses it) to an integer between 0 and
    2^256 - 1; a single amount that does not, or that does not parse at
    all, makes the answer [false]; ["-1"] and the numeral of 2^256 are
    refused and ["0"] is accepted. *)
Theorem validateAmountsForOnChain_spec :
  (forall amounts,
      validateAmountsForOnChain amounts = true <-> Forall onChainSafe amounts) /\
  (forall amounts a,
      In a amounts -> ~ onChainSafe a -> validateAmountsForOnChain amounts = false) /\
  validateAmountsForOnChain ["-1" : jsstring] = false /\
  toString (2 ^ 256) = two_pow_256_literal /\
  validateAmountsForOnChain [two_pow_256_literal] = false /\
  validateAmountsForOnChain ["0" : jsstring] = true.
Proof.
  assert (forall amounts,
             validateAmountsForOnChain amounts = true <-> Forall onChainSafe amounts) as M.
  { intros amounts. rewrite <- validateAmountsLoop_true.
    unfold validateAmountsForOnChain.
    destruct (validateAmountsLoop amounts) as [b |]; split; congruence. }
  split; [exact M |]. split; [| repeat split; vm_compute; reflexivity].
  intros amounts a I N.
  destruct (validateAmountsForOnChain amounts) eqn:E; [| reflexivity].
  apply M in E. rewrite Forall_forall in E. elim N. now apply E.
Qed.

Lemma validateAmountsForOnChain_spec_witness :
  validateAmountsForOnChain ["0" : jsstring; "0x10" : jsstring; " 7 " : jsstring] = true /\
  validateAmountsForOnChain ["5" : jsstring; "1.5" : jsstring] = false.
Proof.
  split.
  - apply (proj1 validateAmountsForOnChain_spec).
    repeat constructor; eexists; (split; [reflexivity | vm_compute; split; discriminate]).
  - apply (proj1 (proj2 validateAmountsForOnChain_spec) _ ("1.5" : jsstring)).
    + right. left. reflexivity.
    + intros (v & E & _). discriminate E.
Defined.

(** ** Numbers: a decimal literal is never [NaN] *)

Lemma iter_pos_inv {A} (P : A -> Prop) (f : A -> A) :
  (forall x, P x -> P (f x)) -> forall p x, P x -> P (iter_pos f p x).
Proof.
  intros Hf. induction p as [p IH | p IH |]; intros x Hx; simpl; auto.
Qed.

Lemma shr_1_nonneg mrs : 0 <= shr_m mrs -> 0 <= shr_m (shr_1 mrs).
Proof.
  destruct mrs as [m r s]. simpl.
  destruct m as [| [p | p |] | [p | p |]]; simpl; lia.
Qed.

Lemma shr_fexp_nonneg m e l :
  0 <= m -> 0 <= shr_m (fst (shr_fexp prec emax m e l)).
Proof.
  intros H. unfold shr_fexp, shr.
  assert (0 <= shr_m (shr_record_of_loc m l)) as H0
      by (destruct l as [| []]; exact H).
  destruct (fexp prec emax (Zdigits2 m + e) - e); simpl; try exact H0.
  apply (iter_pos_inv (fun x => 0 <= shr_m x)); auto using shr_1_nonneg.
Qed.

Lemma round_nearest_even_nonneg m l : 0 <= m -> 0 <= round_nearest_even m l.
Proof.
  intros H. unfold round_nearest_even.
  destruct l as [| []]; try lia. destruct (Z.even m); lia.
Qed.

Lemma binary_round_aux_not_nan sx mx ex lx :
  0 <= mx -> isNaN (binary_round_aux prec emax sx mx ex lx) = false.
Proof.
  intros H. unfold binary_round_aux.
  pose proof (shr_fexp_nonneg mx ex lx H) as H1.
  destruct (shr_fexp prec emax mx ex lx) as [mrs' e']. simpl in H1.
  pose proof (shr_fexp_nonneg _ e' loc_Exact
                (round_nearest_even_nonneg _ (loc_of_shr_record mrs') H1)) as H2.
  destruct (shr_fexp prec emax _ e' loc_Exact) as [mrs'' e'']. simpl in H2.
  destruct (shr_m mrs''); try reflexivity; [| lia].
  now destruct (e'' <=? emax - prec).
Qed.

Lemma binary_normalize_not_nan m e s :
  isNaN (binary_normalize prec emax m e s) = false.
Proof.
  unfold binary_normalize, binary_round. destruct m as [| p | p]; [reflexivity | |];
    destruct (shl_align p e _) as [mz ez]; apply binary_round_aux_not_nan; lia.
Qed.

Lemma numberOfDecimal_not_nan neg m e : isNaN (numberOfDecimal neg m e) = false.
Proof.
  unfold numberOfDecimal. destruct m as [| p | p]; try reflexivity.
  destruct (0 <=? e); [apply binary_normalize_not_nan |].
  unfold SFdiv, SFdiv_core_binary.
  set (m' := match _ - _ - _ with Z0 => Z.pos p | Z.pos _ => _ | Z.neg _ => 0 end).
  assert (0 <= m') as Hm.
  { subst m'. destruct (_ - _ - _); try lia. apply Z.shiftl_nonneg. lia. }
  pose proof (Z.div_pos m' (Z.pos (Z.to_pos (10 ^ (- e)))) Hm ltac:(lia)) as Q.
  unfold Z.div in Q. destruct (Z.div_eucl m' _) as [q r]. simpl in Q.
  now apply binary_round_aux_not_nan.
Qed.

Lemma literalValue_not_nan neg lit : isNaN (literalValue neg lit) = false.
Proof. destruct lit; [reflexivity | apply numberOfDecimal_not_nan]. Qed.

Lemma parseFloat_not_nan_iff s :
  isNaN (parseFloat s) = false <-> scanDecimal (trimStart s) <> None.
Proof.
  unfold parseFloat. destruct (scanDecimal (trimStart s)) as [[[neg lit] rest] |].
  - split; [discriminate | intros _; apply literalValue_not_nan].
  - split; [discriminate | congruence].
Qed.

Lemma spanDigits_digit c s :
  isDigit c = true -> exists ds rest, spanDigits (c :: s) = (c :: ds, rest).
Proof.
  intros H. simpl. rewrite H. destruct (spanDigits s) as [ds rest]. eauto.
Qed.

Lemma scanDecimal_digit c s : isDigit c = true -> scanDecimal (c :: s) <> None.
Proof.
  intros H.
  assert (scanUnsignedDecimal (c :: s) <> None) as U.
  { unfold scanUnsignedDecimal.
    assert (stripPrefix "Infinity" (c :: s) = None) as ->.
    { destruct c as [[] [] [] [] [] [] [] []]; try reflexivity;
        vm_compute in H; discriminate H. }
    destruct (spanDigits_digit c s H) as (ds & rest & ->).
    destruct rest as [| r rest'].
    - destruct (scanExponent []); discriminate.
    - destruct r as [[] [] [] [] [] [] [] []];
        try (destruct (scanExponent _); discriminate).
      destruct (spanDigits rest'). destruct (scanExponent _). discriminate. }
  unfold scanDecimal.
  destruct c as [[] [] [] [] [] [] [] []];
    try (destruct (scanUnsignedDecimal _) as [[lit rest] |]; [discriminate | congruence]);
    vm_compute in H; discriminate H.
Qed.

Lemma parseFloat_digit c s : isDigit c = true -> isNaN (parseFloat (c :: s)) = false.
Proof.
  intros H. apply parseFloat_not_nan_iff. simpl.
  rewrite (digit_not_space c H). now apply scanDecimal_digit.
Qed.

(** ** String lemmas *)

Lemma len_app a b : len (a ++ b) = len a + len b.
Proof. unfold len. rewrite length_app. lia. Qed.

Lemma len_zeros n : 0 <= n -> len (zeros n) = n.
Proof. intros H. unfold len, zeros. rewrite repeat_length. lia. Qed.

Lemma len_nonneg s : 0 <= len s.
Proof. unfold len. lia. Qed.

Lemma isDigit_not_dot c : isDigit c = true -> Ascii.eqb c "." = false.
Proof.
  intros H. destruct (Ascii.eqb_spec c "."%char); [subst; discriminate H | reflexivity].
Qed.

Lemma splitDot_digits w : forallb isDigit w = true -> splitDot w = [w].
Proof.
  induction w as [| c w IH]; intros H; [reflexivity |].
  simpl in H. apply andb_true_iff in H. destruct H as [Hc Hw].
  simpl. now rewrite (isDigit_not_dot c Hc), (IH Hw).
Qed.

Lemma splitDot_app w s :
  forallb isDigit w = true -> splitDot (w ++ "."%char :: s) = w :: splitDot s.
Proof.
  induction w as [| c w IH]; intros H; [reflexivity |].
  simpl in H. apply andb_true_iff in H. destruct H as [Hc Hw].
  simpl. now rewrite (isDigit_not_dot c Hc), (IH Hw).
Qed.

Lemma strip_zeros_app k s :
  stripLeadingZeros (repeat "0"%char k ++ s) = stripLeadingZeros s.
Proof. induction k; simpl; auto. Qed.

Lemma strip_app_nonempty a b :
  stripLeadingZeros a <> [] -> stripLeadingZeros (a ++ b) = stripLeadingZeros a ++ b.
Proof.
  induction a as [| c a IH]; simpl; [congruence |].
  destruct (Ascii.eqb c "0"); auto.
Qed.

Lemma strip_app_empty a b :
  stripLeadingZeros a = [] -> stripLeadingZeros (a ++ b) = stripLeadingZeros b.
Proof.
  induction a as [| c a IH]; simpl; [reflexivity |].
  destruct (Ascii.eqb c "0"); [auto | discriminate].
Qed.

Lemma strip_decompose s :
  exists k, s = repeat "0"%char k ++ stripLeadingZeros s.
Proof.
  induction s as [| c s [k IH]]; [exists 0%nat; reflexivity |].
  simpl. destruct (Ascii.eqb_spec c "0"%char) as [-> | N].
  - exists (S k). simpl. now rewrite <- IH.
  - now exists 0%nat.
Qed.

Lemma strip_digits s :
  forallb isDigit s = true -> forallb isDigit (stripLeadingZeros s) = true.
Proof.
  induction s as [| c s IH]; intros H; [reflexivity |].
  simpl. destruct (Ascii.eqb c "0"); [| exact H].
  simpl in H. apply andb_true_iff in H. now apply IH.
Qed.

Lemma repeat_snoc {A} (x : A) k : repeat x k ++ [x] = x :: repeat x k.
Proof. induction k; simpl; [reflexivity | now rewrite IHk]. Qed.

Lemma rev_repeat' {A} (x : A) k : rev (repeat x k) = repeat x k.
Proof.
  induction k; simpl; [reflexivity |]. rewrite IHk. apply repeat_snoc.
Qed.

Lemma stripTrailing_zeros s k :
  stripTrailingZeros (s ++ repeat "0"%char k) = stripTrailingZeros s.
Proof.
  unfold stripTrailingZeros. now rewrite rev_app_distr, rev_repeat', strip_zeros_app.
Qed.

Lemma forallb_zeros k : forallb isDigit (repeat "0"%char k) = true.
Proof. induction k; simpl; auto. Qed.

Lemma orElse_nonempty s d : s <> [] -> orElse s d = s.
Proof. destruct s; [congruence | reflexivity]. Qed.

Lemma orElse_digits s d :
  forallb isDigit s = true -> allDigits d = true -> allDigits (orElse s d) = true.
Proof. destruct s; simpl; auto. Qed.

(** ** Round trip of the unit conversion *)

Lemma padStart_strip w F d :
  len F = d ->
  padStart0 (orElse (stripLeadingZeros (w ++ F)) "0") (d + 1) =
  orElse (stripLeadingZeros w) "0" ++ F.
Proof.
  intros L. unfold padStart0.
  destruct (stripLeadingZeros w) as [| c t] eqn:E.
  - rewrite (strip_app_empty w F E).
    destruct (strip_decompose F) as [k D].
    assert (len F = Z.of_nat k + len (stripLeadingZeros F)) as LF.
    { rewrite D at 1. rewrite len_app. unfold len at 1. now rewrite repeat_length. }
    destruct (stripLeadingZeros F) as [| c' t'] eqn:EF.
    + simpl orElse. change (list_ascii_of_string "0") with ["0"%char].
      rewrite app_nil_r in D. change (len []) with 0 in LF.
      unfold zeros.
      replace (Z.to_nat (d + 1 - len ["0"%char])) with k
        by (change (len ["0"%char]) with 1; lia).
      rewrite repeat_snoc. simpl. now rewrite D.
    + simpl orElse. change (list_ascii_of_string "0") with ["0"%char].
      unfold zeros. replace (Z.to_nat (d + 1 - len (c' :: t'))) with (S k) by lia.
      simpl. now rewrite D at 1.
  - rewrite strip_app_nonempty by congruence. rewrite E. simpl orElse.
    unfold zeros.
    match goal with
    | |- context [Z.to_nat ?x] => replace (Z.to_nat x) with 0%nat; [reflexivity |]
    end.
    change (c :: t ++ F) with ((c :: t) ++ F).
    rewrite len_app. unfold len at 1. simpl List.length. lia.
Qed.

Lemma padded_fraction f d :
  len f <= d ->
  sliceTo (padEnd0 f d) d = f ++ zeros (d - len f) /\ len (f ++ zeros (d - len f)) = d.
Proof.
  intros L. pose proof (len_nonneg f).
  assert (len (f ++ zeros (d - len f)) = d) as E
      by (rewrite len_app, len_zeros; lia).
  split; [| exact E]. unfold sliceTo, padEnd0. apply firstn_all2.
  unfold len in *. lia.
Qed.

Lemma toBaseUnits_parts s w f d :
  (exists c t, s = c :: t /\ isDigit c = true) ->
  nth 0 (splitDot s) [] = w -> nth 1 (splitDot s) [] = f ->
  forallb isDigit w = true -> forallb isDigit f = true ->
  len f <= d -> 0 <= d <= 77 ->
  toBaseUnits s d =
  Ok (orElse (stripLeadingZeros (w ++ f ++ zeros (d - len f))) "0").
Proof.
  intros (c & t & -> & Hc) Hw Hf Dw Df L R.
  unfold toBaseUnits. rewrite (parseFloat_digit c t Hc). simpl orb.
  destruct (Z.ltb_spec d 0); [lia |]. destruct (Z.gtb_spec d 77); [lia |].
  cbv zeta. rewrite Hw, Hf.
  destruct (padded_fraction f d L) as [-> _].
  rewrite orElse_digits; [reflexivity | | reflexivity].
  apply strip_digits. rewrite !forallb_app, Dw, Df. apply forallb_zeros.
Qed.

Lemma fromBaseUnits_parts w f d :
  forallb isDigit w = true -> forallb isDigit f = true ->
  len f <= d -> 0 <= d <= 77 ->
  fromBaseUnits (orElse (stripLeadingZeros (w ++ f ++ zeros (d - len f))) "0") d =
  Ok (canonicalForm w f).
Proof.
  intros Dw Df L R.
  destruct (padded_fraction f d L) as [_ LF].
  set (F := f ++ zeros (d - len f)) in *.
  assert (forallb isDigit F = true) as DF
      by (subst F; rewrite forallb_app, Df; apply forallb_zeros).
  assert (allDigits (orElse (stripLeadingZeros (w ++ F)) "0") = true) as Dr.
  { apply orElse_digits; [| reflexivity].
    apply strip_digits. now rewrite forallb_app, Dw, DF. }
  unfold fromBaseUnits. rewrite Dr.
  replace (isEmpty _) with false
    by (destruct (orElse _ _); [discriminate Dr | reflexivity]).
  simpl orb. destruct (Z.ltb_spec d 0); [lia |]. destruct (Z.gtb_spec d 77); [lia |].
  simpl orb. cbv iota.
  unfold canonicalForm. subst F.
  destruct (Z.eqb_spec d 0) as [Z0 | NZ].
  - assert (f = []) as -> by (destruct f; [reflexivity | unfold len in L; simpl in L; lia]).
    subst d. simpl. now rewrite app_nil_r.
  - cbv zeta. rewrite (padStart_strip w _ d LF).
    set (W := orElse (stripLeadingZeros w) "0").
    assert (W <> []) as NW by (subst W; destruct (stripLeadingZeros w); discriminate).
    rewrite len_app, LF.
    replace (len W + d - d) with (len W) by lia.
    unfold sliceTo, sliceFrom, len. rewrite Nat2Z.id.
    rewrite firstn_app, firstn_all, Nat.sub_diag, firstn_O, app_nil_r.
    rewrite skipn_app, skipn_all, Nat.sub_diag. simpl skipn. simpl app.
    unfold zeros. rewrite stripTrailing_zeros.
    rewrite !(orElse_nonempty W) by exact NW.
    destruct (stripTrailingZeros f); reflexivity.
Qed.

(** Round trip for every precision between 0 and 77. *)
Lemma roundtrip_general s w f d :
  (exists c t, s = c :: t /\ isDigit c = true) ->
  nth 0 (splitDot s) [] = w -> nth 1 (splitDot s) [] = f ->
  forallb isDigit w = true -> forallb isDigit f = true ->
  len f <= d -> 0 <= d <= 77 ->
  (b <- toBaseUnits s d ;; fromBaseUnits b d) = Ok (canonicalForm w f).
Proof.
  intros. erewrite toBaseUnits_parts by eassumption. simpl.
  now apply fromBaseUnits_parts.
Qed.

(** C2: for a precision [d] among 0, 6, 8 and 18 and a decimal string with
    whole part [whole] (one or more digits) and at most [d] fractional
    digits [frac], written without a dot or as [whole.frac], converting to
    base units and back gives the canonical form of the string. *)
Theorem fromBaseUnits_toBaseUnits (d : Z) (whole frac : jsstring) :
  In d [0; 6; 8; 18] ->
  allDigits whole = true -> forallb isDigit frac = true -> len frac <= d ->
  (b <- toBaseUnits whole d ;; fromBaseUnits b d) = Ok (canonicalForm whole []) /\
  (b <- toBaseUnits (whole ++ "."%char :: frac) d ;; fromBaseUnits b d)
  = Ok (canonicalForm whole frac).
Proof.
  intros Hd Hw Hf L.
  assert (0 <= d <= 77) as R by (simpl in Hd; lia).
  apply allDigits_iff in Hw. destruct Hw as [NE Dw].
  destruct whole as [| c t]; [congruence |].
  assert (isDigit c = true) as Hc by (simpl in Dw; now apply andb_true_iff in Dw).
  split.
  - apply roundtrip_general; auto.
    + eauto.
    + now rewrite splitDot_digits.
    + now rewrite splitDot_digits.
    + change (len []) with 0. lia.
  - apply roundtrip_general; auto.
    + exists c, (t ++ "."%char :: frac). auto.
    + now rewrite splitDot_app.
    + now rewrite splitDot_app, splitDot_digits.
Qed.

Lemma fromBaseUnits_toBaseUnits_witness :
  (b <- toBaseUnits "007" 6 ;; fromBaseUnits b 6) = Ok ("7" : jsstring) /\
  (b <- toBaseUnits "007.50" 6 ;; fromBaseUnits b 6) = Ok ("7.5" : jsstring).
Proof.
  apply (fromBaseUnits_toBaseUnits 6 "007" "50");
    [simpl; tauto | reflexivity | reflexivity | vm_compute; discriminate].
Defined.

Lemma toBaseUnits_precision_range s d :
  d < 0 \/ 77 < d -> toBaseUnits s d = Err SmartRewardsError.
Proof.
  intros H. unfold toBaseUnits.
  destruct (isEmpty s || isNaN (parseFloat s)); [reflexivity |].
  destruct (Z.ltb_spec d 0); [reflexivity |].
  destruct (Z.gtb_spec d 77); [reflexivity | lia].
Qed.

Lemma toBaseUnits_not_a_number s d :
  isEmpty s = true \/ isNaN (parseFloat s) = true ->
  toBaseUnits s d = Err SmartRewardsError.
Proof.
  intros [H | H]; unfold toBaseUnits; rewrite H; [reflexivity |].
  now rewrite orb_true_r.
Qed.

(** C3: [toBaseUnits] does not refuse every malformed amount: a second dot
    and what follows it, and characters beyond the kept fractional digits,
    are dropped and a result is returned; the empty string, a string that
    is no number, a minus sign and a precision outside 0..77 are
    refused. *)
Theorem toBaseUnits_malformed_accepted :
  toBaseUnits "1.5.7" 2 = Ok ("150" : jsstring) /\
  toBaseUnits "1.2x" 1 = Ok ("12" : jsstring) /\
  toBaseUnits "1.5abc" 0 = Ok ("1" : jsstring) /\
  toBaseUnits "" 18 = Err SmartRewardsError /\
  toBaseUnits "abc" 18 = Err SmartRewardsError /\
  toBaseUnits "-5" 18 = Err SmartRewardsError /\
  toBaseUnits "5" 78 = Err SmartRewardsError /\
  toBaseUnits "5" (-1) = Err SmartRewardsError.
Proof. repeat split. Qed.

(** ** Reconciliation *)

Lemma toBaseUnits_ok_digits a d b : toBaseUnits a d = Ok b -> allDigits b = true.
Proof.
  unfold toBaseUnits.
  destruct (isEmpty a || isNaN (parseFloat a)); [discriminate |].
  destruct ((d <? 0) || (d >? 77)); [discriminate |]. cbv zeta.
  destruct (allDigits (orElse _ _)) eqn:E; simpl; [| discriminate].
  now intros [= <-].
Qed.

Lemma toBaseUnits_err a d e : toBaseUnits a d = Err e -> e = SmartRewardsError.
Proof.
  unfold toBaseUnits.
  destruct (isEmpty a || isNaN (parseFloat a)); [now intros [= <-] |].
  destruct ((d <? 0) || (d >? 77)); [now intros [= <-] |]. cbv zeta.
  destruct (negb _); simpl; [now intros [= <-] | discriminate].
Qed.

Lemma sumOfBaseUnits_nonneg amounts d s : sumOfBaseUnits amounts d = Ok s -> 0 <= s.
Proof.
  revert s. induction amounts as [| a rest IH]; simpl; intros s.
  - intros [= <-]. lia.
  - destruct (toBaseUnits a d) as [b |] eqn:E; [| discriminate]. simpl.
    destruct (sumOfBaseUnits rest d) as [s' |]; [| discriminate]. simpl.
    intros [= <-]. specialize (IH s' eq_refl).
    pose proof (decValue_nonneg b (allDigits_forallb b (toBaseUnits_ok_digits a d b E))).
    lia.
Qed.

Lemma sumOfBaseUnits_err amounts d e :
  sumOfBaseUnits amounts d = Err e -> e = SmartRewardsError.
Proof.
  induction amounts as [| a rest IH]; simpl; [discriminate |].
  destruct (toBaseUnits a d) as [b |] eqn:E; simpl.
  - destruct (sumOfBaseUnits rest d); simpl; [discriminate |].
    intros [= <-]. now apply IH.
  - intros [= <-]. eapply toBaseUnits_err; eauto.
Qed.

Lemma addAmounts_sum amounts d t :
  0 <= t ->
  addAmounts amounts d (toString t) =
  (s <- sumOfBaseUnits amounts d ;; Ok (toString (t + s))).
Proof.
  revert t. induction amounts as [| a rest IH]; intros t Ht; simpl.
  - now rewrite Z.add_0_r.
  - destruct (toBaseUnits a d) as [b |] eqn:E; simpl; [| reflexivity].
    pose proof (toBaseUnits_ok_digits a d b E) as Db.
    pose proof (decValue_nonneg b (allDigits_forallb b Db)) as Pb.
    unfold addBaseUnits. rewrite (BigInt_toString t Ht), (BigInt_digits b Db). simpl.
    rewrite IH by lia.
    destruct (sumOfBaseUnits rest d); simpl; [| reflexivity].
    now rewrite Z.add_assoc.
Qed.

Lemma addAmounts_total amounts d :
  rethrowAs SmartRewardsError (addAmounts amounts d "0") =
  (s <- sumOfBaseUnits amounts d ;; Ok (toString s)).
Proof.
  change (list_ascii_of_string "0") with (toString 0).
  rewrite addAmounts_sum by lia.
  destruct (sumOfBaseUnits amounts d) as [s |] eqn:E; simpl; [reflexivity |].
  now rewrite (sumOfBaseUnits_err _ _ _ E).
Qed.

Lemma performCalculations_reconciliation proofs claims c d :
  performCalculations proofs claims c d = reconciliation proofs claims c d.
Proof.
  unfold performCalculations, reconciliation, calculateTotalEligible,
    calculateTotalClaimed, calculateRemaining. cbv zeta.
  rewrite !addAmounts_total.
  destruct (sumOfBaseUnits (map ClaimProof.amount proofs) d) as [e |] eqn:Ee; simpl;
    [| now rewrite (sumOfBaseUnits_err _ _ _ Ee)].
  pose proof (sumOfBaseUnits_nonneg _ _ _ Ee) as Pe.
  destruct (sumOfBaseUnits (map ClaimReward.amount _) d) as [cl |] eqn:Ec; simpl;
    [| now rewrite (sumOfBaseUnits_err _ _ _ Ec)].
  pose proof (sumOfBaseUnits_nonneg _ _ _ Ec) as Pc.
  unfold subtractBaseUnits.
  rewrite (BigInt_toString e Pe), (BigInt_toString cl Pc). simpl.
  unfold compareBaseUnits.
  destruct (Z.ltb_spec (e - cl) 0) as [L | L].
  - replace (Z.max 0 (e - cl)) with 0 by lia.
    destruct (Z.ltb_spec 0 (e - cl)); [lia | reflexivity].
  - rewrite (BigInt_toString (e - cl) L). simpl.
    replace (Z.max 0 (e - cl)) with (e - cl) by lia.
    change (BigInt (list_ascii_of_string "0")) with (Ok 0 : result Z). simpl.
    destruct (Z.ltb_spec (e - cl) 0); [lia |].
    destruct (Z.gtb_spec (e - cl) 0); destruct (Z.ltb_spec 0 (e - cl));
      try lia; reflexivity.
Qed.

Lemma sumOfBaseUnits_values amounts d baseUnits :
  Forall2 (fun a b => toBaseUnits a d = Ok b) amounts baseUnits ->
  sumOfBaseUnits amounts d = Ok (sumValues baseUnits).
Proof.
  induction 1 as [| a b amounts baseUnits Hab _ IH]; simpl; [reflexivity |].
  now rewrite Hab, IH.
Qed.

Lemma Forall2_map_l {A B C} (f : A -> B) (R : B -> C -> Prop) l l' :
  Forall2 (fun a c => R (f a) c) l l' -> Forall2 R (map f l) l'.
Proof. induction 1; simpl; constructor; auto. Qed.

(** C1: [performCalculations] returns the reconciliation: [totalEligible]
    is the sum of the base units of all eligibility amounts,
    [totalClaimed] the sum over the historical claims whose campaign
    field is numerically the target campaign, [remaining] their
    difference floored at "0" and [canClaim] whether it is positive (a
    conversion that raises makes the whole computation raise); for the
    amounts "10" and "5", one claim of "3" on campaign "1", target
    campaign 1 and precision 0 the result is "15", "3", "12", true. *)
Theorem performCalculations_spec :
  (forall proofs claims c d,
      0 <= d <= 77 ->
      performCalculations proofs claims c d = reconciliation proofs claims c d) /\
  (forall proofs claims c d eligible claimed,
      0 <= d <= 77 ->
      Forall2 (fun p b => toBaseUnits (ClaimProof.amount p) d = Ok b)
              proofs eligible ->
      Forall2 (fun h b => toBaseUnits (ClaimReward.amount h) d = Ok b)
              (filter (isCampaignClaim c) claims) claimed ->
      performCalculations proofs claims c d =
      Ok {| totalEligible := toString (sumValues eligible);
            totalClaimed := toString (sumValues claimed);
            remaining := toString (Z.max 0 (sumValues eligible - sumValues claimed));
            canClaim := 0 <? sumValues eligible - sumValues claimed |}) /\
  (forall p1 p2 h,
      ClaimProof.amount p1 = ("10" : jsstring) ->
      ClaimProof.amount p2 = ("5" : jsstring) ->
      ClaimReward.amount h = ("3" : jsstring) ->
      ClaimReward.campaign h = ("1" : jsstring) ->
      performCalculations [p1; p2] [h] 1 0 =
      Ok {| totalEligible := "15"; totalClaimed := "3";
            remaining := "12"; canClaim := true |}).
Proof.
  split; [| split].
  - intros. apply performCalculations_reconciliation.
  - intros proofs claims c d eligible claimed _ He Hc.
    rewrite performCalculations_reconciliation. unfold reconciliation.
    rewrite (sumOfBaseUnits_values _ d eligible) by now apply Forall2_map_l.
    rewrite (sumOfBaseUnits_values _ d claimed) by now apply Forall2_map_l.
    reflexivity.
  - intros [? ? ? ? a1 ?] [? ? ? ? a2 ?] [? ? a3 c3 ? ?]. simpl.
    intros -> -> -> ->. reflexivity.
Qed.

Lemma performCalculations_spec_witness :
  performCalculations
    [ClaimProof.mk 146 100 "0xabc" 1 "10" ["0x01" : jsstring];
     ClaimProof.mk 146 101 "0xabc" 1 "5" ["0x02" : jsstring]]
    [ClaimReward.mk "c-1" "0xabc" "3" "1" 146 1700000000]
    1 0 =
  Ok {| totalEligible := "15"; totalClaimed := "3";
        remaining := "12"; canClaim := true |} /\
  performCalculations
    [ClaimProof.mk 146 100 "0xabc" 7 "1.5" ["0x01" : jsstring]]
    [ClaimReward.mk "c-1" "0xabc" "0.25" "7" 146 1700000000;
     ClaimReward.mk "c-2" "0xabc" "9" "8" 146 1700000001]
    7 2 =
  Ok {| totalEligible := "150"; totalClaimed := "25";
        remaining := "125"; canClaim := true |}.
Proof.
  split.
  - apply (proj2 (proj2 performCalculations_spec)); reflexivity.
  - apply (proj1 (proj2 performCalculations_spec) _ _ 7 2
             ["150" : jsstring] ["25" : jsstring]).
    + lia.
    + repeat constructor.
    + repeat constructor.
Defined.

(** C10: with no eligibility record and no historical claim,
    [performCalculations] does not raise and reports a zero balance. *)
Theorem performCalculations_empty (c d : Z) :
  0 <= d <= 77 ->
  performCalculations [] [] c d =
  Ok {| totalEligible := "0"; totalClaimed := "0";
        remaining := "0"; canClaim := false |}.
Proof. intros _. reflexivity. Qed.

Lemma performCalculations_empty_witness :
  performCalculations [] [] 7 18 =
  Ok {| totalEligible := "0"; totalClaimed := "0";
        remaining := "0"; canClaim := false |}.
Proof. apply (performCalculations_empty 7 18). lia. Defined.

(** ** Record validation *)

Lemma validateClaimProofs_raises_iff records u c :
  validateClaimProofs records u c = Err SmartRewardsError <->
  existsb (proofIsRefused u c) records = true.
Proof.
  induction records as [| p rest IH]; simpl; [split; discriminate |].
  unfold proofIsRefused at 1.
  destruct (negb (str_eqb _ _)); simpl; [tauto |].
  destruct (negb (_ =? _)); simpl; [tauto |].
  destruct (isEmpty (ClaimProof.proof p)); simpl; [tauto |].
  destruct (isEmpty (ClaimProof.amount p) || numLe _ _); simpl; [tauto | exact IH].
Qed.

(** C5: a record whose amount is not a number at all ([parseFloat] gives
    [NaN]) passes [validateClaimProofs], because [NaN <= 0] is false; the
    other three checks, and the check of an amount that parses to a number
    that is zero or negative, do refuse the batch. *)
Theorem validateClaimProofs_accepts_unparsable_amount :
  isNaN (parseFloat "abc") = true /\
  validateClaimProofs
    [ClaimProof.mk 146 100 "0xAbC" 1 "abc" ["0x01" : jsstring]] "0xabc" 1 = Ok tt /\
  validateClaimProofs
    [ClaimProof.mk 146 100 "0xAbC" 1 "0" ["0x01" : jsstring]] "0xabc" 1
  = Err SmartRewardsError /\
  validateClaimProofs
    [ClaimProof.mk 146 100 "0xAbC" 1 "5" ["0x01" : jsstring];
     ClaimProof.mk 146 100 "0xdef" 1 "5" ["0x01" : jsstring]] "0xabc" 1
  = Err SmartRewardsError.
Proof. repeat split. Qed.

(** ** Claim arguments *)

Lemma pushClaimArgs_spec records acc :
  pushClaimArgs records acc =
  if forallb hasUserAndProof records
  then Ok {| users := users acc ++ map ClaimProof.user records;
             campaignIds := campaignIds acc ++ map ClaimProof.campaignId records;
             amounts := amounts acc ++ map ClaimProof.amount records;
             proofs := proofs acc ++ map ClaimProof.proof records |}
  else Err ClaimError.
Proof.
  revert acc. induction records as [| p rest IH]; intros acc; simpl.
  - rewrite !app_nil_r. now destruct acc.
  - unfold hasUserAndProof at 1.
    destruct (isEmpty (ClaimProof.user p)); simpl; [reflexivity |].
    destruct (isEmpty (ClaimProof.proof p)); simpl; [reflexivity |].
    rewrite IH. simpl. now rewrite <- !app_assoc.
Qed.

Lemma prepareClaimArgs_eq records :
  prepareClaimArgs records =
  if negb (isEmpty records) && forallb hasUserAndProof records
     && validateAmountsForOnChain (map ClaimProof.amount records)
  then Ok {| users := map ClaimProof.user records;
             campaignIds := map ClaimProof.campaignId records;
             amounts := map ClaimProof.amount records;
             proofs := map ClaimProof.proof records |}
  else Err ClaimError.
Proof.
  unfold prepareClaimArgs. destruct records as [| p rest]; [reflexivity |].
  change (List.length (p :: rest) =? 0)%nat with false. cbv iota.
  rewrite pushClaimArgs_spec.
  change (negb (isEmpty (p :: rest))) with true. rewrite andb_true_l.
  destruct (forallb hasUserAndProof (p :: rest)); [| reflexivity].
  cbn [bind users campaignIds amounts proofs app andb].
  rewrite !length_map, Nat.eqb_refl. simpl orb. cbv iota.
  destruct (validateAmountsForOnChain _); reflexivity.
Qed.

(** The three ways for [prepareClaimArgs] to end: with the arguments of the
    records, or with a [ClaimError] because there is no record, because a
    record lacks its user or its proof, or because the amounts fail the
    on-chain check. *)
Lemma prepareClaimArgs_cases records :
  (records <> [] -> forallb hasUserAndProof records = true ->
   validateAmountsForOnChain (map ClaimProof.amount records) = true ->
   prepareClaimArgs records
   = Ok {| users := map ClaimProof.user records;
           campaignIds := map ClaimProof.campaignId records;
           amounts := map ClaimProof.amount records;
           proofs := map ClaimProof.proof records |}) /\
  (existsb (fun p => isEmpty (ClaimProof.user p)) records = true \/
   existsb (fun p => isEmpty (ClaimProof.proof p)) records = true \/
   validateAmountsForOnChain (map ClaimProof.amount records) = false ->
   prepareClaimArgs records = Err ClaimError) /\
  ((exists args, prepareClaimArgs records = Ok args) \/
   prepareClaimArgs records = Err ClaimError).
Proof.
  rewrite prepareClaimArgs_eq. split; [| split].
  - intros N F V. rewrite F, V. destruct records; [contradiction | reflexivity].
  - intros H.
    assert (forallb hasUserAndProof records
            && validateAmountsForOnChain (map ClaimProof.amount records) = false) as F.
    { destruct H as [H | [H | H]].
      - apply andb_false_iff. left.
        apply existsb_exists in H. destruct H as (p & I & Hp).
        destruct (forallb hasUserAndProof records) eqn:A; [| reflexivity].
        rewrite forallb_forall in A. specialize (A p I).
        unfold hasUserAndProof in A. now rewrite Hp in A.
      - apply andb_false_iff. left.
        apply existsb_exists in H. destruct H as (p & I & Hp).
        destruct (forallb hasUserAndProof records) eqn:A; [| reflexivity].
        rewrite forallb_forall in A. specialize (A p I).
        unfold hasUserAndProof in A. rewrite Hp in A.
        now rewrite andb_false_r in A.
      - apply andb_false_iff. now right. }
    rewrite <- andb_assoc, F. now rewrite andb_false_r.
  - destruct (negb (isEmpty records) && forallb hasUserAndProof records
              && validateAmountsForOnChain (map ClaimProof.amount records));
      [left; eexists; reflexivity | now right].
Qed.

(** C4: for every list of records, [prepareClaimArgs] either returns or
    raises a [ClaimError].  It returns exactly when there is a record,
    every record has a user and a non-empty proof, and the amounts pass
    [validateAmountsForOnChain]; what it returns are the users, campaign
    identifiers, amounts and proofs of the records in input order, each of
    the length of the input, and the amounts pass the on-chain check.  A
    record without user or with an empty proof, or amounts that fail the
    on-chain check, make it raise.  When it raises, [claimBatch] raises
    the same error without calling the submission (the state of the chain
    is unchanged); when it returns, [claimBatch] submits what it
    returned. *)
Theorem prepareClaimArgs_spec
  (World Receipt : Type)
  (executeClaim : Z -> SmartRewarderClaimArgs -> World -> result Receipt * World)
  (records : list ClaimProof.t) :
  (forall args,
      prepareClaimArgs records = Ok args ->
      users args = map ClaimProof.user records /\
      campaignIds args = map ClaimProof.campaignId records /\
      amounts args = map ClaimProof.amount records /\
      proofs args = map ClaimProof.proof records /\
      List.length (users args) = List.length records /\
      List.length (campaignIds args) = List.length records /\
      List.length (amounts args) = List.length records /\
      List.length (proofs args) = List.length records /\
      validateAmountsForOnChain (amounts args) = true) /\
  (existsb (fun p => isEmpty (ClaimProof.user p)) records = true \/
   existsb (fun p => isEmpty (ClaimProof.proof p)) records = true \/
   validateAmountsForOnChain (map ClaimProof.amount records) = false ->
   prepareClaimArgs records = Err ClaimError) /\
  (forall e chainId w,
      prepareClaimArgs records = Err e ->
      claimBatch World Receipt executeClaim chainId records w = (Err e, w)) /\
  ((exists args, prepareClaimArgs records = Ok args) <->
   records <> [] /\
   forallb hasUserAndProof records = true /\
   validateAmountsForOnChain (map ClaimProof.amount records) = true) /\
  (records <> [] -> forallb hasUserAndProof records = true ->
   validateAmountsForOnChain (map ClaimProof.amount records) = true ->
   prepareClaimArgs records
   = Ok {| users := map ClaimProof.user records;
           campaignIds := map ClaimProof.campaignId records;
           amounts := map ClaimProof.amount records;
           proofs := map ClaimProof.proof records |}) /\
  ((exists args, prepareClaimArgs records = Ok args) \/
   prepareClaimArgs records = Err ClaimError) /\
  (forall args chainId w,
      prepareClaimArgs records = Ok args ->
      claimBatch World Receipt executeClaim chainId records w
      = executeClaim chainId args w).
Proof.
  destruct (prepareClaimArgs_cases records) as (S & R & D).
  split; [| split; [exact R | split; [| split; [| split; [exact S | split;
                                                           [exact D |]]]]]].
  - intros args H. rewrite prepareClaimArgs_eq in H.
    destruct (negb (isEmpty records) && forallb hasUserAndProof records) eqn:E1;
      simpl in H; [| discriminate].
    destruct (validateAmountsForOnChain _) eqn:E2; [| discriminate].
    injection H as <-. simpl. rewrite !length_map. auto 10.
  - intros e chainId w H. unfold claimBatch. rewrite H.
    destruct records; [| reflexivity].
    simpl. now inversion H.
  - split.
    + intros (args & H). rewrite prepareClaimArgs_eq in H.
      destruct records as [| p rest]; [discriminate |].
      cbn [isEmpty negb andb] in H.
      destruct (forallb hasUserAndProof (p :: rest)); [| discriminate].
      destruct (validateAmountsForOnChain _); [| discriminate].
      repeat split. discriminate.
    + intros (N & F & V). eexists. now apply S.
  - intros args chainId w H. unfold claimBatch. rewrite H.
    destruct records; [discriminate H | reflexivity].
Qed.

Lemma prepareClaimArgs_spec_witness :
  prepareClaimArgs
    [ClaimProof.mk 146 100 "" 1 "10" ["0x01" : jsstring]] = Err ClaimError /\
  claimBatch nat unit (fun _ _ n => (Ok tt, S n)) 146
    [ClaimProof.mk 146 100 "" 1 "10" ["0x01" : jsstring]] 0%nat
  = (Err ClaimError, 0%nat) /\
  (forall args,
      prepareClaimArgs
        [ClaimProof.mk 146 100 "0xabc" 1 "10" ["0x01" : jsstring];
         ClaimProof.mk 146 101 "0xabc" 2 "7" ["0x02" : jsstring]] = Ok args ->
      amounts args = ["10" : jsstring; "7" : jsstring]) /\
  prepareClaimArgs
    [ClaimProof.mk 146 100 "0xabc" 1 "10" ["0x01" : jsstring];
     ClaimProof.mk 146 101 "0xabc" 2 "7" ["0x02" : jsstring]]
  = Ok {| users := ["0xabc" : jsstring; "0xabc" : jsstring];
          campaignIds := [1; 2];
          amounts := ["10" : jsstring; "7" : jsstring];
          proofs := [["0x01" : jsstring]; ["0x02" : jsstring]] |} /\
  claimBatch nat unit (fun _ _ n => (Ok tt, S n)) 146
    [ClaimProof.mk 146 100 "0xabc" 1 "10" ["0x01" : jsstring];
     ClaimProof.mk 146 101 "0xabc" 2 "7" ["0x02" : jsstring]] 0%nat
  = (Ok tt, 1%nat).
Proof.
  pose proof (prepareClaimArgs_spec nat unit (fun _ _ n => (Ok tt, S n))
                [ClaimProof.mk 146 100 "" 1 "10" ["0x01" : jsstring]])
    as (_ & R & B & _).
  pose proof (prepareClaimArgs_spec nat unit (fun _ _ n => (Ok tt, S n))
                [ClaimProof.mk 146 100 "0xabc" 1 "10" ["0x01" : jsstring];
                 ClaimProof.mk 146 101 "0xabc" 2 "7" ["0x02" : jsstring]])
    as (A & _ & _ & _ & S & _ & C).
  split; [apply R; left; reflexivity |].
  split; [apply B; apply R; left; reflexivity |].
  split; [intros args H; now apply A in H |].
  assert (prepareClaimArgs
            [ClaimProof.mk 146 100 "0xabc" 1 "10" ["0x01" : jsstring];
             ClaimProof.mk 146 101 "0xabc" 2 "7" ["0x02" : jsstring]]
          = Ok {| users := ["0xabc" : jsstring; "0xabc" : jsstring];
                  campaignIds := [1; 2];
                  amounts := ["10" : jsstring; "7" : jsstring];
                  proofs := [["0x01" : jsstring]; ["0x02" : jsstring]] |}) as P
      by (apply S; [discriminate | reflexivity | reflexivity]).
  split; [exact P |]. apply (C _ 146 0%nat P).
Defined.

(** ** Pagination *)

Lemma paginate_stops {A} (fetchPage : nat -> option jsstring -> result (Connection A))
  pages last :
  forallb continues pages = true -> continues last = false ->
  forall fuel n cursor all,
    serves fetchPage n cursor pages last ->
    (List.length pages < fuel)%nat ->
    paginate fetchPage fuel n cursor all =
    Some (Ok (all ++ nodesOf (pages ++ [last])), (n + S (List.length pages))%nat).
Proof.
  intros Hp Hl. induction pages as [| page rest IH]; intros fuel n cursor all Hs Hf.
  - simpl in Hs. destruct fuel as [| fuel]; [simpl in Hf; lia |].
    simpl. rewrite Hs. unfold continues in Hl.
    rewrite app_nil_r. replace (n + 1)%nat with (S n) by lia.
    destruct (hasNextPage (pageInfo last)); simpl in *; [| now rewrite andb_false_r].
    apply negb_false_iff in Hl. now rewrite Hl.
  - simpl in Hs. destruct Hs as [Hs1 Hs2].
    simpl in Hp. apply andb_true_iff in Hp. destruct Hp as [Hc Hr].
    destruct fuel as [| fuel]; [simpl in Hf; lia |].
    simpl. rewrite Hs1. unfold continues in Hc.
    apply andb_true_iff in Hc. destruct Hc as [-> Hc].
    apply negb_true_iff in Hc. rewrite Hc. simpl.
    rewrite (IH Hr fuel (S n) _ _ Hs2) by (simpl in Hf; lia).
    rewrite <- app_assoc. f_equal. f_equal. simpl. lia.
Qed.

(** The loop runs out of fuel exactly when every page fetched so far
    announces a next page and gives its cursor. *)
Lemma paginate_out_of_fuel {A}
  (fetchPage : nat -> option jsstring -> result (Connection A)) fuel n cursor all :
  paginate fetchPage fuel n cursor all = None <->
  keepsGoing fetchPage fuel n cursor = true.
Proof.
  revert n cursor all. induction fuel as [| fuel IH]; intros n cursor all; simpl.
  - split; reflexivity.
  - destruct (fetchPage n cursor) as [page | e]; [| split; discriminate].
    destruct (hasNextPage (pageInfo page));
      destruct (noCursor (endCursor (pageInfo page))); simpl;
      try (split; discriminate).
    apply IH.
Qed.

Lemma inconsistent_stops {A} (page : Connection A) :
  inconsistent page = true -> continues page = false.
Proof.
  unfold inconsistent, continues. intros H. apply andb_true_iff in H.
  destruct H as [-> ->]. reflexivity.
Qed.

Lemma keepsGoing_endless {A}
  (fetchPage : nat -> option jsstring -> result (Connection A)) :
  (forall n cursor, exists page, fetchPage n cursor = Ok page /\ continues page = true) ->
  forall fuel n cursor, keepsGoing fetchPage fuel n cursor = true.
Proof.
  intros H. induction fuel as [| fuel IH]; intros n cursor; simpl; [reflexivity |].
  destruct (H n cursor) as (page & -> & C). unfold continues in C.
  now rewrite C, IH.
Qed.

(** C9, as amended: both pagination loops stop at the first page that
    announces a next page without giving a cursor: when the pages fetched
    before it all announce a next page with a cursor, the loop (given
    enough fuel, one iteration per page) ends without raising, returns
    exactly the records of the pages fetched so far, and has made no
    request after that page.  The loops do not end for every sequence of
    responses: a loop is still running after a number of iterations
    exactly when each of its requests so far was answered by a page that
    announces a next page and gives its cursor. *)
Theorem pagination_stops_without_cursor
  (requestClaimProofs :
     nat -> ClaimProofQueryVariables -> result (option (Connection ClaimProof.t)))
  (requestClaimRewards :
     nat -> ClaimRewardQueryVariables -> result (option (Connection ClaimReward.t)))
  (user pool : jsstring) (chainId campaignId : Z) :
  (forall pages last fuel,
      forallb continues pages = true -> inconsistent last = true ->
      serves (fetchClaimProofs requestClaimProofs user chainId campaignId)
             0 None pages last ->
      (List.length pages < fuel)%nat ->
      fetchAllClaimProofs requestClaimProofs fuel user chainId campaignId =
      Some (Ok (nodesOf (pages ++ [last])), S (List.length pages))) /\
  (forall pages last fuel,
      forallb continues pages = true -> inconsistent last = true ->
      serves (fetchHistoricalClaims requestClaimRewards pool chainId user)
             0 None pages last ->
      (List.length pages < fuel)%nat ->
      fetchAllHistoricalClaims requestClaimRewards fuel pool chainId user =
      Some (Ok (nodesOf (pages ++ [last])), S (List.length pages))) /\
  (forall fuel,
      fetchAllClaimProofs requestClaimProofs fuel user chainId campaignId = None <->
      keepsGoing (fetchClaimProofs requestClaimProofs user chainId campaignId)
                 fuel 0 None = true) /\
  (forall fuel,
      fetchAllHistoricalClaims requestClaimRewards fuel pool chainId user = None <->
      keepsGoing (fetchHistoricalClaims requestClaimRewards pool chainId user)
                 fuel 0 None = true).
Proof.
  split; [| split; [| split]].
  - intros pages last fuel Hp Hl Hs Hf. apply inconsistent_stops in Hl.
    unfold fetchAllClaimProofs.
    now rewrite (paginate_stops _ pages last Hp Hl fuel 0%nat None [] Hs Hf).
  - intros pages last fuel Hp Hl Hs Hf. apply inconsistent_stops in Hl.
    unfold fetchAllHistoricalClaims.
    now rewrite (paginate_stops _ pages last Hp Hl fuel 0%nat None [] Hs Hf).
  - intros fuel. apply paginate_out_of_fuel.
  - intros fuel. apply paginate_out_of_fuel.
Qed.

Lemma pagination_stops_without_cursor_witness :
  fetchAllClaimProofs sampleProofPages 5 "0xaa" 146 1 =
  Some (Ok [sampleProof 1 "10"; sampleProof 1 "5"], 2%nat) /\
  fetchAllHistoricalClaims sampleClaimPages 5 "0xpool" 146 "0xaa" =
  Some (Ok [sampleClaim "1" "3"; sampleClaim "1" "4"], 2%nat).
Proof.
  destruct (pagination_stops_without_cursor sampleProofPages sampleClaimPages
              "0xaa" "0xpool" 146 1) as (P & R & _).
  split.
  - apply (P [pageOf (sampleProof 1 "10") true (Some ("c1" : jsstring))]
             (pageOf (sampleProof 1 "5") true None) 5%nat);
      [reflexivity | reflexivity | split; reflexivity | simpl; lia].
  - apply (R [pageOf (sampleClaim "1" "3") true (Some ("c1" : jsstring))]
             (pageOf (sampleClaim "1" "4") true (Some ("" : jsstring))) 5%nat);
      [reflexivity | reflexivity | split; reflexivity | simpl; lia].
Defined.

(** C9 as written fails: against a service whose every page announces a
    next page and gives a cursor, neither loop ever returns or raises,
    however many iterations it is given. *)
Lemma pagination_runs_forever :
  ~ (exists fuel outcome,
        fetchAllClaimProofs endlessProofPages fuel "0xaa" 146 1 = Some outcome) /\
  ~ (exists fuel outcome,
        fetchAllHistoricalClaims endlessClaimPages fuel "0xpool" 146 "0xaa"
        = Some outcome).
Proof.
  split; intros (fuel & outcome & H).
  - unfold fetchAllClaimProofs in H.
    rewrite (proj2 (paginate_out_of_fuel _ fuel 0%nat None [])) in H;
      [discriminate H |].
    apply keepsGoing_endless. intros n cursor. eexists. split; reflexivity.
  - unfold fetchAllHistoricalClaims in H.
    rewrite (proj2 (paginate_out_of_fuel _ fuel 0%nat None [])) in H;
      [discriminate H |].
    apply keepsGoing_endless. intros n cursor. eexists. split; reflexivity.
Qed.

(** ** Sorting with a comparator *)

Lemma numLt_zero x : numLt (S754_zero false) x = isPositive x.
Proof. destruct x as [s | s | | s m e]; try destruct s; reflexivity. Qed.

Lemma binary_round_aux_negative m e l :
  isPositive (binary_round_aux prec emax true m e l) = false.
Proof.
  unfold binary_round_aux.
  destruct (shr_fexp prec emax m e l) as [mrs' e'].
  destruct (shr_fexp prec emax _ e' loc_Exact) as [mrs'' e''].
  destruct (shr_m mrs''); try reflexivity.
  now destruct (e'' <=? emax - prec).
Qed.

Lemma binary_normalize_positive m e :
  isPositive (binary_normalize prec emax m e false) = true -> 0 < m.
Proof.
  unfold binary_normalize, binary_round. destruct m as [| p | p]; simpl.
  - discriminate.
  - lia.
  - destruct (shl_align p e _) as [mz ez].
    now rewrite binary_round_aux_negative.
Qed.

Lemma binary_normalize_negative m e :
  m < 0 -> isPositive (binary_normalize prec emax m e false) = false.
Proof.
  intros H. destruct (isPositive _) eqn:E; [| reflexivity].
  apply binary_normalize_positive in E. lia.
Qed.

Lemma numSub_antisym a b :
  isPositive (numSub a b) = true -> isPositive (numSub b a) = false.
Proof.
  unfold numSub.
  destruct a as [sa | sa | | sa ma ea], b as [sb | sb | | sb mb eb];
    try (repeat match goal with s : bool |- _ => destruct s end;
         simpl; congruence).
  unfold SFsub. intros H. apply binary_normalize_positive in H.
  apply binary_normalize_negative. rewrite (Z.min_comm eb ea). lia.
Qed.

Section SortLemmas.
Context {A : Type} (comparefn : A -> A -> number).
Hypothesis comparefn_antisym :
  forall x y, sortsAfter comparefn x y = true -> sortsAfter comparefn y x = false.

Lemma sortInsert_perm x l : Permutation (sortInsert comparefn x l) (x :: l).
Proof.
  induction l as [| y rest IH]; simpl; [reflexivity |].
  destruct (sortsAfter comparefn x y); [| reflexivity].
  rewrite IH. apply perm_swap.
Qed.

Lemma arraySort_perm l : Permutation (arraySort comparefn l) l.
Proof.
  induction l as [| x rest IH]; simpl; [constructor |].
  rewrite sortInsert_perm. now constructor.
Qed.

Lemma sortInsert_hd x y l :
  sortsAfter comparefn y x = false ->
  HdRel (fun a b => sortsAfter comparefn a b = false) y l ->
  HdRel (fun a b => sortsAfter comparefn a b = false) y (sortInsert comparefn x l).
Proof.
  intros Hyx Hl. destruct l as [| z rest]; simpl; [now constructor |].
  destruct (sortsAfter comparefn x z); constructor; auto.
  now inversion Hl.
Qed.

Lemma sortInsert_sorted x l :
  Sorted (fun a b => sortsAfter comparefn a b = false) l ->
  Sorted (fun a b => sortsAfter comparefn a b = false) (sortInsert comparefn x l).
Proof.
  induction 1 as [| y rest Hs IH Hh]; simpl; [repeat constructor |].
  destruct (sortsAfter comparefn x y) eqn:E.
  - constructor; [exact IH |].
    apply sortInsert_hd; [now apply comparefn_antisym | exact Hh].
  - constructor; [now constructor | now constructor].
Qed.

Lemma arraySort_sorted l :
  Sorted (fun a b => sortsAfter comparefn a b = false) (arraySort comparefn l).
Proof.
  induction l as [| x rest IH]; simpl; [constructor |].
  now apply sortInsert_sorted.
Qed.
End SortLemmas.

(** ** Multi-campaign aggregation *)

Lemma compareClaimable_antisym x y :
  sortsAfter compareClaimable x y = true -> sortsAfter compareClaimable y x = false.
Proof.
  unfold sortsAfter, compareClaimable. rewrite !numLt_zero.
  destruct (ClaimableCampaign.canClaim x), (ClaimableCampaign.canClaim y); simpl;
    try apply numSub_antisym; try discriminate; reflexivity.
Qed.

Lemma sortsAfter_inSortOrder x y :
  sortsAfter compareClaimable x y = false -> inSortOrder x y.
Proof.
  unfold sortsAfter, compareClaimable, inSortOrder.
  destruct (ClaimableCampaign.canClaim x), (ClaimableCampaign.canClaim y); simpl;
    intros H; split; auto; try discriminate.
Qed.

Lemma collectResults_reconciled remote user chainId campaigns results :
  collectResults remote user chainId campaigns results =
  results ++ reconciled remote user chainId campaigns.
Proof.
  revert results. induction campaigns as [| c rest IH]; intros results; simpl.
  - now rewrite app_nil_r.
  - destruct (reconcileCampaign remote user chainId c) as [entry |]; rewrite IH.
    + now rewrite <- app_assoc.
    + reflexivity.
Qed.

Lemma In_reconciled remote user chainId campaigns entry :
  In entry (reconciled remote user chainId campaigns) <->
  exists campaign,
    In campaign campaigns /\
    reconcileCampaign remote user chainId campaign = Ok entry.
Proof.
  unfold reconciled. rewrite in_flat_map. split.
  - intros (c & I & H). exists c. split; [exact I |].
    destruct (reconcileCampaign remote user chainId c) as [e |]; simpl in H;
      [| contradiction].
    destruct H as [-> | []]. reflexivity.
  - intros (c & I & H). exists c. split; [exact I |]. rewrite H. now left.
Qed.

Lemma Sorted_impl {A} (R R' : A -> A -> Prop) l :
  (forall x y, R x y -> R' x y) -> Sorted R l -> Sorted R' l.
Proof.
  intros HR H. induction H as [| x r Hs IH Hh]; constructor; auto.
  destruct Hh; constructor. auto.
Qed.

Lemma claimableFirst_strong l :
  Sorted inSortOrder l ->
  StronglySorted
    (fun entry later =>
       ClaimableCampaign.canClaim later = true ->
       ClaimableCampaign.canClaim entry = true) l.
Proof.
  intros H. apply Sorted_StronglySorted.
  - intros x y z Hxy Hyz Hz. auto.
  - induction H as [| x l Hs IH Hh]; constructor; auto.
    destruct Hh as [| y l' [Hc _]]; constructor. exact Hc.
Qed.

(** What holds of the result, whatever the amounts: every campaign is
    reconciled in sequence; those whose reconciliation raises are left out
    and every other one appears with its element; the result is sorted as
    the comparator sees it, with the claimable ones first and, between
    neighbours of the same kind, a difference of the numbers that
    [parseFloat] reads from the remaining amounts that is not positive. *)
Lemma getUserClaimableCampaigns_sorted
  (remote : Remote) (user : jsstring) (chainId : Z) (campaigns : list Campaign.t) :
  exists out,
    getUserClaimableCampaigns remote user chainId campaigns = Ok out /\
    Permutation out (reconciled remote user chainId campaigns) /\
    (forall entry,
        In entry out <->
        exists campaign,
          In campaign campaigns /\
          reconcileCampaign remote user chainId campaign = Ok entry) /\
    Sorted inSortOrder out /\
    StronglySorted
      (fun entry later =>
         ClaimableCampaign.canClaim later = true ->
         ClaimableCampaign.canClaim entry = true) out.
Proof.
  eexists. split; [reflexivity |].
  rewrite collectResults_reconciled. simpl app.
  set (l := reconciled remote user chainId campaigns).
  assert (Permutation (arraySort compareClaimable l) l) as P
      by apply arraySort_perm.
  assert (Sorted inSortOrder (arraySort compareClaimable l)) as S.
  { eapply Sorted_impl;
      [| apply (arraySort_sorted compareClaimable compareClaimable_antisym l)].
    intros x y. apply sortsAfter_inSortOrder. }
  repeat split.
  - exact P.
  - intros I. apply In_reconciled. eapply Permutation_in; eauto.
  - intros I. apply In_reconciled in I. eapply Permutation_in; [| exact I].
    now symmetry.
  - exact S.
  - now apply claimableFirst_strong.
Qed.

(** Two claimable campaigns with the same remaining amount are both
    returned, one after the other. *)
Lemma getUserClaimableCampaigns_not_strict :
  exists first second,
    getUserClaimableCampaigns sampleRemote sampleUser 146
      [sampleCampaign 1; sampleCampaign 2] = Ok [first; second] /\
    ClaimableCampaign.remaining first = ("5" : jsstring) /\
    ClaimableCampaign.remaining second = ("5" : jsstring) /\
    ~ strictlyDescending first second.
Proof.
  eexists. eexists. split; [vm_compute; reflexivity |].
  split; [reflexivity |]. split; [reflexivity |].
  intros H. specialize (H eq_refl eq_refl). vm_compute in H. discriminate H.
Qed.

(** C8: the result is not sorted by descending remaining amount.  The
    comparator subtracts the numbers that [parseFloat] reads from the
    remaining amounts, and 9007199254740992 and 9007199254740993 are read
    as the same number: for two claimable campaigns with these remaining
    amounts the result keeps the order of the input, so the smaller
    amount comes first when its campaign is passed first. *)
Theorem getUserClaimableCampaigns_ascending_amounts :
  getUserClaimableCampaigns largeRemote sampleUser 146
    [sampleCampaign 1; sampleCampaign 2]
  = Ok [largeEntry 1 "9007199254740992"; largeEntry 2 "9007199254740993"] /\
  getUserClaimableCampaigns largeRemote sampleUser 146
    [sampleCampaign 2; sampleCampaign 1]
  = Ok [largeEntry 2 "9007199254740993"; largeEntry 1 "9007199254740992"] /\
  ClaimableCampaign.canClaim (largeEntry 1 "9007199254740992") = true /\
  ClaimableCampaign.canClaim (largeEntry 2 "9007199254740993") = true /\
  decValue (ClaimableCampaign.remaining (largeEntry 1 "9007199254740992"))
  < decValue (ClaimableCampaign.remaining (largeEntry 2 "9007199254740993")) /\
  parseFloat "9007199254740993" = parseFloat "9007199254740992" /\
  reconcileCampaign largeRemote sampleUser 146 (sampleCampaign 1)
  = Ok (largeEntry 1 "9007199254740992") /\
  reconcileCampaign largeRemote sampleUser 146 (sampleCampaign 2)
  = Ok (largeEntry 2 "9007199254740993").
Proof. repeat split; vm_compute; reflexivity. Qed.

(** The element of a campaign that reconciles carries the result of
    [performCalculations] on the records fetched for it. *)
Lemma reconcileCampaign_calculations remote user chainId campaign entry :
  reconcileCampaign remote user chainId campaign = Ok entry ->
  ClaimableCampaign.campaign entry = campaign /\
  ClaimableCampaign.canClaim entry = canClaim (ClaimableCampaign.calculations entry) /\
  exists rewards,
    calculateRewards remote user chainId (Campaign.campaignId campaign) = Ok rewards /\
    ClaimableCampaign.calculations entry = rw_calculations rewards /\
    performCalculations (rw_proofs rewards) (rw_claims rewards)
      (Campaign.campaignId campaign) (rw_rewardTokenDecimals rewards)
    = Ok (rw_calculations rewards).
Proof.
  unfold reconcileCampaign.
  destruct (calculateRewards remote user chainId (Campaign.campaignId campaign))
    as [rewards |] eqn:E; simpl; [| discriminate].
  destruct (formatCalculations _ _) as [formatted |]; simpl; [| discriminate].
  intros [= <-]. simpl. repeat split. exists rewards. repeat split.
  unfold calculateRewards in E.
  destruct (getCampaignById remote chainId _) as [[found |] |]; simpl in E;
    try discriminate.
  destruct (getClaimProofs remote user chainId _) as [ps |]; simpl in E;
    [| discriminate].
  destruct (getHistoricalClaims remote _ chainId user _) as [cs |]; simpl in E;
    [| discriminate].
  destruct (performCalculations ps cs _ _) as [calc |] eqn:P; simpl in E;
    [| discriminate].
  injection E as <-. exact P.
Qed.

(** * Further properties *)

(** ** Values of digit strings *)

Lemma fold_digits_shift s acc :
  fold_left (fun a c => a * 10 + digitVal c) s acc =
  acc * 10 ^ len s + fold_left (fun a c => a * 10 + digitVal c) s 0.
Proof.
  revert acc. induction s as [| c s IH]; intros acc.
  - simpl. change (len []) with 0. simpl. lia.
  - assert (10 ^ len (c :: s) = 10 * 10 ^ len s) as P.
    { replace (len (c :: s)) with (Z.succ (len s))
        by (unfold len; simpl List.length; lia).
      apply Z.pow_succ_r, len_nonneg. }
    rewrite P. cbn [fold_left].
    rewrite (IH (acc * 10 + digitVal c)), (IH (0 * 10 + digitVal c)). ring.
Qed.

Lemma decValue_app a b : decValue (a ++ b) = decValue a * 10 ^ len b + decValue b.
Proof. unfold decValue. rewrite fold_left_app. apply fold_digits_shift. Qed.

Lemma decValue_zeros k : decValue (repeat "0"%char k) = 0.
Proof.
  induction k as [| k IH]; [reflexivity |].
  change (repeat "0"%char (S k)) with (["0"%char] ++ repeat "0"%char k).
  rewrite decValue_app, IH. reflexivity.
Qed.

Lemma decValue_zeros_Z n : decValue (zeros n) = 0.
Proof. apply decValue_zeros. Qed.

Lemma decValue_strip s : decValue (stripLeadingZeros s) = decValue s.
Proof.
  induction s as [| c s IH]; [reflexivity |]. simpl.
  destruct (Ascii.eqb_spec c "0"%char) as [-> | N]; [| reflexivity].
  rewrite IH. change ("0"%char :: s) with (["0"%char] ++ s).
  rewrite decValue_app. reflexivity.
Qed.

Lemma strip_head s c t : stripLeadingZeros s = c :: t -> Ascii.eqb c "0" = false.
Proof.
  induction s as [| x s IH]; simpl; [discriminate |].
  destruct (Ascii.eqb x "0") eqn:E; [exact IH |].
  intros [= <- <-]. exact E.
Qed.

Lemma orElse_strip_canonical s :
  forallb isDigit s = true -> isBaseUnit (orElse (stripLeadingZeros s) "0") = true.
Proof.
  intros D. pose proof (strip_digits s D) as Ds.
  destruct (stripLeadingZeros s) as [| c t] eqn:E; [reflexivity |].
  simpl orElse. unfold isBaseUnit. apply andb_true_iff. split.
  - apply allDigits_iff. split; [discriminate | exact Ds].
  - destruct t; [reflexivity |]. now rewrite (strip_head s c _ E).
Qed.

Lemma canonical_strip b : isBaseUnit b = true -> orElse (stripLeadingZeros b) "0" = b.
Proof.
  unfold isBaseUnit. intros H. apply andb_true_iff in H. destruct H as [D L].
  destruct b as [| c [| c' t]]; [discriminate | |].
  - simpl. destruct (Ascii.eqb_spec c "0"%char) as [-> | N]; reflexivity.
  - apply negb_true_iff in L. simpl. now rewrite L.
Qed.

Lemma isBaseUnit_inj a b :
  isBaseUnit a = true -> isBaseUnit b = true -> decValue a = decValue b -> a = b.
Proof.
  intros Ha Hb E.
  rewrite <- (toString_decValue a Ha), <- (toString_decValue b Hb). now rewrite E.
Qed.

Lemma orElse_strip_value s : decValue (orElse (stripLeadingZeros s) "0") = decValue s.
Proof.
  rewrite <- (decValue_strip s).
  destruct (stripLeadingZeros s); reflexivity.
Qed.

Lemma toString_canonical n : 0 <= n -> isBaseUnit (toString n) = true.
Proof.
  intros H. destruct (toString_nonneg n H) as [D V].
  pose proof (orElse_strip_canonical _ (allDigits_forallb _ D)) as C.
  pose proof (toString_decValue _ C) as T.
  rewrite orElse_strip_value, V in T. now rewrite T.
Qed.

(** ** Base-unit arithmetic, continued *)

Lemma compareBaseUnits_digits a b :
  allDigits a = true -> allDigits b = true ->
  compareBaseUnits a b = Ok (signOf (decValue a ?= decValue b)).
Proof.
  intros Ha Hb. unfold compareBaseUnits.
  rewrite (BigInt_digits a Ha), (BigInt_digits b Hb). simpl.
  destruct (Z.compare_spec (decValue a) (decValue b)) as [E | L | G]; simpl.
  - rewrite E, Z.ltb_irrefl.
    destruct (Z.gtb_spec (decValue b) (decValue b)); [lia | reflexivity].
  - apply Z.ltb_lt in L. now rewrite L.
  - destruct (Z.ltb_spec (decValue a) (decValue b)); [lia |].
    destruct (Z.gtb_spec (decValue a) (decValue b)); [reflexivity | lia].
Qed.

(** X1: on base-unit strings [compareBaseUnits] is the order of the
    integers: it answers -1, 0 or 1 as the first value is below, equal to
    or above the second, 0 exactly for equal strings, and the opposite
    sign when the arguments are exchanged. *)
Theorem compareBaseUnits_order (a b : jsstring) :
  isBaseUnit a = true -> isBaseUnit b = true ->
  exists c,
    compareBaseUnits a b = Ok c /\
    (c = -1 <-> decValue a < decValue b) /\
    (c = 0 <-> a = b) /\
    (c = 1 <-> decValue b < decValue a) /\
    compareBaseUnits b a = Ok (- c).
Proof.
  intros Ha Hb.
  pose proof (isBaseUnit_allDigits a Ha) as Da.
  pose proof (isBaseUnit_allDigits b Hb) as Db.
  exists (signOf (decValue a ?= decValue b)).
  rewrite (compareBaseUnits_digits a b Da Db), (compareBaseUnits_digits b a Db Da).
  rewrite (Z.compare_antisym (decValue a) (decValue b)).
  destruct (Z.compare_spec (decValue a) (decValue b)) as [E | L | G]; simpl;
    repeat split; try lia; try discriminate; intros H; subst; try lia.
  - now apply isBaseUnit_inj.
Qed.

Lemma compareBaseUnits_order_witness :
  exists c,
    compareBaseUnits "99" "100" = Ok c /\
    (c = -1 <-> decValue "99" < decValue "100") /\
    (c = 0 <-> ("99" : jsstring) = ("100" : jsstring)) /\
    (c = 1 <-> decValue "100" < decValue "99") /\
    compareBaseUnits "100" "99" = Ok (- c).
Proof. apply (compareBaseUnits_order "99" "100"); reflexivity. Defined.

Lemma addBaseUnits_canonical a b r :
  allDigits a = true -> allDigits b = true -> addBaseUnits a b = Ok r ->
  isBaseUnit r = true /\ decValue r = decValue a + decValue b.
Proof.
  intros Ha Hb. rewrite (addBaseUnits_digits a b Ha Hb). intros [= <-].
  pose proof (decValue_nonneg a (allDigits_forallb a Ha)).
  pose proof (decValue_nonneg b (allDigits_forallb b Hb)).
  split; [apply toString_canonical; lia | apply toString_nonneg; lia].
Qed.

(** X2: on strings of digits [addBaseUnits] is commutative and
    associative, its result is a base-unit string whose value is the sum,
    and "0" is neutral on base-unit strings. *)
Theorem addBaseUnits_monoid (a b c : jsstring) :
  allDigits a = true -> allDigits b = true -> allDigits c = true ->
  addBaseUnits a b = addBaseUnits b a /\
  (s <- addBaseUnits a b ;; addBaseUnits s c) =
  (t <- addBaseUnits b c ;; addBaseUnits a t) /\
  (exists r, addBaseUnits a b = Ok r /\ isBaseUnit r = true /\
             decValue r = decValue a + decValue b) /\
  (isBaseUnit a = true -> addBaseUnits a "0" = Ok a).
Proof.
  intros Ha Hb Hc.
  pose proof (decValue_nonneg a (allDigits_forallb a Ha)) as Pa.
  pose proof (decValue_nonneg b (allDigits_forallb b Hb)) as Pb.
  pose proof (decValue_nonneg c (allDigits_forallb c Hc)) as Pc.
  repeat split.
  - rewrite !addBaseUnits_digits by assumption. now rewrite Z.add_comm.
  - rewrite (addBaseUnits_digits a b), (addBaseUnits_digits b c) by assumption.
    simpl.
    destruct (toString_nonneg (decValue a + decValue b) ltac:(lia)) as [D1 V1].
    destruct (toString_nonneg (decValue b + decValue c) ltac:(lia)) as [D2 V2].
    rewrite !addBaseUnits_digits by assumption. rewrite V1, V2.
    now rewrite Z.add_assoc.
  - rewrite addBaseUnits_digits by assumption. eexists. split; [reflexivity |].
    split; [apply toString_canonical; lia | apply toString_nonneg; lia].
  - intros Ca. rewrite addBaseUnits_digits by (assumption || reflexivity).
    change (decValue (list_ascii_of_string "0")) with 0.
    now rewrite Z.add_0_r, toString_decValue.
Qed.

Lemma addBaseUnits_monoid_witness :
  addBaseUnits "15" "007" = addBaseUnits "007" "15" /\
  (s <- addBaseUnits "15" "007" ;; addBaseUnits s "1000") =
  (t <- addBaseUnits "007" "1000" ;; addBaseUnits "15" t) /\
  (exists r, addBaseUnits "15" "007" = Ok r /\ isBaseUnit r = true /\
             decValue r = decValue "15" + decValue "007") /\
  (isBaseUnit "15" = true -> addBaseUnits "15" "0" = Ok ("15" : jsstring)).
Proof. apply (addBaseUnits_monoid "15" "007" "1000"); reflexivity. Defined.

(** X3: when the value of [b] does not exceed that of [a], adding [b] to
    the difference of [a] and [b] gives back [a]; the difference is a
    base-unit string whose value is the difference of the values, or zero
    when [b] is the larger. *)
Theorem add_subtract_inverse (a b : jsstring) :
  isBaseUnit a = true -> isBaseUnit b = true ->
  (exists r, subtractBaseUnits a b = Ok r /\ isBaseUnit r = true /\
             decValue r = Z.max 0 (decValue a - decValue b)) /\
  (decValue b <= decValue a ->
   (diff <- subtractBaseUnits a b ;; addBaseUnits diff b) = Ok a).
Proof.
  intros Ca Cb.
  pose proof (isBaseUnit_allDigits a Ca) as Da.
  pose proof (isBaseUnit_allDigits b Cb) as Db.
  rewrite (subtractBaseUnits_digits a b Da Db).
  split.
  - eexists. split; [reflexivity |].
    destruct (Z.ltb_spec (decValue a - decValue b) 0) as [L | L].
    + split; [reflexivity |]. rewrite Z.max_l by lia. reflexivity.
    + rewrite Z.max_r by lia.
      split; [apply toString_canonical; lia | apply toString_nonneg; lia].
  - intros L. destruct (Z.ltb_spec (decValue a - decValue b) 0); [lia |]. simpl.
    destruct (toString_nonneg (decValue a - decValue b) ltac:(lia)) as [D V].
    rewrite (addBaseUnits_digits _ b D Db), V.
    replace (decValue a - decValue b + decValue b) with (decValue a) by lia.
    now rewrite toString_decValue.
Qed.

Lemma add_subtract_inverse_witness :
  (exists r, subtractBaseUnits "1000" "1" = Ok r /\ isBaseUnit r = true /\
             decValue r = Z.max 0 (decValue "1000" - decValue "1")) /\
  (decValue "1" <= decValue "1000" ->
   (diff <- subtractBaseUnits "1000" "1" ;; addBaseUnits diff "1")
   = Ok ("1000" : jsstring)).
Proof. apply (add_subtract_inverse "1000" "1"); reflexivity. Defined.

(** ** Unit conversion, continued *)

(** X4: whatever the input, a result of [toBaseUnits] is a base-unit
    string (digits only, no superfluous leading zero), and every failure
    is a [SmartRewardsError]. *)
Theorem toBaseUnits_canonical (decimalAmount : jsstring) (decimals : Z) :
  match toBaseUnits decimalAmount decimals with
  | Ok baseUnits => isBaseUnit baseUnits = true
  | Err e => e = SmartRewardsError
  end.
Proof.
  destruct (toBaseUnits decimalAmount decimals) as [b | e] eqn:E;
    [| eapply toBaseUnits_err; eauto].
  pose proof (toBaseUnits_ok_digits _ _ _ E) as D.
  unfold toBaseUnits in E.
  destruct (isEmpty decimalAmount || isNaN (parseFloat decimalAmount));
    [discriminate |].
  destruct ((decimals <? 0) || (decimals >? 77)); [discriminate |].
  cbv zeta in E. destruct (negb (allDigits _)); simpl in E; [discriminate |].
  injection E as <-.
  set (x := nth 0 (splitDot decimalAmount) [] ++ _) in *.
  unfold isBaseUnit. rewrite D. simpl.
  destruct (stripLeadingZeros x) as [| c [| c' t]] eqn:S; try reflexivity.
  simpl. now rewrite (strip_head x c _ S).
Qed.

Lemma forallb_firstn {A} (p : A -> bool) n l :
  forallb p l = true -> forallb p (firstn n l) = true.
Proof.
  revert l. induction n as [| n IH]; intros [| x l] H; simpl; auto.
  simpl in H. apply andb_true_iff in H. destruct H as [-> H]. simpl. auto.
Qed.

Lemma forallb_skipn {A} (p : A -> bool) n l :
  forallb p l = true -> forallb p (skipn n l) = true.
Proof.
  revert l. induction n as [| n IH]; intros [| x l] H; simpl; auto.
  simpl in H. apply andb_true_iff in H. destruct H as [_ H]. auto.
Qed.

Lemma toBaseUnits_parts_any s w f d :
  (exists c t, s = c :: t /\ isDigit c = true) ->
  nth 0 (splitDot s) [] = w -> nth 1 (splitDot s) [] = f ->
  forallb isDigit w = true -> forallb isDigit f = true ->
  0 <= d <= 77 ->
  toBaseUnits s d =
  Ok (orElse (stripLeadingZeros (w ++ sliceTo (padEnd0 f d) d)) "0").
Proof.
  intros (c & t & -> & Hc) Hw Hf Dw Df R.
  unfold toBaseUnits. rewrite (parseFloat_digit c t Hc). simpl orb.
  destruct (Z.ltb_spec d 0); [lia |]. destruct (Z.gtb_spec d 77); [lia |].
  cbv zeta. rewrite Hw, Hf.
  rewrite orElse_digits; [reflexivity | | reflexivity].
  apply strip_digits. rewrite forallb_app, Dw. simpl.
  unfold sliceTo, padEnd0. apply forallb_firstn.
  rewrite forallb_app, Df. apply forallb_zeros.
Qed.

Lemma toBaseUnits_dotted w f d :
  allDigits w = true -> forallb isDigit f = true -> 0 <= d <= 77 ->
  toBaseUnits (w ++ "."%char :: f) d =
  Ok (orElse (stripLeadingZeros (w ++ sliceTo (padEnd0 f d) d)) "0").
Proof.
  intros Hw Df R. apply allDigits_iff in Hw. destruct Hw as [NE Dw].
  destruct w as [| c t]; [congruence |].
  apply toBaseUnits_parts_any; auto.
  - exists c, (t ++ "."%char :: f). split; [reflexivity |].
    simpl in Dw. now apply andb_true_iff in Dw.
  - now rewrite splitDot_app.
  - now rewrite splitDot_app, splitDot_digits.
Qed.

Lemma toBaseUnits_plain w d :
  allDigits w = true -> 0 <= d <= 77 ->
  toBaseUnits w d = Ok (orElse (stripLeadingZeros (w ++ zeros d)) "0").
Proof.
  intros Hw R. apply allDigits_iff in Hw. destruct Hw as [NE Dw].
  destruct w as [| c t]; [congruence |].
  rewrite (toBaseUnits_parts_any (c :: t) (c :: t) [] d); auto.
  - destruct (padded_fraction [] d) as [-> _]; [change (len []) with 0; lia |].
    change (len []) with 0. now rewrite Z.sub_0_r.
  - exists c, t. split; [reflexivity |]. simpl in Dw. now apply andb_true_iff in Dw.
  - now rewrite splitDot_digits.
  - now rewrite splitDot_digits.
Qed.

(** X5: for a decimal string with whole part [whole] and at most
    [decimals] fractional digits [frac], the value of the base units is
    the value of the decimal string scaled by ten to the precision:
    [whole * 10^d + frac * 10^(d - |frac|)]; without a dot it is
    [whole * 10^d]. *)
Theorem toBaseUnits_value (whole frac : jsstring) (d : Z) :
  allDigits whole = true -> forallb isDigit frac = true ->
  len frac <= d -> 0 <= d <= 77 ->
  (exists b, toBaseUnits (whole ++ "."%char :: frac) d = Ok b /\
             decValue b = decValue whole * 10 ^ d
                          + decValue frac * 10 ^ (d - len frac)) /\
  (exists b, toBaseUnits whole d = Ok b /\ decValue b = decValue whole * 10 ^ d).
Proof.
  intros Hw Df L R. split.
  - rewrite (toBaseUnits_dotted whole frac d Hw Df R).
    eexists. split; [reflexivity |].
    destruct (padded_fraction frac d L) as [-> LF].
    rewrite orElse_strip_value, decValue_app, LF, decValue_app.
    rewrite decValue_zeros_Z, len_zeros by lia. ring.
  - rewrite (toBaseUnits_plain whole d Hw R).
    eexists. split; [reflexivity |].
    rewrite orElse_strip_value, decValue_app.
    rewrite decValue_zeros_Z, len_zeros by lia. ring.
Qed.

Lemma toBaseUnits_value_witness :
  (exists b, toBaseUnits "12.345" 6 = Ok b /\
             decValue b = decValue "12" * 10 ^ 6 + decValue "345" * 10 ^ (6 - len "345")) /\
  (exists b, toBaseUnits "12" 6 = Ok b /\ decValue b = decValue "12" * 10 ^ 6).
Proof.
  apply (toBaseUnits_value "12" "345" 6);
    [reflexivity | reflexivity | vm_compute; discriminate | lia].
Defined.

Lemma slice_pad_slice f d :
  0 <= d -> sliceTo (padEnd0 (sliceTo f d) d) d = sliceTo (padEnd0 f d) d.
Proof.
  intros H. unfold sliceTo, padEnd0, zeros, len.
  destruct (Nat.le_gt_cases (List.length f) (Z.to_nat d)) as [L | G].
  - now rewrite (firstn_all2 f L).
  - rewrite length_firstn, Nat.min_l by lia.
    replace (Z.to_nat (d - Z.of_nat (Z.to_nat d))) with 0%nat by lia.
    replace (Z.to_nat (d - Z.of_nat (List.length f))) with 0%nat by lia.
    simpl. rewrite !app_nil_r. rewrite firstn_firstn. now rewrite Nat.min_id.
Qed.

(** X6: fractional digits beyond the precision are discarded, never
    rounded: converting [whole.frac] gives the same base units as
    converting [whole.frac'] where [frac'] is [frac] cut to [decimals]
    digits. *)
Theorem toBaseUnits_truncates (whole frac : jsstring) (d : Z) :
  allDigits whole = true -> forallb isDigit frac = true -> 0 <= d <= 77 ->
  toBaseUnits (whole ++ "."%char :: frac) d =
  toBaseUnits (whole ++ "."%char :: sliceTo frac d) d.
Proof.
  intros Hw Df R.
  rewrite (toBaseUnits_dotted whole frac d Hw Df R).
  rewrite (toBaseUnits_dotted whole (sliceTo frac d) d Hw); [| | exact R].
  - now rewrite slice_pad_slice by lia.
  - unfold sliceTo. now apply forallb_firstn.
Qed.

Lemma toBaseUnits_truncates_witness :
  toBaseUnits "1.23456789" 4 = toBaseUnits "1.2345" 4.
Proof.
  apply (toBaseUnits_truncates "1" "23456789" 4); [reflexivity | reflexivity | lia].
Defined.

Lemma stripTrailing_digits s :
  forallb isDigit s = true -> forallb isDigit (stripTrailingZeros s) = true.
Proof.
  intros H. unfold stripTrailingZeros.
  rewrite forallb_forall in *. intros x I. apply in_rev in I.
  assert (forallb isDigit (stripLeadingZeros (rev s)) = true) as D.
  { apply strip_digits. apply forallb_forall. intros y J. apply H.
    now apply in_rev. }
  rewrite forallb_forall in D. now apply D.
Qed.

Lemma trailing_restore F :
  exists k, F = stripTrailingZeros F ++ repeat "0"%char k.
Proof.
  unfold stripTrailingZeros. destruct (strip_decompose (rev F)) as [k E].
  exists k. rewrite <- (rev_involutive F) at 1. rewrite E at 1.
  now rewrite rev_app_distr, rev_repeat'.
Qed.

Lemma pad_trailing F d :
  len F = d -> sliceTo (padEnd0 (stripTrailingZeros F) d) d = F.
Proof.
  intros L. destruct (trailing_restore F) as [k E].
  assert (len F = len (stripTrailingZeros F) + Z.of_nat k) as LF.
  { rewrite E at 1. rewrite len_app. unfold len at 2. now rewrite repeat_length. }
  unfold padEnd0, zeros.
  replace (Z.to_nat (d - len (stripTrailingZeros F))) with k by lia.
  rewrite <- E. unfold sliceTo. apply firstn_all2. unfold len in L. lia.
Qed.

Lemma toBaseUnits_fromBaseUnits_digits b d :
  isBaseUnit b = true -> 0 <= d <= 77 ->
  (s <- fromBaseUnits b d ;; toBaseUnits s d) = Ok b.
Proof.
  intros Cb R. pose proof (isBaseUnit_allDigits b Cb) as Db.
  pose proof (allDigits_forallb b Db) as Fb.
  unfold fromBaseUnits. rewrite Db.
  replace (isEmpty b) with false by (destruct b; [discriminate Db | reflexivity]).
  simpl orb. destruct (Z.ltb_spec d 0); [lia |]. destruct (Z.gtb_spec d 77); [lia |].
  simpl orb. cbv iota.
  destruct (Z.eqb_spec d 0) as [-> | NZ].
  - simpl. rewrite (toBaseUnits_plain b 0 Db) by lia.
    change (zeros 0) with (@nil ascii). rewrite app_nil_r.
    now rewrite canonical_strip.
  - cbv zeta.
    set (padded := padStart0 b (d + 1)).
    assert (forallb isDigit padded = true) as Dp.
    { subst padded. unfold padStart0, zeros. rewrite forallb_app, Fb.
      now rewrite forallb_zeros. }
    assert (d + 1 <= len padded) as Lp.
    { subst padded. unfold padStart0. rewrite len_app.
      pose proof (len_nonneg b).
      destruct (Z.le_gt_cases (d + 1) (len b)) as [G | G].
      - unfold zeros. replace (Z.to_nat (d + 1 - len b)) with 0%nat by lia.
        change (len (repeat "0"%char 0)) with 0. lia.
      - rewrite len_zeros by lia. lia. }
    set (n := len padded - d).
    set (W := sliceTo padded n). set (F := sliceFrom padded n).
    assert (W ++ F = padded) as WF by apply firstn_skipn.
    assert (len W = n) as LW.
    { subst W. unfold sliceTo, len. rewrite length_firstn.
      unfold len in Lp. subst n. unfold len. lia. }
    assert (len F = d) as LF.
    { pose proof (f_equal len WF) as E. rewrite len_app, LW in E. subst n. lia. }
    assert (forallb isDigit W = true) as DW by (now apply forallb_firstn).
    assert (forallb isDigit F = true) as DF by (now apply forallb_skipn).
    assert (W <> []) as NW.
    { intros E. rewrite E in LW. change (len []) with 0 in LW. subst n. lia. }
    rewrite (orElse_nonempty W) by exact NW.
    assert (allDigits W = true) as AW by (apply allDigits_iff; now split).
    assert (orElse (stripLeadingZeros (W ++ F)) "0" = b) as Fin.
    { rewrite WF. subst padded. unfold padStart0, zeros.
      rewrite strip_zeros_app. now apply canonical_strip. }
    pose proof (stripTrailing_digits F DF) as DT.
    pose proof (pad_trailing F d LF) as PT.
    destruct (stripTrailingZeros F) as [| c t] eqn:ET; simpl isEmpty; cbv iota;
      simpl bind.
    + destruct W as [| c0 t0]; [congruence |].
      rewrite (toBaseUnits_parts_any (c0 :: t0) (c0 :: t0) [] d); auto.
      * now rewrite PT, Fin.
      * exists c0, t0. split; [reflexivity |].
        simpl in DW. now apply andb_true_iff in DW.
      * now rewrite splitDot_digits.
      * now rewrite splitDot_digits.
    + rewrite (toBaseUnits_dotted W (c :: t) d AW DT) by lia.
      now rewrite PT, Fin.
Qed.

(** X7: formatting a base-unit string and converting the result back
    gives the same base-unit string, for every precision between 0 and
    77: the decimal display loses nothing. *)
Theorem toBaseUnits_fromBaseUnits (baseUnits : jsstring) (decimals : Z) :
  isBaseUnit baseUnits = true -> 0 <= decimals <= 77 ->
  (s <- fromBaseUnits baseUnits decimals ;; toBaseUnits s decimals) = Ok baseUnits.
Proof. apply toBaseUnits_fromBaseUnits_digits. Qed.

Lemma toBaseUnits_fromBaseUnits_witness :
  (s <- fromBaseUnits "12345000" 6 ;; toBaseUnits s 6) = Ok ("12345000" : jsstring).
Proof. apply (toBaseUnits_fromBaseUnits "12345000" 6); [reflexivity | lia]. Defined.

(** ** Reconciliation, continued *)

Lemma performCalculations_facts proofs claims c d r :
  performCalculations proofs claims c d = Ok r ->
  exists eligible claimed,
    0 <= eligible /\ 0 <= claimed /\
    totalEligible r = toString eligible /\
    totalClaimed r = toString claimed /\
    remaining r = toString (Z.max 0 (eligible - claimed)) /\
    canClaim r = (0 <? eligible - claimed).
Proof.
  rewrite performCalculations_reconciliation. unfold reconciliation.
  destruct (sumOfBaseUnits (map ClaimProof.amount proofs) d) as [e |] eqn:Ee;
    simpl; [| discriminate].
  destruct (sumOfBaseUnits (map ClaimReward.amount _) d) as [cl |] eqn:Ec;
    simpl; [| discriminate].
  intros [= <-]. exists e, cl. simpl.
  pose proof (sumOfBaseUnits_nonneg _ _ _ Ee).
  pose proof (sumOfBaseUnits_nonneg _ _ _ Ec). auto 10.
Qed.

Lemma toString_zero_iff n : 0 <= n -> (toString n = ("0" : jsstring) <-> n = 0).
Proof.
  intros H. split; [| intros ->; reflexivity].
  intros E. destruct (toString_nonneg n H) as [_ V]. rewrite E in V.
  symmetry. exact V.
Qed.

(** X8: a result of [performCalculations] consists of base-unit strings;
    the value of [remaining] is that of [totalEligible] minus that of
    [totalClaimed], or zero when more was claimed, so it never exceeds
    [totalEligible]; [canClaim] holds exactly when the eligible total
    exceeds the claimed one, and fails exactly when [remaining] is "0". *)
Theorem performCalculations_invariants proofs claims (c d : Z) r :
  performCalculations proofs claims c d = Ok r ->
  isBaseUnit (totalEligible r) = true /\
  isBaseUnit (totalClaimed r) = true /\
  isBaseUnit (remaining r) = true /\
  decValue (remaining r) =
    Z.max 0 (decValue (totalEligible r) - decValue (totalClaimed r)) /\
  decValue (remaining r) <= decValue (totalEligible r) /\
  (canClaim r = true <-> decValue (totalClaimed r) < decValue (totalEligible r)) /\
  (canClaim r = false <-> remaining r = ("0" : jsstring)).
Proof.
  intros H. destruct (performCalculations_facts _ _ _ _ _ H)
    as (e & cl & Pe & Pc & -> & -> & -> & ->).
  destruct (toString_nonneg e Pe) as [_ Ve].
  destruct (toString_nonneg cl Pc) as [_ Vc].
  destruct (toString_nonneg (Z.max 0 (e - cl)) ltac:(lia)) as [_ Vr].
  rewrite Ve, Vc, Vr.
  split; [apply toString_canonical; lia |].
  split; [apply toString_canonical; lia |].
  split; [apply toString_canonical; lia |].
  split; [lia |]. split; [lia |]. split.
  - rewrite Z.ltb_lt. lia.
  - split; intros T.
    + apply Z.ltb_ge in T. apply toString_zero_iff; lia.
    + apply toString_zero_iff in T; [| lia]. apply Z.ltb_ge. lia.
Qed.

Lemma performCalculations_invariants_witness :
  isBaseUnit "150" = true /\ isBaseUnit "25" = true /\ isBaseUnit "125" = true /\
  decValue "125" = Z.max 0 (decValue "150" - decValue "25") /\
  decValue "125" <= decValue "150" /\
  (true = true <-> decValue "25" < decValue "150") /\
  (true = false <-> ("125" : jsstring) = ("0" : jsstring)).
Proof.
  apply (performCalculations_invariants
           [sampleProof 7 "1.5"] [sampleClaim "7" "0.25"; sampleClaim "8" "9"] 7 2
           {| totalEligible := "150"; totalClaimed := "25";
              remaining := "125"; canClaim := true |}).
  reflexivity.
Defined.

Lemma fromBaseUnits_total b d :
  isBaseUnit b = true -> 0 <= d <= 77 ->
  exists s, fromBaseUnits b d = Ok s /\ toBaseUnits s d = Ok b.
Proof.
  intros Cb R. pose proof (toBaseUnits_fromBaseUnits_digits b d Cb R) as H.
  destruct (fromBaseUnits b d) as [s |]; simpl in H; [| discriminate]. eauto.
Qed.

Lemma strip_all_zeros k : stripLeadingZeros (repeat "0"%char k) = [].
Proof. induction k; simpl; auto. Qed.

Lemma toBaseUnits_zero d : 0 <= d <= 77 -> toBaseUnits "0" d = Ok ("0" : jsstring).
Proof.
  intros R. rewrite (toBaseUnits_plain "0" d eq_refl R).
  assert (forall X, stripLeadingZeros (list_ascii_of_string "0" ++ X)
                    = stripLeadingZeros X) as E by reflexivity.
  unfold zeros. now rewrite E, strip_all_zeros.
Qed.

Lemma fromBaseUnits_zero d : 0 <= d <= 77 -> fromBaseUnits "0" d = Ok ("0" : jsstring).
Proof.
  intros R.
  pose proof (fromBaseUnits_parts "0" [] d eq_refl eq_refl
                ltac:(change (len []) with 0; lia) R) as H.
  assert (forall X, stripLeadingZeros (list_ascii_of_string "0" ++ [] ++ X)
                    = stripLeadingZeros X) as E by reflexivity.
  unfold zeros in H. rewrite E, strip_all_zeros in H. exact H.
Qed.

Lemma formatCalculations_performed proofs claims (c d : Z) r :
  0 <= d <= 77 ->
  performCalculations proofs claims c d = Ok r ->
  exists formatted,
    formatCalculations r d = Ok formatted /\
    canClaim formatted = canClaim r /\
    toBaseUnits (totalEligible formatted) d = Ok (totalEligible r) /\
    toBaseUnits (totalClaimed formatted) d = Ok (totalClaimed r) /\
    toBaseUnits (remaining formatted) d = Ok (remaining r) /\
    (canClaim r = false <-> remaining formatted = ("0" : jsstring)).
Proof.
  intros R H. destruct (performCalculations_facts _ _ _ _ _ H)
    as (e & cl & Pe & Pc & He & Hc & Hr & Hb).
  destruct (fromBaseUnits_total (toString e) d (toString_canonical e Pe) R)
    as (se & Fe & Te).
  destruct (fromBaseUnits_total (toString cl) d (toString_canonical cl Pc) R)
    as (sc & Fc & Tc).
  destruct (fromBaseUnits_total (toString (Z.max 0 (e - cl))) d
              (toString_canonical _ (Z.le_max_l 0 (e - cl))) R)
    as (sr & Fr & Tr).
  unfold formatCalculations. rewrite He, Hc, Hr, Fe, Fc, Fr. simpl.
  eexists. split; [reflexivity |]. simpl.
  do 4 (split; [auto |]). split.
  - rewrite Hb. intros T. apply Z.ltb_ge in T.
    replace (Z.max 0 (e - cl)) with 0 in Fr by lia.
    change (toString 0) with (list_ascii_of_string "0") in Fr.
    rewrite fromBaseUnits_zero in Fr by exact R. now injection Fr as <-.
  - intros ->. rewrite toBaseUnits_zero in Tr by exact R. injection Tr as Tr.
    symmetry in Tr. apply toString_zero_iff in Tr; [| lia].
    rewrite Hb. apply Z.ltb_ge. lia.
Qed.

(** X9: for a precision between 0 and 77, [formatCalculations] never
    raises on a result of [performCalculations]; it keeps [canClaim], each
    formatted total converts back to the total it displays, and the
    displayed remaining amount is "0" exactly when [canClaim] is false. *)
Theorem formatCalculations_after_performCalculations proofs claims (c d : Z) r :
  0 <= d <= 77 ->
  performCalculations proofs claims c d = Ok r ->
  exists formatted,
    formatCalculations r d = Ok formatted /\
    canClaim formatted = canClaim r /\
    toBaseUnits (totalEligible formatted) d = Ok (totalEligible r) /\
    toBaseUnits (totalClaimed formatted) d = Ok (totalClaimed r) /\
    toBaseUnits (remaining formatted) d = Ok (remaining r) /\
    (canClaim r = false <-> remaining formatted = ("0" : jsstring)).
Proof. apply formatCalculations_performed. Qed.

Lemma formatCalculations_after_performCalculations_witness :
  exists formatted,
    formatCalculations
      {| totalEligible := "150"; totalClaimed := "25";
         remaining := "125"; canClaim := true |} 2 = Ok formatted /\
    canClaim formatted = true /\
    toBaseUnits (totalEligible formatted) 2 = Ok ("150" : jsstring) /\
    toBaseUnits (totalClaimed formatted) 2 = Ok ("25" : jsstring) /\
    toBaseUnits (remaining formatted) 2 = Ok ("125" : jsstring) /\
    (true = false <-> remaining formatted = ("0" : jsstring)).
Proof.
  apply (formatCalculations_after_performCalculations
           [sampleProof 7 "1.5"] [sampleClaim "7" "0.25"; sampleClaim "8" "9"] 7 2
           {| totalEligible := "150"; totalClaimed := "25";
              remaining := "125"; canClaim := true |});
    [lia | reflexivity].
Defined.

Lemma filter_none {A} (p : A -> bool) l :
  forallb (fun x => negb (p x)) l = true -> filter p l = [].
Proof.
  induction l as [| x l IH]; simpl; [reflexivity |].
  intros H. apply andb_true_iff in H. destruct H as [Hx Hl].
  apply negb_true_iff in Hx. rewrite Hx. auto.
Qed.

Lemma filter_idem {A} (p : A -> bool) l : filter p (filter p l) = filter p l.
Proof.
  induction l as [| x l IH]; simpl; [reflexivity |].
  destruct (p x) eqn:E; simpl; [rewrite E; now f_equal | exact IH].
Qed.

Lemma performCalculations_filter proofs claims c d :
  performCalculations proofs (filter (isCampaignClaim c) claims) c d =
  performCalculations proofs claims c d.
Proof.
  unfold performCalculations, calculateTotalClaimed. cbv zeta.
  now rewrite filter_idem.
Qed.

(** X10: historical claims of other campaigns never influence the
    reconciliation of a campaign, even when their amounts are malformed:
    appending them changes neither [calculateTotalClaimed] nor
    [performCalculations], and filtering the claims by campaign
    beforehand, as the fetch for one campaign does, changes nothing. *)
Theorem other_campaigns_ignored proofs claims others (c d : Z) :
  forallb (fun h => negb (isCampaignClaim c h)) others = true ->
  calculateTotalClaimed (claims ++ others) c d = calculateTotalClaimed claims c d /\
  calculateTotalClaimed (others ++ claims) c d = calculateTotalClaimed claims c d /\
  performCalculations proofs (claims ++ others) c d =
  performCalculations proofs claims c d /\
  calculateTotalClaimed (filter (isCampaignClaim c) claims) c d =
  calculateTotalClaimed claims c d /\
  performCalculations proofs (filter (isCampaignClaim c) claims) c d =
  performCalculations proofs claims c d.
Proof.
  intros H. pose proof (filter_none _ _ H) as N.
  unfold performCalculations, calculateTotalClaimed. cbv zeta.
  rewrite !filter_app, N, app_nil_r, filter_idem. simpl app. repeat split.
Qed.

Lemma other_campaigns_ignored_witness :
  calculateTotalClaimed ([sampleClaim "7" "0.25"] ++ [sampleClaim "8" "oops"]) 7 2
  = calculateTotalClaimed [sampleClaim "7" "0.25"] 7 2 /\
  performCalculations [sampleProof 7 "1.5"]
    ([sampleClaim "7" "0.25"] ++ [sampleClaim "8" "oops"]) 7 2
  = performCalculations [sampleProof 7 "1.5"] [sampleClaim "7" "0.25"] 7 2.
Proof.
  destruct (other_campaigns_ignored [sampleProof 7 "1.5"] [sampleClaim "7" "0.25"]
              [sampleClaim "8" "oops"] 7 2 eq_refl) as (A & _ & B & _).
  split; [exact A | exact B].
Defined.

(** ** Record validation, continued *)

Lemma validateClaimProofs_ok_iff records u c :
  validateClaimProofs records u c = Ok tt <->
  forallb (fun p => negb (proofIsRefused u c p)) records = true.
Proof.
  induction records as [| p rest IH]; simpl; [tauto |].
  unfold proofIsRefused at 1.
  destruct (negb (str_eqb _ _)); simpl; [split; discriminate |].
  destruct (negb (_ =? _)); simpl; [split; discriminate |].
  destruct (isEmpty (ClaimProof.proof p)); simpl; [split; discriminate |].
  destruct (isEmpty (ClaimProof.amount p) || numLe _ _); simpl;
    [split; discriminate | exact IH].
Qed.

(** X11: [validateClaimProofs] accepts a batch exactly when it accepts
    each of its records alone; so it accepts two batches put together
    exactly when it accepts both, and the order of the records does not
    matter. *)
Theorem validateClaimProofs_all_or_nothing
  (xs ys : list ClaimProof.t) (u : jsstring) (c : Z) :
  (validateClaimProofs xs u c = Ok tt <->
   forall p, In p xs -> validateClaimProofs [p] u c = Ok tt) /\
  (validateClaimProofs (xs ++ ys) u c = Ok tt <->
   validateClaimProofs xs u c = Ok tt /\ validateClaimProofs ys u c = Ok tt) /\
  (Permutation xs ys ->
   validateClaimProofs xs u c = Ok tt -> validateClaimProofs ys u c = Ok tt).
Proof.
  assert (forall l, validateClaimProofs l u c = Ok tt <->
                    forall p, In p l -> validateClaimProofs [p] u c = Ok tt) as A.
  { intros l. rewrite validateClaimProofs_ok_iff, forallb_forall.
    split; intros H p I; specialize (H p I).
    - apply validateClaimProofs_ok_iff. simpl. now rewrite H.
    - apply validateClaimProofs_ok_iff in H. simpl in H.
      now rewrite andb_true_r in H. }
  split; [apply A |]. split.
  - rewrite !validateClaimProofs_ok_iff, forallb_app. apply andb_true_iff.
  - intros P H. apply A. intros p I. apply (proj1 (A xs) H).
    eapply Permutation_in; [symmetry; exact P | exact I].
Qed.

Lemma validateClaimProofs_all_or_nothing_witness :
  Permutation [sampleProof 1 "5"; sampleProof 1 "7"]
              [sampleProof 1 "7"; sampleProof 1 "5"] /\
  validateClaimProofs [sampleProof 1 "7"; sampleProof 1 "5"] sampleUser 1 = Ok tt.
Proof.
  split; [apply perm_swap |].
  apply (validateClaimProofs_all_or_nothing
           [sampleProof 1 "5"; sampleProof 1 "7"]
           [sampleProof 1 "7"; sampleProof 1 "5"] sampleUser 1);
    [apply perm_swap | reflexivity].
Defined.

Lemma validateHistoricalClaims_ok_iff claims u :
  validateHistoricalClaims claims u = Ok tt <->
  forallb (fun h => negb (refusesClaim u h)) claims = true.
Proof.
  induction claims as [| h rest IH]; simpl; [tauto |].
  unfold refusesClaim at 1.
  destruct (negb (str_eqb _ _)); simpl; [split; discriminate |].
  destruct (isEmpty (ClaimReward.amount h) || numLe _ _); simpl;
    [split; discriminate |].
  destruct (isEmpty (ClaimReward.campaign h) || isNaN _); simpl;
    [split; discriminate | exact IH].
Qed.

(** X12: [validateHistoricalClaims] accepts a list of claims exactly when
    it accepts each claim alone, whatever the order; every failure is a
    [SmartRewardsError]; and an accepted claim has a campaign field that
    [Number] reads as a number, so that the campaign filter of the
    reconciliation can compare it. *)
Theorem validateHistoricalClaims_all_or_nothing
  (xs ys : list ClaimReward.t) (u : jsstring) :
  (validateHistoricalClaims (xs ++ ys) u = Ok tt <->
   validateHistoricalClaims xs u = Ok tt /\ validateHistoricalClaims ys u = Ok tt) /\
  (Permutation xs ys ->
   validateHistoricalClaims xs u = Ok tt -> validateHistoricalClaims ys u = Ok tt) /\
  (validateHistoricalClaims xs u = Ok tt ->
   forall h, In h xs -> isNaN (Number (ClaimReward.campaign h)) = false) /\
  (validateHistoricalClaims xs u = Ok tt \/
   validateHistoricalClaims xs u = Err SmartRewardsError).
Proof.
  split; [| split; [| split]].
  - rewrite !validateHistoricalClaims_ok_iff, forallb_app. apply andb_true_iff.
  - rewrite !validateHistoricalClaims_ok_iff, !forallb_forall.
    intros P H h I. apply H. eapply Permutation_in; [symmetry; exact P | exact I].
  - rewrite validateHistoricalClaims_ok_iff, forallb_forall.
    intros H h I. specialize (H h I). apply negb_true_iff in H.
    unfold refusesClaim in H. apply orb_false_iff in H. destruct H as [_ H].
    apply orb_false_iff in H. tauto.
  - induction xs as [| h rest IH]; simpl; [now left |].
    destruct (negb (str_eqb _ _)); [now right |].
    destruct (isEmpty (ClaimReward.amount h) || numLe _ _); [now right |].
    destruct (isEmpty (ClaimReward.campaign h) || isNaN _); [now right | exact IH].
Qed.

Lemma validateHistoricalClaims_all_or_nothing_witness :
  validateHistoricalClaims [sampleClaim "7" "0.25"; sampleClaim "0x8" "9"] sampleUser
  = Ok tt /\
  isNaN (Number (ClaimReward.campaign (sampleClaim "0x8" "9"))) = false.
Proof.
  split; [reflexivity |].
  apply (validateHistoricalClaims_all_or_nothing
           [sampleClaim "7" "0.25"; sampleClaim "0x8" "9"] [] sampleUser);
    [reflexivity | right; left; reflexivity].
Defined.

(** X13: the two validators of an eligibility record agree: a record that
    [validateProofForClaim] accepts is accepted by [validateClaimProofs]
    for its own campaign, and a record that [validateClaimProofs] accepts
    for a positive campaign identifier is accepted by
    [validateProofForClaim]. *)
Theorem validateProofForClaim_agrees (p : ClaimProof.t) (u : jsstring) (c : Z) :
  (validateProofForClaim p u = Ok tt ->
   validateClaimProofs [p] u (ClaimProof.campaignId p) = Ok tt /\
   0 < ClaimProof.campaignId p) /\
  (0 < c -> validateClaimProofs [p] u c = Ok tt ->
   validateProofForClaim p u = Ok tt).
Proof.
  unfold validateProofForClaim. simpl. split.
  - destruct (negb (str_eqb _ _)); [discriminate |].
    rewrite Z.eqb_refl. simpl.
    destruct (isEmpty (ClaimProof.proof p)); [discriminate |].
    destruct (isEmpty (ClaimProof.amount p) || numLe _ _); [discriminate |].
    destruct (Z.leb_spec (ClaimProof.campaignId p) 0); [discriminate |].
    intros _. split; [reflexivity | lia].
  - intros Hc. destruct (negb (str_eqb _ _)); [discriminate |].
    destruct (Z.eqb_spec (ClaimProof.campaignId p) c) as [-> | N];
      simpl; [| discriminate].
    destruct (isEmpty (ClaimProof.proof p)); [discriminate |].
    destruct (isEmpty (ClaimProof.amount p) || numLe _ _); [discriminate |].
    intros _. destruct (Z.leb_spec c 0); [lia | reflexivity].
Qed.

Lemma validateProofForClaim_agrees_witness :
  validateProofForClaim (sampleProof 3 "5") sampleUser = Ok tt /\
  validateClaimProofs [sampleProof 3 "5"] sampleUser 3 = Ok tt.
Proof.
  destruct (validateProofForClaim_agrees (sampleProof 3 "5") sampleUser 3) as [A B].
  split; [apply B; [lia | reflexivity] | apply A; reflexivity].
Defined.

(** ** On-chain bound, continued *)

Lemma validateAmountsForOnChain_forallb amounts :
  validateAmountsForOnChain amounts = forallb onChainSafeb amounts.
Proof.
  unfold validateAmountsForOnChain.
  induction amounts as [| a rest IH]; simpl; [reflexivity |].
  unfold onChainSafeb at 1.
  destruct (BigInt a) as [v |]; cbn [bind]; [| reflexivity].
  rewrite Z.gtb_ltb, (Z.leb_antisym v 0), (Z.leb_antisym MAX_UINT256 v).
  destruct (v <? 0); [reflexivity |].
  destruct (MAX_UINT256 <? v); [reflexivity | exact IH].
Qed.

(** X14: [validateAmountsForOnChain] judges every amount on its own: the
    answer for two lists put together is the conjunction of the answers,
    the order of the amounts does not matter, and for a string of digits
    the answer is whether its value is at most 2^256 - 1. *)
Theorem validateAmountsForOnChain_compositional (xs ys : list jsstring) :
  validateAmountsForOnChain (xs ++ ys)
  = validateAmountsForOnChain xs && validateAmountsForOnChain ys /\
  (Permutation xs ys ->
   validateAmountsForOnChain xs = validateAmountsForOnChain ys) /\
  (forall b, allDigits b = true ->
             validateAmountsForOnChain [b] = (decValue b <=? MAX_UINT256)).
Proof.
  split; [| split].
  - rewrite !validateAmountsForOnChain_forallb. apply forallb_app.
  - rewrite !validateAmountsForOnChain_forallb.
    intros P. induction P as [| x l l' P IH | x y l | l l' l'' P1 IH1 P2 IH2]; simpl.
    + reflexivity.
    + now rewrite IH.
    + now rewrite !andb_assoc, (andb_comm (onChainSafeb y)).
    + now rewrite IH1.
  - intros b D. rewrite validateAmountsForOnChain_forallb. simpl.
    unfold onChainSafeb. rewrite (BigInt_digits b D), andb_true_r.
    pose proof (decValue_nonneg b (allDigits_forallb b D)) as N.
    destruct (Z.leb_spec 0 (decValue b)); [reflexivity | lia].
Qed.

Lemma validateAmountsForOnChain_compositional_witness :
  validateAmountsForOnChain [two_pow_256_literal] = false /\
  validateAmountsForOnChain ["7" : jsstring; "0x10" : jsstring]
  = validateAmountsForOnChain ["0x10" : jsstring; "7" : jsstring].
Proof.
  destruct (validateAmountsForOnChain_compositional
              ["7" : jsstring; "0x10" : jsstring] ["0x10" : jsstring; "7" : jsstring])
    as (_ & P & V).
  split; [rewrite V; reflexivity | apply P, perm_swap].
Defined.

(** ** Claim arguments, continued *)

Lemma radixDigit_dot radix : radixDigit radix "." = None.
Proof. unfold radixDigit. simpl. now rewrite Z.ltb_irrefl. Qed.

Lemma parseRadixAcc_dot radix s acc :
  In "."%char s -> parseRadixAcc radix acc s = None.
Proof.
  revert acc. induction s as [| c s IH]; intros acc I; [destruct I |].
  simpl. destruct I as [-> | I]; [now rewrite radixDigit_dot |].
  destruct (radixDigit radix c); [now apply IH | reflexivity].
Qed.

Lemma parseRadix_dot radix s : In "."%char s -> parseRadix radix s = None.
Proof.
  intros I. destruct s as [| c s]; [destruct I |].
  unfold parseRadix. now apply parseRadixAcc_dot.
Qed.

Lemma parseIntegerLiteral_dot s : In "."%char s -> parseIntegerLiteral s = None.
Proof.
  intros I. unfold parseIntegerLiteral.
  destruct (hasRadixPrefix s) eqn:H.
  - unfold hasRadixPrefix in H. unfold parseNonDecimalLiteral.
    destruct s as [| c [| p digits]]; try discriminate H;
      try (destruct c as [[] [] [] [] [] [] [] []]; discriminate H).
    destruct c as [[] [] [] [] [] [] [] []]; try discriminate H.
    destruct (radixOfPrefix p) eqn:R; [| reflexivity].
    apply parseRadix_dot.
    destruct I as [E | [-> | I]]; [discriminate E | vm_compute in R; discriminate R | exact I].
  - destruct s as [| c s']; [destruct I |].
    assert (parseRadix 10 (c :: s') = None) as G by now apply parseRadix_dot.
    destruct c as [[] [] [] [] [] [] [] []]; try exact G;
      (destruct I as [E | I]; [discriminate E |]);
      rewrite (parseRadix_dot 10 s' I); reflexivity.
Qed.

Lemma In_trimStart c s : In c s -> isWhiteSpace c = false -> In c (trimStart s).
Proof.
  intros I W. induction s as [| x s IH]; [destruct I |].
  simpl. destruct (isWhiteSpace x) eqn:X; [| exact I].
  destruct I as [-> | I]; [congruence | now apply IH].
Qed.

Lemma In_trim c s : In c s -> isWhiteSpace c = false -> In c (trim s).
Proof.
  intros I W. unfold trim, trimEnd. apply in_rev. rewrite rev_involutive.
  apply In_trimStart; [| exact W]. apply -> in_rev. now apply In_trimStart.
Qed.

Lemma BigInt_dot s : In "."%char s -> BigInt s = Err SyntaxError.
Proof.
  intros I. unfold BigInt.
  pose proof (In_trim "." s I eq_refl) as T.
  destruct (trim s) as [| c t]; [destruct T |].
  now rewrite (parseIntegerLiteral_dot _ T).
Qed.

(** X15: [prepareClaimArgs] passes the amounts on as they are, without a
    conversion to base units: a batch with a record whose amount has a
    decimal point is refused with a [ClaimError], and so is each of the
    two claim entry points, before anything is submitted. *)
Theorem prepareClaimArgs_refuses_decimal_point
  (World Receipt : Type)
  (executeClaim : Z -> SmartRewarderClaimArgs -> World -> result Receipt * World)
  (chainId : Z) (records : list ClaimProof.t) (p : ClaimProof.t) (w : World) :
  In p records -> In "."%char (ClaimProof.amount p) ->
  prepareClaimArgs records = Err ClaimError /\
  claimBatch World Receipt executeClaim chainId records w = (Err ClaimError, w) /\
  claimSingle World Receipt executeClaim chainId p w = (Err ClaimError, w).
Proof.
  intros I D.
  assert (forall l, In p l -> prepareClaimArgs l = Err ClaimError) as G.
  { intros l Il. rewrite prepareClaimArgs_eq.
    replace (validateAmountsForOnChain (map ClaimProof.amount l)) with false;
      [now rewrite andb_false_r |].
    symmetry. rewrite validateAmountsForOnChain_forallb.
    apply not_true_is_false. intros F. rewrite forallb_forall in F.
    specialize (F (ClaimProof.amount p) (in_map _ _ _ Il)).
    unfold onChainSafeb in F. now rewrite (BigInt_dot _ D) in F. }
  split; [now apply G |]. split.
  - unfold claimBatch. rewrite (G records I).
    now destruct (List.length records =? 0)%nat.
  - unfold claimSingle. now rewrite (G [p] (or_introl eq_refl)).
Qed.

Lemma prepareClaimArgs_refuses_decimal_point_witness :
  prepareClaimArgs [sampleProof 1 "5"; sampleProof 1 "12.5"] = Err ClaimError.
Proof.
  apply (prepareClaimArgs_refuses_decimal_point unit unit
           (fun _ _ w => (Ok tt, w)) 146
           [sampleProof 1 "5"; sampleProof 1 "12.5"] (sampleProof 1 "12.5") tt).
  - right. left. reflexivity.
  - right. right. left. reflexivity.
Defined.

(** X16: the claim entry point of [SmartRewardsClient] treats one record
    and several records alike: [claimSingle] of a record is [claimBatch]
    of the list of that record, and a configured client either raises
    before anything is submitted (no record: [SmartRewardsError]; records
    that [prepareClaimArgs] refuses: its error), leaving the chain as it
    was, or submits exactly the arguments that [prepareClaimArgs] built.
    A client without on-chain configuration submits nothing. *)
Theorem clientExecuteClaim_dispatch
  (World Receipt : Type)
  (executeClaim : Z -> SmartRewarderClaimArgs -> World -> result Receipt * World)
  (chainId : Z) (records : list ClaimProof.t) (w : World) :
  (forall p, claimSingle World Receipt executeClaim chainId p w
             = claimBatch World Receipt executeClaim chainId [p] w) /\
  clientExecuteClaim World Receipt executeClaim false chainId records w
  = (Err SmartRewardsError, w) /\
  clientExecuteClaim World Receipt executeClaim true chainId records w
  = match records with
    | [] => (Err SmartRewardsError, w)
    | _ => match prepareClaimArgs records with
           | Ok claimArgs => executeClaim chainId claimArgs w
           | Err e => (Err e, w)
           end
    end.
Proof.
  split; [reflexivity |]. split; [reflexivity |].
  unfold clientExecuteClaim. simpl negb. cbv iota.
  destruct records as [| p [| q rest]]; reflexivity.
Qed.

(** ** Contract addresses *)

(** X17: after [updateConfig], [getContractAddress] answers with the new
    address for a chain that the update mentions and with the former
    answer for every other chain; an update by an empty address leaves
    the chain without a contract, whatever was configured before; and
    applying the same update twice changes nothing more. *)
Theorem updateConfig_getContractAddress
  (old new : SmartRewarderConfig) (chainId : Z) :
  (new chainId = None ->
   getContractAddress (updateConfig old new) chainId = getContractAddress old chainId) /\
  (forall a, new chainId = Some a -> a <> [] ->
             getContractAddress (updateConfig old new) chainId = Ok a) /\
  (new chainId = Some [] ->
   getContractAddress (updateConfig old new) chainId = Err SmartRewardsError) /\
  getContractAddress (updateConfig (updateConfig old new) new) chainId
  = getContractAddress (updateConfig old new) chainId.
Proof.
  unfold getContractAddress, updateConfig.
  split; [| split; [| split]].
  - now intros ->.
  - intros a -> N. destruct a; [contradiction | reflexivity].
  - now intros ->.
  - destruct (new chainId); reflexivity.
Qed.

Lemma updateConfig_getContractAddress_witness :
  getContractAddress
    (updateConfig (fun _ => None)
       (fun chain => if chain =? 146 then Some samplePool else None)) 146
  = Ok samplePool.
Proof.
  destruct (updateConfig_getContractAddress (fun _ => None)
              (fun chain => if chain =? 146 then Some samplePool else None) 146)
    as (_ & A & _).
  apply (A samplePool); [reflexivity | discriminate].
Defined.

(** ** Pagination, continued *)

Lemma final_page_stops {A} (page : Connection A) :
  hasNextPage (pageInfo page) = false -> continues page = false.
Proof. unfold continues. now intros ->. Qed.

Lemma paginate_fails {A} (fetchPage : nat -> option jsstring -> result (Connection A))
  pages :
  forallb continues pages = true ->
  forall fuel n cursor all,
    servesThenFails fetchPage n cursor pages ->
    (List.length pages < fuel)%nat ->
    paginate fetchPage fuel n cursor all =
    Some (Err SmartRewardsError, (n + S (List.length pages))%nat).
Proof.
  induction pages as [| page rest IH]; intros Hp fuel n cursor all Hs Hf;
    (destruct fuel as [| fuel]; [simpl in Hf; lia |]); simpl in Hs |- *.
  - destruct Hs as [e ->]. do 2 f_equal. lia.
  - destruct Hs as [-> Hs]. apply andb_true_iff in Hp. destruct Hp as [Hc Hr].
    unfold continues in Hc. apply andb_true_iff in Hc. destruct Hc as [-> Hc].
    apply negb_true_iff in Hc. rewrite Hc. simpl.
    rewrite (IH Hr fuel (S n) _ _ Hs) by (simpl in Hf; lia).
    do 2 f_equal. lia.
Qed.

(** X18: when the service answers with pages that each announce a next
    page and give its cursor, and then with a page that announces none,
    each of the two loops returns the records of all these pages, in the
    order of the pages, after one request per page; the first request
    carries no cursor and each later one the end cursor of the page
    before. *)
Theorem pagination_returns_every_page
  (requestClaimProofs :
     nat -> ClaimProofQueryVariables -> result (option (Connection ClaimProof.t)))
  (requestClaimRewards :
     nat -> ClaimRewardQueryVariables -> result (option (Connection ClaimReward.t)))
  (user pool : jsstring) (chainId campaignId : Z) :
  (forall pages last fuel,
      forallb continues pages = true -> hasNextPage (pageInfo last) = false ->
      serves (fetchClaimProofs requestClaimProofs user chainId campaignId)
             0 None pages last ->
      (List.length pages < fuel)%nat ->
      fetchAllClaimProofs requestClaimProofs fuel user chainId campaignId =
      Some (Ok (nodesOf pages ++ map node (edges last)), S (List.length pages))) /\
  (forall pages last fuel,
      forallb continues pages = true -> hasNextPage (pageInfo last) = false ->
      serves (fetchHistoricalClaims requestClaimRewards pool chainId user)
             0 None pages last ->
      (List.length pages < fuel)%nat ->
      fetchAllHistoricalClaims requestClaimRewards fuel pool chainId user =
      Some (Ok (nodesOf pages ++ map node (edges last)), S (List.length pages))).
Proof.
  assert (forall A (pages : list (Connection A)) last,
             nodesOf (pages ++ [last]) = nodesOf pages ++ map node (edges last)) as N.
  { intros A pages last. unfold nodesOf. rewrite flat_map_app. simpl.
    now rewrite app_nil_r. }
  split; intros pages last fuel Hp Hl Hs Hf; apply final_page_stops in Hl.
  - unfold fetchAllClaimProofs.
    now rewrite (paginate_stops _ pages last Hp Hl fuel 0%nat None [] Hs Hf), N.
  - unfold fetchAllHistoricalClaims.
    now rewrite (paginate_stops _ pages last Hp Hl fuel 0%nat None [] Hs Hf), N.
Qed.

Lemma pagination_returns_every_page_witness :
  fetchAllClaimProofs finiteProofPages 5 "0xaa" 146 1 =
  Some (Ok [sampleProof 1 "10"; sampleProof 1 "5"], 2%nat) /\
  fetchAllHistoricalClaims finiteClaimPages 5 "0xpool" 146 "0xaa" =
  Some (Ok [sampleClaim "1" "3"; sampleClaim "1" "4"], 2%nat).
Proof.
  destruct (pagination_returns_every_page finiteProofPages finiteClaimPages
              "0xaa" "0xpool" 146 1) as [P R].
  split.
  - apply (P [pageOf (sampleProof 1 "10") true (Some ("c1" : jsstring))]
             (pageOf (sampleProof 1 "5") false None) 5%nat);
      [reflexivity | reflexivity | split; reflexivity | simpl; lia].
  - apply (R [pageOf (sampleClaim "1" "3") true (Some ("c1" : jsstring))]
             (pageOf (sampleClaim "1" "4") false (Some ("c2" : jsstring))) 5%nat);
      [reflexivity | reflexivity | split; reflexivity | simpl; lia].
Defined.

(** X19: a request that fails (the transport raises, or the response has
    no data) makes each of the two loops raise a [SmartRewardsError]: the
    records of the pages fetched before are not returned, and no request
    follows the failed one. *)
Theorem pagination_failure_loses_pages
  (requestClaimProofs :
     nat -> ClaimProofQueryVariables -> result (option (Connection ClaimProof.t)))
  (requestClaimRewards :
     nat -> ClaimRewardQueryVariables -> result (option (Connection ClaimReward.t)))
  (user pool : jsstring) (chainId campaignId : Z) :
  (forall pages fuel,
      forallb continues pages = true ->
      servesThenFails (fetchClaimProofs requestClaimProofs user chainId campaignId)
                      0 None pages ->
      (List.length pages < fuel)%nat ->
      fetchAllClaimProofs requestClaimProofs fuel user chainId campaignId =
      Some (Err SmartRewardsError, S (List.length pages))) /\
  (forall pages fuel,
      forallb continues pages = true ->
      servesThenFails (fetchHistoricalClaims requestClaimRewards pool chainId user)
                      0 None pages ->
      (List.length pages < fuel)%nat ->
      fetchAllHistoricalClaims requestClaimRewards fuel pool chainId user =
      Some (Err SmartRewardsError, S (List.length pages))).
Proof.
  split; intros pages fuel Hp Hs Hf.
  - unfold fetchAllClaimProofs.
    now rewrite (paginate_fails _ pages Hp fuel 0%nat None [] Hs Hf).
  - unfold fetchAllHistoricalClaims.
    now rewrite (paginate_fails _ pages Hp fuel 0%nat None [] Hs Hf).
Qed.

Lemma pagination_failure_loses_pages_witness :
  fetchAllClaimProofs failingProofPages 5 "0xaa" 146 1 =
  Some (Err SmartRewardsError, 2%nat) /\
  fetchAllHistoricalClaims failingClaimPages 5 "0xpool" 146 "0xaa" =
  Some (Err SmartRewardsError, 2%nat).
Proof.
  destruct (pagination_failure_loses_pages failingProofPages failingClaimPages
              "0xaa" "0xpool" 146 1) as [P R].
  split.
  - apply (P [pageOf (sampleProof 1 "10") true (Some ("c1" : jsstring))] 5%nat);
      [reflexivity | split; [reflexivity | eexists; reflexivity] | simpl; lia].
  - apply (R [pageOf (sampleClaim "1" "3") true (Some ("c1" : jsstring))] 5%nat);
      [reflexivity | split; [reflexivity | eexists; reflexivity] | simpl; lia].
Defined.

(** X20: neither loop limits the number of pages: against a service whose
    every answer announces a next page and gives a cursor, the loop is
    still running after any number of iterations. *)
Theorem pagination_has_no_page_limit
  (requestClaimProofs :
     nat -> ClaimProofQueryVariables -> result (option (Connection ClaimProof.t)))
  (requestClaimRewards :
     nat -> ClaimRewardQueryVariables -> result (option (Connection ClaimReward.t)))
  (user pool : jsstring) (chainId campaignId : Z) :
  ((forall n variables, exists page,
       requestClaimProofs n variables = Ok (Some page) /\ continues page = true) ->
   forall fuel,
     fetchAllClaimProofs requestClaimProofs fuel user chainId campaignId = None) /\
  ((forall n variables, exists page,
       requestClaimRewards n variables = Ok (Some page) /\ continues page = true) ->
   forall fuel,
     fetchAllHistoricalClaims requestClaimRewards fuel pool chainId user = None).
Proof.
  split; intros H fuel.
  - apply paginate_out_of_fuel, keepsGoing_endless. intros n cursor.
    unfold fetchClaimProofs.
    destruct (H n {| cpq_user := user; cpq_chainId := chainId;
                     cpq_campaignId := campaignId; cpq_after := cursor |})
      as (page & -> & C).
    exists page. now split.
  - apply paginate_out_of_fuel, keepsGoing_endless. intros n cursor.
    unfold fetchHistoricalClaims.
    destruct (H n {| crq_pool := toLowerCase pool; crq_chainId := chainId;
                     crq_user := user; crq_after := cursor |})
      as (page & -> & C).
    exists page. now split.
Qed.

Lemma pagination_has_no_page_limit_witness :
  fetchAllClaimProofs endlessProofPages 40 "0xaa" 146 1 = None /\
  fetchAllHistoricalClaims endlessClaimPages 40 "0xpool" 146 "0xaa" = None.
Proof.
  destruct (pagination_has_no_page_limit endlessProofPages endlessClaimPages
              "0xaa" "0xpool" 146 1) as [P R].
  split; [apply P | apply R]; intros n variables; eexists; split; reflexivity.
Defined.

(** ** Campaign pagination *)

Section CampaignPaginationLemmas.
Variable fetchCampaignsPage :
  nat -> Z -> Z -> option jsstring -> result CampaignsResponse.t.
Variables chainId pageSize : Z.

Lemma fetchAllCampaignsLoop_bounded limit fuel :
  forall more pageCount cursor allCampaigns finalPageInfo totalCount,
    (limit - pageCount <= fuel)%nat ->
    exists outcome requests,
      PaginationManager.fetchAllCampaignsLoop fetchCampaignsPage fuel chainId pageSize
        (Some limit) more pageCount cursor allCampaigns finalPageInfo totalCount
      = Some (outcome, requests) /\
      (pageCount <= requests)%nat /\ (requests <= Nat.max pageCount limit)%nat.
Proof.
  induction fuel as [| fuel IH];
    intros more pageCount cursor allCampaigns finalPageInfo totalCount Hf;
    cbn [PaginationManager.fetchAllCampaignsLoop belowLimit];
    destruct more; cbn [andb];
    try (eexists; eexists; split; [reflexivity | lia]);
    destruct (Nat.ltb_spec pageCount limit) as [L | L];
    try (eexists; eexists; split; [reflexivity | lia]).
  - lia.
  - destruct (fetchCampaignsPage pageCount chainId pageSize cursor) as [response | e];
      [| eexists; eexists; split; [reflexivity | lia]].
    cbv zeta.
    destruct (noCursor _ && _); [eexists; eexists; split; [reflexivity | lia] |].
    edestruct (IH (hasNextPage (CampaignsResponse.pageInfo response)) (S pageCount))
      as (outcome & requests & E & B1 & B2); [| rewrite E; eauto with zarith].
    lia.
Qed.

Lemma finish_keeps maxPages more pageCount allCampaigns finalPageInfo totalCount :
  hasNextPage finalPageInfo = more ->
  PaginationManager.finish maxPages more pageCount allCampaigns finalPageInfo totalCount
  = PaginationResult.mk allCampaigns finalPageInfo totalCount.
Proof.
  intros <-. unfold PaginationManager.finish.
  destruct (atLimit pageCount maxPages); [| reflexivity].
  destruct finalPageInfo as [[] c]; reflexivity.
Qed.

Lemma belowLimit_le n m maxPages :
  (n <= m)%nat -> belowLimit m maxPages = true -> belowLimit n maxPages = true.
Proof.
  destruct maxPages as [limit |]; [| reflexivity]. simpl.
  rewrite !Nat.ltb_lt. lia.
Qed.

Lemma atLimit_belowLimit n maxPages : atLimit n maxPages = negb (belowLimit n maxPages).
Proof.
  destruct maxPages as [limit |]; [| reflexivity]. simpl.
  now rewrite Nat.ltb_antisym, negb_involutive.
Qed.

Lemma fetchAllCampaignsLoop_pages maxPages pages last :
  forallb continuesCampaigns pages = true ->
  forall fuel n cursor allCampaigns finalPageInfo totalCount,
    servesCampaigns fetchCampaignsPage chainId pageSize n cursor pages last ->
    belowLimit (n + List.length pages) maxPages = true ->
    (continuesCampaigns last = false
     \/ atLimit (n + S (List.length pages)) maxPages = true) ->
    (List.length pages < fuel)%nat ->
    PaginationManager.fetchAllCampaignsLoop fetchCampaignsPage fuel chainId pageSize
      maxPages true n cursor allCampaigns finalPageInfo totalCount
    = Some (Returns
              (PaginationResult.mk
                 (allCampaigns ++ campaignsOf (pages ++ [last]))
                 (CampaignsResponse.pageInfo last)
                 (CampaignsResponse.totalCount last)),
            (n + S (List.length pages))%nat).
Proof.
  intros Hp. induction pages as [| page rest IH];
    intros fuel n cursor allCampaigns finalPageInfo totalCount Hs Hb He Hf;
    (destruct fuel as [| fuel]; [simpl in Hf; lia |]);
    cbn [PaginationManager.fetchAllCampaignsLoop andb];
    rewrite (belowLimit_le n _ maxPages (Nat.le_add_r _ _) Hb);
    simpl in Hs.
  - rewrite Hs. cbv zeta. simpl List.length in *.
    replace (n + 1)%nat with (S n) in * by lia.
    unfold campaignsOf. simpl flat_map. rewrite app_nil_r.
    destruct (noCursor _ && _) eqn:I.
    + now rewrite finish_keeps.
    + destruct fuel; cbn [PaginationManager.fetchAllCampaignsLoop];
        unfold continuesCampaigns in He;
        destruct (hasNextPage (CampaignsResponse.pageInfo last)) eqn:M;
        cbn [andb]; try (now rewrite finish_keeps);
        rewrite andb_true_r in I; rewrite I in He; simpl in He;
        (destruct He as [He | He]; [discriminate He |]);
        rewrite atLimit_belowLimit in He; apply negb_true_iff in He;
        rewrite He; now rewrite finish_keeps.
  - destruct Hs as [Hs1 Hs2]. rewrite Hs1. cbv zeta.
    simpl in Hp. apply andb_true_iff in Hp. destruct Hp as [Hc Hr].
    unfold continuesCampaigns in Hc. apply andb_true_iff in Hc.
    destruct Hc as [Hm Hc]. apply negb_true_iff in Hc. rewrite Hm, Hc. cbn [andb].
    simpl List.length in *.
    rewrite (IH Hr fuel (S n) _ _ _ _ Hs2).
    + unfold campaignsOf. simpl flat_map. rewrite <- app_assoc.
      do 2 f_equal. lia.
    + now replace (S n + List.length rest)%nat with (n + S (List.length rest))%nat by lia.
    + now replace (S n + S (List.length rest))%nat
        with (n + S (S (List.length rest)))%nat by lia.
    + lia.
Qed.
End CampaignPaginationLemmas.

(** X21: with a page limit, [fetchAllCampaigns] ends after at most that
    many requests, whatever the service answers (a fuel of the limit is
    enough); with the limit 0 it makes no request and returns no campaign
    with [hasNextPage] set. *)
Theorem fetchAllCampaigns_respects_maxPages
  (fetchCampaignsPage : nat -> Z -> Z -> option jsstring -> result CampaignsResponse.t)
  (chainId pageSize : Z) (limit fuel : nat) :
  ((limit <= fuel)%nat ->
   exists outcome requests,
     PaginationManager.fetchAllCampaigns fetchCampaignsPage fuel chainId pageSize
       (Some limit) = Some (outcome, requests) /\
     (requests <= limit)%nat) /\
  PaginationManager.fetchAllCampaigns fetchCampaignsPage fuel chainId pageSize (Some O)
  = Some (Returns
            (PaginationResult.mk []
               {| hasNextPage := true; endCursor := Some ("" : jsstring) |} 0),
          O).
Proof.
  split.
  - intros Hf. unfold PaginationManager.fetchAllCampaigns.
    destruct (fetchAllCampaignsLoop_bounded fetchCampaignsPage chainId pageSize
                limit fuel true O None []
                {| hasNextPage := false; endCursor := Some ("" : jsstring) |} 0)
      as (outcome & requests & E & _ & B); [lia |].
    exists outcome, requests. split; [exact E | lia].
  - destruct fuel; reflexivity.
Qed.

Lemma fetchAllCampaigns_respects_maxPages_witness :
  exists outcome requests,
    PaginationManager.fetchAllCampaigns endlessCampaignPages 2 146 50 (Some 2%nat)
    = Some (outcome, requests) /\
    (requests <= 2)%nat.
Proof.
  apply (fetchAllCampaigns_respects_maxPages endlessCampaignPages 146 50 2 2).
  lia.
Defined.

(** X22: when the service answers with pages that each announce a next
    page with its cursor, and the last of them either does not or is the
    page at which the limit is reached, [fetchAllCampaigns] returns the
    campaigns of all these pages in order, with the page information and
    the total count of the last page, after one request per page.  So a
    result with [hasNextPage] unset holds every campaign, and a result cut
    by the limit has [hasNextPage] set. *)
Theorem fetchAllCampaigns_result
  (fetchCampaignsPage : nat -> Z -> Z -> option jsstring -> result CampaignsResponse.t)
  (chainId pageSize : Z) (maxPages : option nat)
  (pages : list CampaignsResponse.t) (last : CampaignsResponse.t) (fuel : nat) :
  forallb continuesCampaigns pages = true ->
  servesCampaigns fetchCampaignsPage chainId pageSize 0 None pages last ->
  belowLimit (List.length pages) maxPages = true ->
  continuesCampaigns last = false \/ atLimit (S (List.length pages)) maxPages = true ->
  (List.length pages < fuel)%nat ->
  PaginationManager.fetchAllCampaigns fetchCampaignsPage fuel chainId pageSize maxPages
  = Some (Returns
            (PaginationResult.mk (campaignsOf (pages ++ [last]))
               (CampaignsResponse.pageInfo last)
               (CampaignsResponse.totalCount last)),
          S (List.length pages)).
Proof.
  intros Hp Hs Hb He Hf. unfold PaginationManager.fetchAllCampaigns.
  now rewrite (fetchAllCampaignsLoop_pages fetchCampaignsPage chainId pageSize
                 maxPages pages last Hp fuel O None [] _ _ Hs Hb He Hf).
Qed.

Lemma fetchAllCampaigns_result_witness :
  PaginationManager.fetchAllCampaigns endlessCampaignPages 9 146 50 (Some 2%nat)
  = Some (Returns
            (PaginationResult.mk [sampleCampaign 0; sampleCampaign 1]
               {| hasNextPage := true; endCursor := Some ("c" : jsstring) |} 3),
          2%nat) /\
  PaginationManager.fetchAllCampaigns finiteCampaignPages 9 146 50 None
  = Some (Returns
            (PaginationResult.mk [sampleCampaign 1; sampleCampaign 2]
               {| hasNextPage := false; endCursor := Some ("c2" : jsstring) |} 3),
          2%nat).
Proof.
  split.
  - apply (fetchAllCampaigns_result endlessCampaignPages 146 50 (Some 2%nat)
             [campaignPage 0 true (Some ("c" : jsstring))]
             (campaignPage 1 true (Some ("c" : jsstring))) 9);
      [reflexivity | split; reflexivity | reflexivity | right; reflexivity
      | simpl; lia].
  - apply (fetchAllCampaigns_result finiteCampaignPages 146 50 None
             [campaignPage 1 true (Some ("c1" : jsstring))]
             (campaignPage 2 false (Some ("c2" : jsstring))) 9);
      [reflexivity | split; reflexivity | reflexivity | left; reflexivity
      | simpl; lia].
Defined.

(** X23: [fetchCampaignsByChainId] makes no request for a chain
    identifier that is not positive or a page size outside 1..1000, and
    raises a [CampaignAPIError]; otherwise, when the service answers with
    pages that announce a next page and then with one that does not, it
    returns the chain identifier with the campaigns of all pages in order
    and the total count and page information of the last page. *)
Theorem fetchCampaignsByChainId_result
  (fetchCampaignsPage : nat -> Z -> Z -> option jsstring -> result CampaignsResponse.t)
  (chainId pageSize : Z) (fuel : nat) :
  (chainId <= 0 \/ pageSize <= 0 \/ 1000 < pageSize ->
   CampaignClient.fetchCampaignsByChainId fetchCampaignsPage fuel chainId pageSize
   = Some (CampaignAPIError, O)) /\
  (forall pages last,
      0 < chainId -> 0 < pageSize <= 1000 ->
      forallb continuesCampaigns pages = true ->
      servesCampaigns fetchCampaignsPage chainId pageSize 0 None pages last ->
      continuesCampaigns last = false ->
      (List.length pages < fuel)%nat ->
      CampaignClient.fetchCampaignsByChainId fetchCampaignsPage fuel chainId pageSize
      = Some (Returns
                (FetchCampaignsResult.mk chainId
                   (CampaignsResponse.totalCount last)
                   (CampaignsResponse.pageInfo last)
                   (campaignsOf (pages ++ [last]))),
              S (List.length pages))).
Proof.
  unfold CampaignClient.fetchCampaignsByChainId. split.
  - intros H. destruct (Z.eqb_spec chainId 0); [reflexivity |].
    destruct (Z.leb_spec chainId 0); [reflexivity |]. cbn [orb].
    destruct (Z.leb_spec pageSize 0); [reflexivity |].
    destruct (Z.gtb_spec pageSize 1000); [reflexivity | lia].
  - intros pages last Hc Hz Hp Hs Hl Hf.
    destruct (Z.eqb_spec chainId 0); [lia |].
    destruct (Z.leb_spec chainId 0); [lia |]. cbn [orb].
    destruct (Z.leb_spec pageSize 0); [lia |].
    destruct (Z.gtb_spec pageSize 1000); [lia |]. cbn [orb].
    unfold PaginationManager.fetchAllCampaigns.
    now rewrite (fetchAllCampaignsLoop_pages fetchCampaignsPage chainId pageSize
                   None pages last Hp fuel O None [] _ _ Hs
                   eq_refl (or_introl Hl) Hf).
Qed.

Lemma fetchCampaignsByChainId_result_witness :
  CampaignClient.fetchCampaignsByChainId finiteCampaignPages 9 146 0
  = Some (CampaignAPIError, O) /\
  CampaignClient.fetchCampaignsByChainId finiteCampaignPages 9 146 50
  = Some (Returns
            (FetchCampaignsResult.mk 146 3
               {| hasNextPage := false; endCursor := Some ("c2" : jsstring) |}
               [sampleCampaign 1; sampleCampaign 2]),
          2%nat).
Proof.
  destruct (fetchCampaignsByChainId_result finiteCampaignPages 146 50 9) as [_ R].
  destruct (fetchCampaignsByChainId_result finiteCampaignPages 146 0 9) as [V _].
  split; [apply V; right; left; lia |].
  apply (R [campaignPage 1 true (Some ("c1" : jsstring))]
           (campaignPage 2 false (Some ("c2" : jsstring))));
    [lia | lia | reflexivity | split; reflexivity | reflexivity | simpl; lia].
Defined.

(** ** Multi-campaign aggregation, continued *)

Lemma validateUserAddress_ok user :
  validateUserAddress user = Ok tt -> isAddress user = true.
Proof.
  unfold validateUserAddress. destruct (isAddress user); [reflexivity |].
  now rewrite orb_true_r.
Qed.

Lemma validatePoolAddress_ok pool :
  validatePoolAddress pool = Ok tt -> isAddress pool = true.
Proof.
  unfold validatePoolAddress. destruct (isAddress pool); [reflexivity |].
  now rewrite orb_true_r.
Qed.

Lemma validateChainId_ok chainId : validateChainId chainId = Ok tt -> 0 < chainId.
Proof.
  unfold validateChainId. destruct (Z.leb_spec chainId 0); [| lia].
  now rewrite orb_true_r.
Qed.

Lemma validateCampaignId_ok campaignId :
  validateCampaignId campaignId = Ok tt -> 0 < campaignId.
Proof.
  unfold validateCampaignId. destruct (Z.leb_spec campaignId 0); [| lia].
  now rewrite orb_true_r.
Qed.

(** What a successful [calculateRewards] has read and computed. *)
Lemma calculateRewards_inv remote user chainId campaignId rewards :
  calculateRewards remote user chainId campaignId = Ok rewards ->
  exists directory listed records claims,
    fetchCampaignsByChainId remote chainId = Ok directory /\
    find (fun c => Campaign.campaignId c =? campaignId) directory = Some listed /\
    isAddress user = true /\ 0 < chainId /\ 0 < campaignId /\
    isAddress (Campaign.liquidityPool listed) = true /\
    allClaimProofs remote user chainId campaignId = Ok records /\
    allHistoricalClaims remote (Campaign.liquidityPool listed) chainId user = Ok claims /\
    rw_proofs rewards = records /\
    rw_claims rewards = filter (isCampaignClaim campaignId) claims /\
    rw_rewardTokenDecimals rewards = Token.decimals (Campaign.rewardToken listed) /\
    performCalculations records claims campaignId
      (Token.decimals (Campaign.rewardToken listed)) = Ok (rw_calculations rewards).
Proof.
  unfold calculateRewards, getCampaignById.
  destruct (fetchCampaignsByChainId remote chainId) as [directory |];
    simpl; [| discriminate].
  destruct (find _ directory) as [listed |] eqn:F; [| discriminate].
  unfold getClaimProofs, fetchClaimProofsValidated.
  destruct (validateUserAddress user) as [[] |] eqn:Vu; simpl; [| discriminate].
  destruct (validateChainId chainId) as [[] |] eqn:Vc; simpl; [| discriminate].
  destruct (validateCampaignId campaignId) as [[] |] eqn:Vi; simpl; [| discriminate].
  destruct (allClaimProofs remote user chainId campaignId) as [records |] eqn:P;
    simpl; [| discriminate].
  unfold getHistoricalClaims, fetchHistoricalClaimsValidated.
  destruct (validatePoolAddress _) as [[] |] eqn:Vp; simpl; [| discriminate].
  rewrite Vc, Vu, Vi. simpl. unfold fetchHistoricalClaimsForCampaign.
  destruct (allHistoricalClaims remote _ chainId user) as [claims |] eqn:H;
    simpl; [| discriminate].
  destruct (performCalculations records _ campaignId _) as [calc |] eqn:C;
    simpl; [| discriminate].
  intros [= <-]. simpl. rewrite performCalculations_filter in C.
  exists directory, listed, records, claims.
  pose proof (validateUserAddress_ok _ Vu). pose proof (validateChainId_ok _ Vc).
  pose proof (validateCampaignId_ok _ Vi). pose proof (validatePoolAddress_ok _ Vp).
  auto 20.
Qed.

Lemma reconcileCampaign_inv remote user chainId campaign entry :
  reconcileCampaign remote user chainId campaign = Ok entry ->
  exists rewards,
    calculateRewards remote user chainId (Campaign.campaignId campaign) = Ok rewards /\
    ClaimableCampaign.campaign entry = campaign /\
    ClaimableCampaign.calculations entry = rw_calculations rewards /\
    ClaimableCampaign.canClaim entry = canClaim (rw_calculations rewards) /\
    fromBaseUnits (remaining (rw_calculations rewards))
      (Token.decimals (Campaign.rewardToken campaign))
    = Ok (ClaimableCampaign.remaining entry).
Proof.
  unfold reconcileCampaign.
  destruct (calculateRewards remote user chainId _) as [rewards |]; simpl;
    [| discriminate].
  unfold formatCalculations.
  destruct (fromBaseUnits (totalEligible _) _); simpl; [| discriminate].
  destruct (fromBaseUnits (totalClaimed _) _); simpl; [| discriminate].
  destruct (fromBaseUnits (remaining _) _) as [shown |] eqn:F; simpl;
    [| discriminate].
  intros [= <-]. exists rewards. simpl. auto 10.
Qed.

Lemma reconciled_length remote user chainId campaigns :
  (List.length (reconciled remote user chainId campaigns) <= List.length campaigns)%nat.
Proof.
  induction campaigns as [| c rest IH]; simpl; [lia |].
  rewrite length_app.
  destruct (reconcileCampaign remote user chainId c); simpl; lia.
Qed.

(** X24: [getUserClaimableCampaigns] never raises: a campaign that cannot
    be reconciled is left out.  With a user that is not an address (0x and
    40 hexadecimal digits) or a chain identifier that is not positive the
    result is the empty list; in general the result has at most one
    element per campaign passed, each for one of these campaigns. *)
Theorem getUserClaimableCampaigns_skips
  (remote : Remote) (user : jsstring) (chainId : Z) (campaigns : list Campaign.t) :
  (isAddress user = false \/ chainId <= 0 ->
   getUserClaimableCampaigns remote user chainId campaigns = Ok []) /\
  (exists out,
      getUserClaimableCampaigns remote user chainId campaigns = Ok out /\
      (List.length out <= List.length campaigns)%nat /\
      forall entry, In entry out -> In (ClaimableCampaign.campaign entry) campaigns).
Proof.
  unfold getUserClaimableCampaigns. cbv zeta. cbn [rethrowAs].
  rewrite collectResults_reconciled. cbn [app]. split.
  - intros H.
    replace (reconciled remote user chainId campaigns) with (@nil ClaimableCampaign.t);
      [reflexivity |].
    symmetry. unfold reconciled. induction campaigns as [| c rest IH]; [reflexivity |].
    simpl. rewrite IH.
    destruct (reconcileCampaign remote user chainId c) as [entry |] eqn:E;
      [| reflexivity].
    destruct (reconcileCampaign_inv _ _ _ _ _ E) as (rewards & R & _).
    destruct (calculateRewards_inv _ _ _ _ _ R) as (? & ? & ? & ? & _ & _ & A & B & _).
    destruct H; [congruence | lia].
  - eexists. split; [reflexivity |].
    pose proof (arraySort_perm compareClaimable
                  (reconciled remote user chainId campaigns)) as P.
    split.
    + rewrite (Permutation_length P). apply reconciled_length.
    + intros entry I. apply (Permutation_in _ P) in I.
      apply In_reconciled in I. destruct I as (c & Ic & E).
      destruct (reconcileCampaign_inv _ _ _ _ _ E) as (_ & _ & -> & _). exact Ic.
Qed.

Lemma getUserClaimableCampaigns_skips_witness :
  getUserClaimableCampaigns sampleRemote "0xaa" 146
    [sampleCampaign 1; sampleCampaign 2] = Ok [].
Proof.
  apply (getUserClaimableCampaigns_skips sampleRemote "0xaa" 146
           [sampleCampaign 1; sampleCampaign 2]).
  left. reflexivity.
Defined.

(** X25: every element that [getUserClaimableCampaigns] returns was
    reconciled for a valid request (user and pool are addresses, chain
    and campaign identifiers are positive) from the entry of the campaign
    directory with the campaign's identifier: the calculations are those
    of [performCalculations] on the records fetched for that identifier,
    with the pool and the precision of the directory entry, while the
    displayed remaining amount is formatted with the precision of the
    campaign that was passed. *)
Theorem getUserClaimableCampaigns_provenance
  (remote : Remote) (user : jsstring) (chainId : Z) (campaigns : list Campaign.t)
  (out : list ClaimableCampaign.t) (entry : ClaimableCampaign.t) :
  getUserClaimableCampaigns remote user chainId campaigns = Ok out ->
  In entry out ->
  let passed := ClaimableCampaign.campaign entry in
  let calculations := ClaimableCampaign.calculations entry in
  exists directory listed records claims,
    In passed campaigns /\
    fetchCampaignsByChainId remote chainId = Ok directory /\
    find (fun c => Campaign.campaignId c =? Campaign.campaignId passed) directory
    = Some listed /\
    isAddress user = true /\ 0 < chainId /\ 0 < Campaign.campaignId passed /\
    isAddress (Campaign.liquidityPool listed) = true /\
    allClaimProofs remote user chainId (Campaign.campaignId passed) = Ok records /\
    allHistoricalClaims remote (Campaign.liquidityPool listed) chainId user
    = Ok claims /\
    performCalculations records claims (Campaign.campaignId passed)
      (Token.decimals (Campaign.rewardToken listed)) = Ok calculations /\
    ClaimableCampaign.canClaim entry = canClaim calculations /\
    fromBaseUnits (remaining calculations)
      (Token.decimals (Campaign.rewardToken passed))
    = Ok (ClaimableCampaign.remaining entry).
Proof.
  unfold getUserClaimableCampaigns. cbv zeta. cbn [rethrowAs].
  rewrite collectResults_reconciled. cbn [app].
  intros [= <-] I.
  apply (Permutation_in _ (arraySort_perm compareClaimable _)) in I.
  apply In_reconciled in I. destruct I as (c & Ic & E).
  destruct (reconcileCampaign_inv _ _ _ _ _ E) as (rewards & R & -> & -> & -> & F).
  destruct (calculateRewards_inv _ _ _ _ _ R)
    as (directory & listed & records & claims & H1 & H2 & H3 & H4 & H5 & H6 & H7
        & H8 & _ & _ & _ & H9).
  exists directory, listed, records, claims. auto 20.
Qed.

Lemma getUserClaimableCampaigns_provenance_witness :
  getUserClaimableCampaigns sampleRemote sampleUser 146 [sampleCampaign 1]
  = Ok [sampleEntry] /\
  exists directory listed,
    fetchCampaignsByChainId sampleRemote 146 = Ok directory /\
    find (fun c => Campaign.campaignId c =? 1) directory = Some listed.
Proof.
  assert (getUserClaimableCampaigns sampleRemote sampleUser 146 [sampleCampaign 1]
          = Ok [sampleEntry]) as H by (vm_compute; reflexivity).
  split; [exact H |].
  destruct (getUserClaimableCampaigns_provenance sampleRemote sampleUser 146
              [sampleCampaign 1] [sampleEntry] sampleEntry H (or_introl eq_refl))
    as (directory & listed & _ & _ & _ & D & F & _).
  exists directory, listed. split; [exact D | exact F].
Defined.

Lemma getCampaignById_err remote chainId campaignId e :
  getCampaignById remote chainId campaignId = Err e -> e = SmartRewardsError.
Proof.
  unfold getCampaignById.
  destruct (fetchCampaignsByChainId remote chainId); simpl; [discriminate |].
  now intros [= <-].
Qed.

(** X26: [canUserClaim] reads the campaign directory a second time after
    [calculateRewards].  When [calculateRewards] returns for a campaign
    whose precision is between 0 and 77, [canUserClaim] returns exactly
    when that second read returns, and raises a [SmartRewardsError] when
    it fails.  What it returns is the [canClaim] of the calculations,
    amounts that convert back to the totals of the calculations, a
    remaining amount that is "0" exactly when nothing can be claimed, and
    the symbol of the reward token of the entry that the second read
    finds: "Unknown" when that symbol is empty or when the campaign is no
    longer listed. *)
Theorem canUserClaim_after_calculateRewards
  (remote later : Remote) (user : jsstring) (chainId campaignId : Z)
  (rewards : Rewards) :
  calculateRewards remote user chainId campaignId = Ok rewards ->
  0 <= rw_rewardTokenDecimals rewards <= 77 ->
  let calculations := rw_calculations rewards in
  let d := rw_rewardTokenDecimals rewards in
  (forall e,
      getCampaignById later chainId campaignId = Err e ->
      canUserClaim remote later user chainId campaignId = Err SmartRewardsError) /\
  (forall found,
      getCampaignById later chainId campaignId = Ok found ->
      exists status,
        canUserClaim remote later user chainId campaignId = Ok status /\
        st_rewardTokenSymbol status
        = match found with
          | Some listed => orElse (Token.symbol (Campaign.rewardToken listed)) "Unknown"
          | None => "Unknown" : jsstring
          end /\
        st_canClaim status = canClaim calculations /\
        toBaseUnits (st_totalEligible status) d = Ok (totalEligible calculations) /\
        toBaseUnits (st_totalClaimed status) d = Ok (totalClaimed calculations) /\
        toBaseUnits (st_remaining status) d = Ok (remaining calculations) /\
        (st_canClaim status = false <-> st_remaining status = ("0" : jsstring))) /\
  ((exists status, canUserClaim remote later user chainId campaignId = Ok status) <->
   (exists found, getCampaignById later chainId campaignId = Ok found)).
Proof.
  intros R D. cbv zeta.
  destruct (calculateRewards_inv _ _ _ _ _ R)
    as (directory & listed & records & claims & _ & _ & _ & _ & _ & _ & _ & _
        & _ & _ & Hd & P).
  rewrite <- Hd in P.
  destruct (formatCalculations_performed _ _ _ _ _ D P)
    as (formatted & F & Fc & Fe & Fl & Fr & Fz).
  assert (forall found,
             getCampaignById later chainId campaignId = Ok found ->
             canUserClaim remote later user chainId campaignId
             = Ok {| st_canClaim := canClaim (rw_calculations rewards);
                     st_remaining := remaining formatted;
                     st_totalEligible := totalEligible formatted;
                     st_totalClaimed := totalClaimed formatted;
                     st_rewardTokenSymbol :=
                       match found with
                       | Some c => orElse (Token.symbol (Campaign.rewardToken c))
                                          "Unknown"
                       | None => "Unknown" : jsstring
                       end |}) as S.
  { intros found G. unfold canUserClaim. rewrite R. cbn [bind]. rewrite G.
    cbn [bind]. rewrite F. reflexivity. }
  assert (forall e,
             getCampaignById later chainId campaignId = Err e ->
             canUserClaim remote later user chainId campaignId
             = Err SmartRewardsError) as E.
  { intros e G. unfold canUserClaim. rewrite R. cbn [bind]. rewrite G.
    cbn [bind]. now rewrite (getCampaignById_err _ _ _ _ G). }
  split; [exact E |]. split.
  - intros found G. eexists. split; [exact (S found G) |]. simpl. auto 10.
  - split.
    + intros (status & C).
      destruct (getCampaignById later chainId campaignId) as [found | e] eqn:G;
        [now exists found |].
      rewrite (E e eq_refl) in C. discriminate C.
    + intros (found & G). eexists. exact (S found G).
Qed.

Lemma canUserClaim_after_calculateRewards_witness :
  calculateRewards sampleRemote sampleUser 146 1 = Ok sampleRewards /\
  canUserClaim sampleRemote unreachableRemote sampleUser 146 1
  = Err SmartRewardsError /\
  (exists status,
      canUserClaim sampleRemote emptiedRemote sampleUser 146 1 = Ok status /\
      st_rewardTokenSymbol status = ("Unknown" : jsstring)) /\
  (exists status,
      canUserClaim sampleRemote sampleRemote sampleUser 146 1 = Ok status /\
      st_rewardTokenSymbol status = ("TKN" : jsstring) /\
      st_canClaim status = true).
Proof.
  assert (calculateRewards sampleRemote sampleUser 146 1 = Ok sampleRewards) as H
      by (vm_compute; reflexivity).
  assert (0 <= rw_rewardTokenDecimals sampleRewards <= 77) as D by (simpl; lia).
  split; [exact H |]. split; [| split].
  - apply (canUserClaim_after_calculateRewards sampleRemote unreachableRemote
             sampleUser 146 1 sampleRewards H D) with (e := SmartRewardsError).
    reflexivity.
  - destruct (canUserClaim_after_calculateRewards sampleRemote emptiedRemote
                sampleUser 146 1 sampleRewards H D) as (_ & S & _).
    destruct (S None eq_refl) as (status & C & Y & _).
    exists status. split; [exact C | exact Y].
  - destruct (canUserClaim_after_calculateRewards sampleRemote sampleRemote
                sampleUser 146 1 sampleRewards H D) as (_ & S & _).
    destruct (S (Some (sampleCampaign 1)) eq_refl) as (status & C & Y & B & _).
    exists status. split; [exact C |]. split; [exact Y | exact B].
Defined.

(** X27: the pool address of the historical claims is sent in lower
    case: two spellings of a pool that differ in the case of letters only
    lead to the same requests and the same result, and a pool spelled in
    lower case is sent as it is. *)
Theorem fetchAllHistoricalClaims_pool_case
  (requestClaimRewards :
     nat -> ClaimRewardQueryVariables -> result (option (Connection ClaimReward.t)))
  (fuel : nat) (pool pool' : jsstring) (chainId : Z) (user : jsstring) :
  (toLowerCase pool = toLowerCase pool' ->
   fetchAllHistoricalClaims requestClaimRewards fuel pool chainId user
   = fetchAllHistoricalClaims requestClaimRewards fuel pool' chainId user) /\
  fetchAllHistoricalClaims requestClaimRewards fuel (toLowerCase pool) chainId user
  = fetchAllHistoricalClaims requestClaimRewards fuel pool chainId user.
Proof.
  assert (forall c, lowerChar (lowerChar c) = lowerChar c) as L.
  { intros c. destruct c as [[] [] [] [] [] [] [] []]; vm_compute; reflexivity. }
  assert (toLowerCase (toLowerCase pool) = toLowerCase pool) as I.
  { unfold toLowerCase. rewrite map_map. apply map_ext. exact L. }
  unfold fetchAllHistoricalClaims, fetchHistoricalClaims.
  split; [intros E; now rewrite E | now rewrite I].
Qed.

Lemma fetchAllHistoricalClaims_pool_case_witness :
  fetchAllHistoricalClaims sampleClaimPages 5 "0xABCDEF" 146 "0xaa"
  = fetchAllHistoricalClaims sampleClaimPages 5 "0xabcdef" 146 "0xaa".
Proof.
  destruct (fetchAllHistoricalClaims_pool_case sampleClaimPages 5
              "0xABCDEF" "0xabcdef" 146 "0xaa") as [A _].
  apply A. reflexivity.
Defined.

(** ** Order of the records *)

Lemma sumOfBaseUnits_perm amounts amounts' d :
  Permutation amounts amounts' ->
  sumOfBaseUnits amounts d = sumOfBaseUnits amounts' d.
Proof.
  intros P. induction P as [| x l l' P IH | x y l | l l' l'' P1 IH1 P2 IH2]; simpl.
  - reflexivity.
  - now rewrite IH.
  - destruct (toBaseUnits x d) as [bx | ex] eqn:X;
      destruct (toBaseUnits y d) as [by' | ey] eqn:Y; simpl;
      destruct (sumOfBaseUnits l d) as [s | es]; simpl;
      try reflexivity;
      try (apply toBaseUnits_err in X); try (apply toBaseUnits_err in Y);
      subst; try reflexivity.
    f_equal. lia.
  - now rewrite IH1.
Qed.

Lemma filter_perm {A} (p : A -> bool) l l' :
  Permutation l l' -> Permutation (filter p l) (filter p l').
Proof.
  intros P. induction P as [| x l l' P IH | x y l | l l' l'' P1 IH1 P2 IH2]; simpl.
  - constructor.
  - destruct (p x); [now constructor | exact IH].
  - destruct (p x), (p y); try reflexivity. apply perm_swap.
  - now transitivity (filter p l').
Qed.

(** X28: the reconciliation does not depend on the order in which the
    records arrive: [performCalculations] gives the same result, or
    raises alike, for any rearrangement of the eligibility records and of
    the historical claims. *)
Theorem performCalculations_order_independent
  (proofs proofs' : list ClaimProof.t) (claims claims' : list ClaimReward.t)
  (campaignId decimals : Z) :
  Permutation proofs proofs' -> Permutation claims claims' ->
  performCalculations proofs claims campaignId decimals
  = performCalculations proofs' claims' campaignId decimals.
Proof.
  intros Pp Pc. rewrite !performCalculations_reconciliation. unfold reconciliation.
  rewrite (sumOfBaseUnits_perm _ (map ClaimProof.amount proofs') decimals)
    by now apply Permutation_map.
  rewrite (sumOfBaseUnits_perm
             (map ClaimReward.amount (filter (isCampaignClaim campaignId) claims))
             (map ClaimReward.amount (filter (isCampaignClaim campaignId) claims'))
             decimals)
    by now apply Permutation_map, filter_perm.
  reflexivity.
Qed.

Lemma performCalculations_order_independent_witness :
  performCalculations [sampleProof 7 "1.5"; sampleProof 7 "2"]
    [sampleClaim "7" "0.25"; sampleClaim "8" "9"] 7 2
  = performCalculations [sampleProof 7 "2"; sampleProof 7 "1.5"]
      [sampleClaim "8" "9"; sampleClaim "7" "0.25"] 7 2.
Proof.
  apply (performCalculations_order_independent
           [sampleProof 7 "1.5"; sampleProof 7 "2"]
           [sampleProof 7 "2"; sampleProof 7 "1.5"]
           [sampleClaim "7" "0.25"; sampleClaim "8" "9"]
           [sampleClaim "8" "9"; sampleClaim "7" "0.25"] 7 2); apply perm_swap.
Defined.

(** ** From validation to the claim arguments *)

Lemma str_eqb_eq a b : str_eqb a b = true -> a = b.
Proof. unfold str_eqb. destruct (list_eq_dec ascii_dec a b); [auto | discriminate]. Qed.

Lemma validated_record u c p :
  u <> [] -> proofIsRefused u c p = false ->
  hasUserAndProof p = true /\
  toLowerCase (ClaimProof.user p) = toLowerCase u /\
  ClaimProof.campaignId p = c.
Proof.
  intros N H. unfold proofIsRefused in H.
  apply orb_false_iff in H. destruct H as [H _].
  apply orb_false_iff in H. destruct H as [H Hp].
  apply orb_false_iff in H. destruct H as [Hu Hc].
  apply negb_false_iff in Hu, Hc. apply str_eqb_eq in Hu. apply Z.eqb_eq in Hc.
  split; [| split; assumption].
  unfold hasUserAndProof. rewrite Hp.
  destruct (ClaimProof.user p); [| reflexivity].
  destruct u; [contradiction | discriminate Hu].
Qed.

(** X29: a non-empty batch that [validateClaimProofs] accepts for a user
    and a campaign, and whose amounts pass [validateAmountsForOnChain],
    is accepted by [prepareClaimArgs]: the arguments carry the
    identifier of that campaign for every record and users that all
    equal the expected user up to the case of letters. *)
Theorem validated_batch_prepares
  (records : list ClaimProof.t) (expectedUser : jsstring) (expectedCampaignId : Z) :
  records <> [] -> expectedUser <> [] ->
  validateClaimProofs records expectedUser expectedCampaignId = Ok tt ->
  validateAmountsForOnChain (map ClaimProof.amount records) = true ->
  exists claimArgs,
    prepareClaimArgs records = Ok claimArgs /\
    campaignIds claimArgs = repeat expectedCampaignId (List.length records) /\
    Forall (fun user => toLowerCase user = toLowerCase expectedUser)
           (users claimArgs) /\
    amounts claimArgs = map ClaimProof.amount records /\
    proofs claimArgs = map ClaimProof.proof records.
Proof.
  intros Nr Nu V S. rewrite prepareClaimArgs_eq, S, andb_true_r.
  apply validateClaimProofs_ok_iff in V. rewrite forallb_forall in V.
  assert (forall p, In p records ->
                    hasUserAndProof p = true /\
                    toLowerCase (ClaimProof.user p) = toLowerCase expectedUser /\
                    ClaimProof.campaignId p = expectedCampaignId) as F.
  { intros p I. apply validated_record; [exact Nu |].
    apply negb_true_iff. now apply V. }
  replace (forallb hasUserAndProof records) with true
    by (symmetry; apply forallb_forall; intros p I; now apply F).
  destruct records as [| p rest]; [contradiction |]. cbn [isEmpty negb andb].
  eexists. split; [reflexivity |]. cbn [campaignIds users amounts proofs].
  split; [| split; [| split; reflexivity]].
  - clear V S Nr. induction (p :: rest) as [| q l IH]; [reflexivity |].
    simpl. rewrite IH by (intros x I; apply F; now right).
    f_equal. apply F. now left.
  - apply Forall_forall. intros user I. apply in_map_iff in I.
    destruct I as (q & <- & I). now apply F.
Qed.

Lemma validated_batch_prepares_witness :
  exists claimArgs,
    prepareClaimArgs [sampleProof 3 "5"; sampleProof 3 "7"] = Ok claimArgs /\
    campaignIds claimArgs = [3; 3].
Proof.
  destruct (validated_batch_prepares [sampleProof 3 "5"; sampleProof 3 "7"]
              sampleUser 3) as (claimArgs & P & C & _);
    [discriminate | discriminate | reflexivity | reflexivity |].
  exists claimArgs. split; [exact P | exact C].
Defined.
